(** * dockerfile-source-checksum: a shallow embedding of the checksum engine

    The development follows the Go sources:
    - [pkg/checksum/dockerfile.go] (module [Checksum]): the library; its tree
      hasher streams every file into the one accumulator of the checksum;
    - [main.go], first revision (module [Main]): the command with the walk
      and the composition inlined, SHA-1 only, whose tree hasher keeps an
      accumulator per directory;
    - [main.go], second revision (module [Cli]): the command over the
      library;
    - [main.go], third revision (module [Inline]): the command with a hash
      flag and the library's functions inlined; these have the text of the
      library's and are not repeated.

    Go strings and byte slices are byte sequences; they are modelled as
    [string] (names, words, paths, messages) and [list byte] (file contents,
    the bytes written to a hash, digests).  A [hash.Hash] is modelled by its
    algorithm and the bytes written to it so far: [Write] appends, [Sum]
    applies MD5, SHA-1 or SHA-256 to them.  Maps and slices handed over by a
    caller are objects of a store.  The filesystem is a tree of nodes, read
    through [fs.Stat], [fs.ReadDir] and the glob matcher.  The calls to the
    logger write to the diagnostic channel only and are left out of the
    checksum engine; [mapToAttr] and the logging hash are modelled on their
    own in [Logging].

    What lies outside the repository (buildkit's parser, instruction forms
    and shell lexer, and [fs.Glob]) is a parameter of the development
    ([Collaborators]); the closed examples instantiate it in [Fixture]. *)

From Stdlib Require Import ZArith Lia Ascii String.
From Stdlib.Strings Require Import Byte.
From stdpp Require Import gmap strings list sorting.

Local Open Scope Z_scope.

(** ** Words and bytes *)

Module Bits.

Definition wrap32 (x : Z) : Z := Z.land x 0xFFFFFFFF.
Definition add32 (a b : Z) : Z := wrap32 (a + b).
Definition not32 (x : Z) : Z := Z.lxor x 0xFFFFFFFF.
Definition rotl32 (x n : Z) : Z :=
  Z.lor (wrap32 (Z.shiftl x n)) (Z.shiftr x (32 - n)).
Definition rotr32 (x n : Z) : Z := rotl32 x (32 - n).

Definition byteZ (b : byte) : Z := Z.of_N (Byte.to_N b).
Definition Zbyte (z : Z) : byte :=
  match Byte.of_N (Z.to_N (Z.land z 0xFF)) with
  | Some b => b
  | None => x00
  end.

(** Big- and little-endian encodings of a [w]-byte unsigned integer. *)
Fixpoint encodeLE (w : nat) (x : Z) : list Z :=
  match w with
  | O => []
  | S w' => Z.land x 0xFF :: encodeLE w' (Z.shiftr x 8)
  end.
Definition encodeBE (w : nat) (x : Z) : list Z := rev (encodeLE w x).

Definition decodeBE (bs : list Z) : Z :=
  fold_left (fun acc b => Z.lor (Z.shiftl acc 8) b) bs 0.
Definition decodeLE (bs : list Z) : Z := decodeBE (rev bs).

(** Cut a list into consecutive pieces of [n] elements. *)
Fixpoint chunksFuel {A} (fuel : nat) (n : nat) (l : list A) : list (list A) :=
  match fuel, l with
  | O, _ | _, [] => []
  | S fuel', _ => take n l :: chunksFuel fuel' n (drop n l)
  end.
Definition chunks {A} (n : nat) (l : list A) : list (list A) :=
  chunksFuel (length l) n l.

(** Message padding shared by MD5, SHA-1 and SHA-256: a 0x80 byte, zeros up
    to 56 modulo 64, then the bit length on 8 bytes. *)
Definition padding (lenEnc : nat -> Z -> list Z) (msg : list Z) : list Z :=
  let len := Z.of_nat (length msg) in
  msg ++ [0x80] ++ repeat 0 (Z.to_nat ((55 - len) mod 64)) ++ lenEnc 8%nat (8 * len).

Definition nthZ (l : list Z) (i : nat) : Z := nth i l 0.

Definition hexDigit (d : Z) : ascii :=
  nth (Z.to_nat d) (list_ascii_of_string "0123456789abcdef") "0"%char.

(** [fmt.Sprintf("%x", b)] and [hex.EncodeToString]: two lower-case digits
    per byte. *)
Fixpoint hexEncode (bs : list byte) : string :=
  match bs with
  | [] => EmptyString
  | b :: bs' =>
      String (hexDigit (Z.shiftr (byteZ b) 4))
        (String (hexDigit (Z.land (byteZ b) 0xF)) (hexEncode bs'))
  end.

End Bits.

(** ** crypto/sha1 *)

Module Sha1.
Import Bits.

Definition init : list Z :=
  [0x67452301; 0xEFCDAB89; 0x98BADCFE; 0x10325476; 0xC3D2E1F0].

(** The message schedule, most recent word first. *)
Fixpoint schedule (n : nat) (w : list Z) : list Z :=
  match n with
  | O => w
  | S n' =>
      schedule n'
        (rotl32 (Z.lxor (Z.lxor (nthZ w 2) (nthZ w 7))
                        (Z.lxor (nthZ w 13) (nthZ w 15))) 1 :: w)
  end.

Definition round (st : list Z * nat) (wt : Z) : list Z * nat :=
  let '(s, t) := st in
  let a := nthZ s 0 in let b := nthZ s 1 in let c := nthZ s 2 in
  let d := nthZ s 3 in let e := nthZ s 4 in
  let '(f, k) :=
    if (t <? 20)%nat then
      (Z.lor (Z.land b c) (Z.land (not32 b) d), 0x5A827999)
    else if (t <? 40)%nat then
      (Z.lxor (Z.lxor b c) d, 0x6ED9EBA1)
    else if (t <? 60)%nat then
      (Z.lor (Z.lor (Z.land b c) (Z.land b d)) (Z.land c d), 0x8F1BBCDC)
    else
      (Z.lxor (Z.lxor b c) d, 0xCA62C1D6) in
  let tmp := add32 (add32 (add32 (add32 (rotl32 a 5) f) e) k) wt in
  ([tmp; a; rotl32 b 30; c; d], S t).

Definition block (h : list Z) (blk : list Z) : list Z :=
  let w16 := map decodeBE (chunks 4 blk) in
  let w := rev (schedule 64 (rev w16)) in
  let s := fst (fold_left round w (h, O)) in
  map (fun '(x, y) => add32 x y) (zip h s).

Definition sumZ (msg : list Z) : list Z :=
  concat (map (encodeBE 4) (fold_left block (chunks 64 (padding encodeBE msg)) init)).

(** [sha1.New()] followed by writes of [msg] and [Sum(nil)]. *)
Definition Sum (msg : list byte) : list byte := map Zbyte (sumZ (map byteZ msg)).

End Sha1.

(** ** crypto/sha256 *)

Module Sha256.
Import Bits.

(** The integer cube root of [x], found bit by bit from bit [bits - 1]. *)
Fixpoint cubeRoot (bits : nat) (x r : Z) : Z :=
  match bits with
  | O => r
  | S bits' =>
      let r' := r + Z.shiftl 1 (Z.of_nat bits') in
      cubeRoot bits' x (if r' * r' * r' <=? x then r' else r)
  end.

Definition isPrime (n : Z) : bool :=
  forallb (fun d => negb (n mod Z.of_nat d =? 0)) (seq 2 (Z.to_nat n - 2)).

(** The first 64 primes. *)
Definition primes : list Z :=
  filter (fun n => isPrime n = true) (map Z.of_nat (seq 2 310)).

(** The initial state: the first 32 bits of the fractional parts of the
    square roots of the first 8 primes. *)
Definition init : list Z :=
  map (fun p => wrap32 (Z.sqrt (Z.shiftl p 64))) (take 8 primes).

(** The round constants: the first 32 bits of the fractional parts of the
    cube roots of the first 64 primes. *)
Definition K : list Z :=
  map (fun p => wrap32 (cubeRoot 36 (Z.shiftl p 96) 0)) primes.

Definition xor3 (a b c : Z) : Z := Z.lxor (Z.lxor a b) c.

Fixpoint schedule (n : nat) (w : list Z) : list Z :=
  match n with
  | O => w
  | S n' =>
      let w2 := nthZ w 1 in
      let w15 := nthZ w 14 in
      let s0 := xor3 (rotr32 w15 7) (rotr32 w15 18) (Z.shiftr w15 3) in
      let s1 := xor3 (rotr32 w2 17) (rotr32 w2 19) (Z.shiftr w2 10) in
      schedule n' (add32 (add32 (add32 (nthZ w 15) s0) (nthZ w 6)) s1 :: w)
  end.

Definition round (s : list Z) (kw : Z * Z) : list Z :=
  let '(k, wt) := kw in
  let a := nthZ s 0 in let b := nthZ s 1 in let c := nthZ s 2 in
  let d := nthZ s 3 in let e := nthZ s 4 in let f := nthZ s 5 in
  let g := nthZ s 6 in let h := nthZ s 7 in
  let S1 := xor3 (rotr32 e 6) (rotr32 e 11) (rotr32 e 25) in
  let ch := Z.lxor (Z.land e f) (Z.land (not32 e) g) in
  let t1 := add32 (add32 (add32 (add32 h S1) ch) k) wt in
  let S0 := xor3 (rotr32 a 2) (rotr32 a 13) (rotr32 a 22) in
  let maj := xor3 (Z.land a b) (Z.land a c) (Z.land b c) in
  let t2 := add32 S0 maj in
  [add32 t1 t2; a; b; c; add32 d t1; e; f; g].

Definition block (h : list Z) (blk : list Z) : list Z :=
  let w16 := map decodeBE (chunks 4 blk) in
  let w := rev (schedule 48 (rev w16)) in
  let s := fold_left round (zip K w) h in
  map (fun '(x, y) => add32 x y) (zip h s).

Definition sumZ (msg : list Z) : list Z :=
  concat (map (encodeBE 4) (fold_left block (chunks 64 (padding encodeBE msg)) init)).

Definition Sum (msg : list byte) : list byte := map Zbyte (sumZ (map byteZ msg)).

End Sha256.

(** ** crypto/md5 *)

Module Md5.
Import Bits.

Definition init : list Z := [0x67452301; 0xefcdab89; 0x98badcfe; 0x10325476].

Definition K : list Z :=
  [0xd76aa478; 0xe8c7b756; 0x242070db; 0xc1bdceee; 0xf57c0faf; 0x4787c62a;
   0xa8304613; 0xfd469501; 0x698098d8; 0x8b44f7af; 0xffff5bb1; 0x895cd7be;
   0x6b901122; 0xfd987193; 0xa679438e; 0x49b40821; 0xf61e2562; 0xc040b340;
   0x265e5a51; 0xe9b6c7aa; 0xd62f105d; 0x02441453; 0xd8a1e681; 0xe7d3fbc8;
   0x21e1cde6; 0xc33707d6; 0xf4d50d87; 0x455a14ed; 0xa9e3e905; 0xfcefa3f8;
   0x676f02d9; 0x8d2a4c8a; 0xfffa3942; 0x8771f681; 0x6d9d6122; 0xfde5380c;
   0xa4beea44; 0x4bdecfa9; 0xf6bb4b60; 0xbebfbc70; 0x289b7ec6; 0xeaa127fa;
   0xd4ef3085; 0x04881d05; 0xd9d4d039; 0xe6db99e5; 0x1fa27cf8; 0xc4ac5665;
   0xf4292244; 0x432aff97; 0xab9423a7; 0xfc93a039; 0x655b59c3; 0x8f0ccc92;
   0xffeff47d; 0x85845dd1; 0x6fa87e4f; 0xfe2ce6e0; 0xa3014314; 0x4e0811a1;
   0xf7537e82; 0xbd3af235; 0x2ad7d2bb; 0xeb86d391].

Definition shifts : list Z :=
  [7; 12; 17; 22; 7; 12; 17; 22; 7; 12; 17; 22; 7; 12; 17; 22;
   5; 9; 14; 20; 5; 9; 14; 20; 5; 9; 14; 20; 5; 9; 14; 20;
   4; 11; 16; 23; 4; 11; 16; 23; 4; 11; 16; 23; 4; 11; 16; 23;
   6; 10; 15; 21; 6; 10; 15; 21; 6; 10; 15; 21; 6; 10; 15; 21].

Definition round (m : list Z) (st : list Z * nat) (ks : Z * Z) : list Z * nat :=
  let '(s, i) := st in
  let '(k, sh) := ks in
  let a := nthZ s 0 in let b := nthZ s 1 in
  let c := nthZ s 2 in let d := nthZ s 3 in
  let '(f, g) :=
    if (i <? 16)%nat then
      (Z.lor (Z.land b c) (Z.land (not32 b) d), i)
    else if (i <? 32)%nat then
      (Z.lor (Z.land d b) (Z.land (not32 d) c), ((5 * i + 1) mod 16)%nat)
    else if (i <? 48)%nat then
      (Z.lxor (Z.lxor b c) d, ((3 * i + 5) mod 16)%nat)
    else
      (Z.lxor c (Z.lor b (not32 d)), ((7 * i) mod 16)%nat) in
  let f' := add32 (add32 (add32 f a) k) (nthZ m g) in
  ([d; add32 b (rotl32 f' sh); b; c], S i).

Definition block (h : list Z) (blk : list Z) : list Z :=
  let m := map decodeLE (chunks 4 blk) in
  let s := fst (fold_left (round m) (zip K shifts) (h, O)) in
  map (fun '(x, y) => add32 x y) (zip h s).

Definition sumZ (msg : list Z) : list Z :=
  concat (map (encodeLE 4) (fold_left block (chunks 64 (padding encodeLE msg)) init)).

Definition Sum (msg : list byte) : list byte := map Zbyte (sumZ (map byteZ msg)).

End Md5.

Local Open Scope string_scope.
Local Close Scope Z_scope.

(** ** Results, errors and panics *)

(** A Go call either returns normally, returns a non-nil [error] (modelled by
    its message), or panics. *)
Inductive outcome (A : Type) : Type :=
| Ok (a : A)
| Error (err : string)
| Panic (msg : string).
Arguments Ok {A} a.
Arguments Error {A} err.
Arguments Panic {A} msg.

(** [must] and [must0]: a returned error becomes a panic. *)
Definition must {A} (r : outcome A) : outcome A :=
  match r with
  | Error err => Panic err
  | _ => r
  end.

Definition isOk {A} (r : outcome A) : bool :=
  match r with Ok _ => true | _ => false end.

Global Instance outcome_ret : MRet outcome := fun A a => Ok a.
Global Instance outcome_bind : MBind outcome := fun A B k r =>
  match r with
  | Ok a => k a
  | Error e => Error e
  | Panic m => Panic m
  end.

Global Instance outcome_fmap : FMap outcome := fun A B f r =>
  match r with
  | Ok a => Ok (f a)
  | Error e => Error e
  | Panic m => Panic m
  end.

(** State and failure: the state reached so far survives a failure, as the
    mutations made before a Go panic do. *)
Definition SE (S A : Type) : Type := S -> outcome A * S.

Global Instance SE_ret {S} : MRet (SE S) := fun A a s => (Ok a, s).
Global Instance SE_bind {S} : MBind (SE S) := fun A B k m s =>
  match m s with
  | (Ok a, s') => k a s'
  | (Error e, s') => (Error e, s')
  | (Panic p, s') => (Panic p, s')
  end.

Global Instance SE_fmap {S} : FMap (SE S) := fun A B f m =>
  m ≫= fun a => mret (f a).

(** [must] around a call that may already have changed the state. *)
Definition mustSE {S A} (m : SE S A) : SE S A :=
  fun s => let '(r, s') := m s in (must r, s').

Definition lift {S A} (r : outcome A) : SE S A := fun s => (r, s).
Definition get {S} : SE S S := fun s => (Ok s, s).
Definition modify {S} (f : S -> S) : SE S unit := fun s => (Ok tt, f s).

(** [for _, x := range l { body x }] *)
Fixpoint forEach {S A} (l : list A) (body : A -> SE S unit) : SE S unit :=
  match l with
  | [] => mret tt
  | x :: l' => body x ≫= fun _ => forEach l' body
  end.

(** A loop over [l] that updates a local variable [b]. *)
Fixpoint foldM {S A B} (body : B -> A -> SE S B) (b : B) (l : list A) : SE S B :=
  match l with
  | [] => mret b
  | x :: l' => body b x ≫= fun b' => foldM body b' l'
  end.

(** A loop over [l] that replaces each element in turn. *)
Fixpoint mapM {S A B} (f : A -> SE S B) (l : list A) : SE S (list B) :=
  match l with
  | [] => mret []
  | x :: l' => f x ≫= fun y => mapM f l' ≫= fun ys => mret (y :: ys)
  end.

(** ** sort.Strings and sorting directory entries by name *)

Definition strle (s1 s2 : string) : Prop := String.leb s1 s2 = true.

Section sortOn.
Context {A : Type} (key : A -> string).

Fixpoint insertOn (x : A) (l : list A) : list A :=
  match l with
  | [] => [x]
  | y :: l' =>
      if String.leb (key x) (key y) then x :: l else y :: insertOn x l'
  end.

Definition sortOn (l : list A) : list A := foldr insertOn [] l.
End sortOn.

(** [sort.Strings]: increasing byte-wise order. *)
Definition sortStrings (l : list string) : list string := sortOn id l.

(** ** Maps and slices shared with the caller *)

(** A Go [map[string]string] value is a reference to a map object and a slice
    is a view of a backing array; a callee's writes are seen by every holder
    of the reference.  The store holds the map objects and the arrays.  A
    reference absent from the store is the nil map (nil slice): it reads as
    empty, and an assignment to an entry of a nil map panics. *)
Definition loc := nat.

Record Store := mkStore {
  maps : gmap loc (gmap string string);
  slices : gmap loc (list string);
}.

Definition loadMap (r : loc) (s : Store) : gmap string string :=
  default ∅ (maps s !! r).
Definition loadSlice (r : loc) (s : Store) : list string :=
  default [] (slices s !! r).

(** Run a computation on the map object behind [r]. *)
Definition withMap {A} (r : loc) (m : SE (gmap string string) A) : SE Store A :=
  fun s =>
    match maps s !! r with
    | Some t =>
        let '(a, t') := m t in
        (a, mkStore (<[r := t']> (maps s)) (slices s))
    | None =>
        let '(a, t') := m ∅ in
        if decide (t' = ∅) then (a, s)
        else (Panic "assignment to entry in nil map", s)
    end.

(** Run a computation on the array behind the slice [r]. *)
Definition withSlice {A} (r : loc) (m : SE (list string) A) : SE Store A :=
  fun s =>
    match slices s !! r with
    | Some l =>
        let '(a, l') := m l in
        (a, mkStore (maps s) (<[r := l']> (slices s)))
    | None => (fst (m []), s)
    end.

(** ** path/filepath *)

(** [strings.Split(s, "/")] *)
Fixpoint splitSlash (s : string) : list string :=
  match s with
  | EmptyString => [EmptyString]
  | String c s' =>
      if Ascii.eqb c "/" then EmptyString :: splitSlash s'
      else match splitSlash s' with
           | [] => [String c EmptyString]
           | x :: xs => String c x :: xs
           end
  end.

Definition isRooted (path : string) : bool :=
  match path with
  | String c _ => Ascii.eqb c "/"
  | EmptyString => false
  end.

(** The elements kept by [filepath.Clean], most recent first in [out]: empty
    and [.] elements are dropped, [..] removes the element before it, or is
    kept at the start of a relative path and dropped at the root. *)
Fixpoint cleanElems (rooted : bool) (out : list string) (es : list string)
  : list string :=
  match es with
  | [] => rev out
  | e :: es' =>
      if String.eqb e "" || String.eqb e "." then cleanElems rooted out es'
      else if String.eqb e ".." then
        match out with
        | o :: out' =>
            if String.eqb o ".." then cleanElems rooted (e :: out) es'
            else cleanElems rooted out' es'
        | [] =>
            if rooted then cleanElems rooted [] es'
            else cleanElems rooted [e] es'
        end
      else cleanElems rooted (e :: out) es'
  end.

(** [filepath.Clean] (Unix). *)
Definition Clean (path : string) : string :=
  let body := String.concat "/" (cleanElems (isRooted path) [] (splitSlash path)) in
  if isRooted path then "/" ++ body
  else if String.eqb body "" then "." else body.

(** [filepath.Join(dir, name)] *)
Definition Join (dir name : string) : string :=
  if negb (String.eqb dir "") then Clean (dir ++ "/" ++ name)
  else if negb (String.eqb name "") then Clean name
  else "".

(** [filepath.Rel(".", targ)]: the cleaned target; a rooted target cannot be
    made relative. *)
Definition RelDot (targ : string) : outcome string :=
  if isRooted targ then
    Error ("Rel: can't make " ++ targ ++ " relative to .")
  else Ok (Clean targ).

(** [strings.HasPrefix] *)
Fixpoint HasPrefix (s p : string) : bool :=
  match p, s with
  | EmptyString, _ => true
  | String c p', String d s' => Ascii.eqb c d && HasPrefix s' p'
  | String _ _, EmptyString => false
  end.

(** ** The filesystem view (io/fs over os.DirFS) *)

Definition bytes := list byte.

#[local] Set Warnings "-register-all".

(** What [fs.Stat] finds at a path.  A directory holds its entries in the
    order the underlying filesystem enumerates them. *)
Inductive node : Type :=
| File (content : bytes)
| Dir (entries : list (string * node))
| Denied (isDir : bool) (err : string)
    (* fs.Stat succeeds, fsys.Open / fs.ReadDir fails with [err] *)
| Broken (err : string).
    (* fs.Stat fails with [err] *)

(** [fs.ReadDir]: the directory entries sorted by filename. *)
Definition ReadDir {A} (entries : list (string * A)) : list (string * A) :=
  sortOn fst entries.

(** [fs.ValidPath] *)
Definition ValidPath (name : string) : bool :=
  String.eqb name "." ||
  forallb (fun e => negb (String.eqb e "" || String.eqb e "." || String.eqb e ".."))
          (splitSlash name).

Definition findEntry (name : string) (entries : list (string * node))
  : option node :=
  snd <$> List.find (fun e => String.eqb (fst e) name) entries.

Fixpoint walkPath (n : node) (elems : list string) : outcome node :=
  match elems with
  | [] => Ok n
  | e :: elems' =>
      match n with
      | Dir entries =>
          match findEntry e entries with
          | Some child => walkPath child elems'
          | None => Error "no such file or directory"
          end
      | Broken err => Error err
      | Denied true err => Error err
      | _ => Error "not a directory"
      end
  end.

(** [fs.Stat(fsys, name)]: the node at [name], when it can be reached. *)
Definition Stat (fsys : node) (name : string) : outcome node :=
  if negb (ValidPath name) then Error "invalid argument"
  else
    match (if String.eqb name "." then Ok fsys
           else walkPath fsys (splitSlash name)) with
    | Ok (Broken err) => Error err
    | r => r
    end.

Definition IsDir (n : node) : bool :=
  match n with
  | Dir _ | Denied true _ => true
  | _ => false
  end.

(** ** hash.Hash *)

Module hash.
Inductive Algorithm := SHA1 | MD5 | SHA256.

(** An accumulator: the algorithm chosen at construction and the bytes
    written since. *)
Record Hash := mkHash {
  algorithm : Algorithm;
  written : bytes;
}.

Definition New (a : Algorithm) : Hash := mkHash a [].
Definition Write (h : Hash) (p : bytes) : Hash :=
  mkHash (algorithm h) (written h ++ p)%list.
(** [h.Sum(nil)] *)
Definition Sum (h : Hash) : bytes :=
  match algorithm h with
  | SHA1 => Sha1.Sum (written h)
  | MD5 => Md5.Sum (written h)
  | SHA256 => Sha256.Sum (written h)
  end.
End hash.

(** [io.WriteString(h, s)] *)
Definition WriteString (h : hash.Hash) (s : string) : hash.Hash :=
  hash.Write h (list_byte_of_string s).

(** ** buildkit's instructions *)

Inductive MountType := MountTypeBind | MountTypeCache | MountTypeTmpfs
                     | MountTypeSecret | MountTypeSSH.

Global Instance MountType_eq_dec : EqDecision MountType.
Proof. solve_decision. Defined.

Record Mount := mkMount {
  mountType : MountType;
  mountFrom : string;
  mountSource : string;
  mountTarget : string;
}.

(** [KeyValuePairOptional]: [None] is a nil [Value]. *)
Record KeyValuePairOptional := mkArg {
  argKey : string;
  argValue : option string;
}.

Definition ValueString (a : KeyValuePairOptional) : string :=
  default "" (argValue a).

Inductive Command : Type :=
| ArgCommand (args : list KeyValuePairOptional)
| EnvCommand (env : list (string * string))
| CopyCommand (from : string) (sourcePaths : list string) (destPath : string)
| AddCommand (sourcePaths : list string) (destPath : string)
| RunCommand (mounts : list Mount)
| OtherCommand (words : list string).
    (* any other instruction, with the words its [Expand] processes (none
       when it does not support single-word expansion) *)

Record Stage := mkStage {
  stageName : string;
  Commands : list Command;
}.

(** [parser.Result] *)
Record Result (Node : Type) := mkResult {
  AST : Node;
  EscapeToken : ascii;
}.
Arguments AST {Node} _.
Arguments EscapeToken {Node} _.
Arguments mkResult {Node} _ _.

(** The collaborators outside this repository: buildkit's Dockerfile parser
    and shell lexer, and the glob matcher of io/fs. *)
Class Collaborators := {
  Node : Type;
  (* parser.Parse *)
  parserParse : bytes -> outcome (Result Node);
  (* instructions.Parse: the stages and the ARGs before the first stage *)
  instructionsParse : Node -> outcome (list Stage * list (list KeyValuePairOptional));
  (* shell.NewLex(escapeToken).ProcessWordWithMap(word, env) *)
  ProcessWordWithMap : ascii -> string -> gmap string string -> outcome string;
  (* fs.Glob(fsys, pattern) *)
  Glob : node -> string -> outcome (list string);
}.

(** The process environment: files readable by [os.ReadFile] and the
    directory trees [os.DirFS] gives a view of. *)
Record World := mkWorld {
  ReadFile : string -> outcome bytes;
  DirFS : string -> node;
}.

(** ** buildkit: single-word expansion of an instruction *)

(** The [Expand] methods of buildkit's instructions, on the fields this
    program reads afterwards: every word is replaced by what the expander
    returns for it, in order, and the first failure is returned. *)
Section Expand.
Context {S : Type} (expander : string -> SE S string).

Definition expandArg (a : KeyValuePairOptional) : SE S KeyValuePairOptional :=
  k ← expander (argKey a);
  match argValue a with
  | None => mret (mkArg k None)
  | Some v => v' ← expander v; mret (mkArg k (Some v'))
  end.

Definition expandKvp (kv : string * string) : SE S (string * string) :=
  k ← expander (fst kv);
  v ← expander (snd kv);
  mret (k, v).

Definition expandMount (m : Mount) : SE S Mount :=
  from ← expander (mountFrom m);
  source ← expander (mountSource m);
  target ← expander (mountTarget m);
  mret (mkMount (mountType m) from source target).

Definition Expand (cmd : Command) : SE S Command :=
  match cmd with
  | ArgCommand args => ArgCommand <$> mapM expandArg args
  | EnvCommand env => EnvCommand <$> mapM expandKvp env
  | CopyCommand from sourcePaths destPath =>
      srcs ← mapM expander sourcePaths;
      dest ← expander destPath;
      mret (CopyCommand from srcs dest)
  | AddCommand sourcePaths destPath =>
      srcs ← mapM expander sourcePaths;
      dest ← expander destPath;
      mret (AddCommand srcs dest)
  | RunCommand mounts => RunCommand <$> mapM expandMount mounts
  | OtherCommand words => OtherCommand <$> mapM expander words
  end.
End Expand.

(** ** pkg/checksum/dockerfile.go *)

Module Checksum.

Record Config := mkConfig {
  BuildArgs : loc;
  Labels : loc;
  Platforms : loc;
  Dockerfile : string;
  Workdir : string;
  Hash : string;
  Debug : bool;
}.

(** The [switch c.Hash] of [CalculateDockerfileChecksum]. *)
Definition newHash (name : string) : outcome hash.Hash :=
  if String.eqb name "sha1" then Ok (hash.New hash.SHA1)
  else if String.eqb name "md5" then Ok (hash.New hash.MD5)
  else if String.eqb name "sha256" then Ok (hash.New hash.SHA256)
  else Panic ("unknown hash algorithm " ++ name).

(** [newHashWithLog]: the wrapper's [Write] logs the MD5 of the chunk and
    hands it to the wrapped hash, which accumulates the same bytes. *)
Definition newHashWithLog (h : hash.Hash) : hash.Hash := h.

(** [maps.Keys] followed by [sort.Strings]. *)
Definition sortedKeys (m : gmap string string) : list string :=
  sortStrings (map fst (map_to_list m)).

Definition addMapToHash (h : hash.Hash) (m : gmap string string) : hash.Hash :=
  fold_left
    (fun h key => WriteString (WriteString h key) (default "" (m !! key)))
    (sortedKeys m) h.

(** The slice is sorted in place before it is written. *)
Definition addSliceToHash (h : hash.Hash) : SE (list string) hash.Hash :=
  fun s =>
    let s' := sortStrings s in
    (Ok (fold_left WriteString s' h), s').

(** [fileSha]: the file's bytes are copied into the accumulator. *)
Definition fileSha (n : node) (h : hash.Hash) : outcome hash.Hash :=
  match n with
  | File content => Ok (hash.Write h content)
  | Dir _ => Error "is a directory"
  | Denied _ err | Broken err => Error err
  end.

(** The loop of [dirSha] over the children listed by [fs.ReadDir], each
    with the [pathSha] of its subtree. *)
Fixpoint dirShaLoop (path : string)
    (children : list (string * (string -> hash.Hash -> outcome hash.Hash)))
    (h : hash.Hash) : outcome hash.Hash :=
  match children with
  | [] => Ok h
  | (name, childSha) :: rest =>
      let childPath := Join path name in
      let h := WriteString h childPath in
      match childSha childPath h with
      | Ok h' => dirShaLoop path rest h'
      | Error err =>
          Error ("calculating hash for " ++ childPath ++ ": " ++ err)
      | Panic msg => Panic msg
      end
  end.

Definition dirSha
    (children : outcome (list (string * (string -> hash.Hash -> outcome hash.Hash))))
    (path : string) (h : hash.Hash) : outcome hash.Hash :=
  match children with
  | Ok children => dirShaLoop path children h
  | Error err => Error ("fs.ReadDir: " ++ err)
  | Panic msg => Panic msg
  end.

(** [pathSha] at the node [n] that [fs.Stat] finds at [path]:
    [stat.IsDir()] is the variant of the node, [fs.ReadDir] lists its
    entries sorted by name, and the [pathSha] of a child, which starts
    with the [fs.Stat] of the child's path, runs on the child's node.
    The recursion follows the tree; [ByPath.pathSha] below is the same
    function looking every path up from the root. *)
Fixpoint pathShaNode (n : node) (path : string) (h : hash.Hash) : outcome hash.Hash :=
  match n with
  | Broken err => Error err
  | Dir entries =>
      dirSha (Ok (ReadDir (map (fun e => (fst e, pathShaNode (snd e))) entries)))
             path h
  | Denied true err => dirSha (Error err) path h
  | File _ | Denied false _ => fileSha n h
  end.

Definition pathSha (fsys : node) (path : string) (h : hash.Hash) : outcome hash.Hash :=
  match Stat fsys path with
  | Ok n => pathShaNode n path h
  | Error err => Error err
  | Panic msg => Panic msg
  end.

Section collaborators.
Context `{Collaborators}.

Abbreviation table := (gmap string string).

(** The [instructions.SingleWordExpander] closure: it reads the map as
    it is when called. *)
Definition expandBuildArgs (res : Result Node) (key : string)
  : SE table string :=
  fun buildArgs =>
    (ProcessWordWithMap (EscapeToken res) key buildArgs, buildArgs).

(** The body of the loop over the ARGs before the first stage. *)
Definition argDefault (arg : KeyValuePairOptional) : SE table unit :=
  fun buildArgs =>
    if decide (buildArgs !! argKey arg = None ∧ argValue arg ≠ None)
    then (Ok tt, <[argKey arg := ValueString arg]> buildArgs)
    else (Ok tt, buildArgs).

(** The body of the loop over a stage's commands. *)
Definition walkCommand (res : Result Node) (paths : list string)
    (iCmd : Command) : SE table (list string) :=
  cmd ← mustSE (Expand (expandBuildArgs res) iCmd);
  match cmd with
  | CopyCommand from sourcePaths _ =>
      if String.eqb from "" then mret (paths ++ sourcePaths)%list
      else mret paths
  | AddCommand sourcePaths _ => mret (paths ++ sourcePaths)%list
  | EnvCommand env =>
      forEach env (fun kv => modify <[fst kv := snd kv]>);;
      mret paths
  | RunCommand mounts =>
      mret (fold_left
              (fun paths mount =>
                 if String.eqb (mountFrom mount) "" &&
                    bool_decide (mountType mount = MountTypeBind)
                 then (paths ++ [mountSource mount])%list
                 else paths)
              mounts paths)
  | ArgCommand _ | OtherCommand _ => mret paths
  end.

(** [PathsFromDockerfile] on the map object behind [buildArgs]. *)
Definition PathsFromDockerfile (res : Result Node)
  : SE table (list string) :=
  parsed ← lift (must (instructionsParse (AST res)));
  forEach (snd parsed) (fun argCmd => forEach argCmd argDefault);;
  paths ← foldM (fun paths stage =>
                   foldM (walkCommand res) paths (Commands stage))
                [] (fst parsed);
  mret (sortStrings paths).

(** The inner loop of [CalculateDockerfileChecksum] over the matches of
    one pattern. *)
Fixpoint addFiles (workdir : node) (files : list string) (h : hash.Hash)
  : outcome hash.Hash :=
  match files with
  | [] => Ok h
  | file :: files' =>
      let h := WriteString h file in
      h ← must (pathSha workdir file h);
      addFiles workdir files' h
  end.

(** The outer loop over the extracted paths. *)
Fixpoint addPaths (workdir : node) (paths : list string) (h : hash.Hash)
  : outcome hash.Hash :=
  match paths with
  | [] => Ok h
  | path :: paths' =>
      path ← (if HasPrefix path "./" then must (RelDot path) else Ok path);
      files ← must (Glob workdir path);
      h ← addFiles workdir files h;
      addPaths workdir paths' h
  end.

(** [CalculateDockerfileChecksum]; the logger calls are left out. *)
Definition CalculateDockerfileChecksum (w : World) (c : Config)
  : SE Store string :=
  match ReadFile w (Dockerfile c) with
  | Error err => lift (Error ("read dockerfile: " ++ err))
  | Panic msg => lift (Panic msg)
  | Ok content =>
      match parserParse content with
      | Error err => lift (Error ("parse dockerfile: " ++ err))
      | Panic msg => lift (Panic msg)
      | Ok res =>
          let workdir := DirFS w (Workdir c) in
          h ← lift (newHash (Hash c));
          let h := if Debug c then newHashWithLog h else h in
          let h := hash.Write h content in
          paths ← withMap (BuildArgs c) (PathsFromDockerfile res);
          h ← lift (addPaths workdir paths h);
          buildArgs ← loadMap (BuildArgs c) <$> get;
          let h := addMapToHash h buildArgs in
          h ← withSlice (Platforms c) (addSliceToHash h);
          labels ← loadMap (Labels c) <$> get;
          let h := addMapToHash h labels in
          mret (Bits.hexEncode (hash.Sum h))
      end
  end.
End collaborators.
End Checksum.

(** ** main.go, first revision: per-directory accumulators *)

Module Main.

(** The flag values as viper hands them out: [GetStringMapString] and
    [GetStringSlice] build a fresh map or slice at every call, so the
    command shares none of them with anyone. *)
Record Flags := mkFlags {
  buildArg : gmap string string;
  platform : list string;
  label : gmap string string;
  file : string;
  debug : bool;
}.

(** [fileSha]: the SHA-1 of the file's bytes. *)
Definition fileSha (n : node) : outcome bytes :=
  match n with
  | File content => Ok (hash.Sum (hash.Write (hash.New hash.SHA1) content))
  | Dir _ => Error "is a directory"
  | Denied _ err | Broken err => Error err
  end.

(** The loop of [dirSha] over the children listed by [fs.ReadDir], each
    with the [pathSha] of its subtree; [h] is the directory's own
    accumulator. *)
Fixpoint dirShaLoop (path : string)
    (children : list (string * (string -> outcome bytes)))
    (h : hash.Hash) : outcome bytes :=
  match children with
  | [] => Ok (hash.Sum h)
  | (name, childSha) :: rest =>
      let childPath := Join path name in
      let h := WriteString h childPath in
      match childSha childPath with
      | Ok childHash => dirShaLoop path rest (hash.Write h childHash)
      | Error err =>
          Error ("calculating hash for " ++ childPath ++ ": " ++ err)
      | Panic msg => Panic msg
      end
  end.

Definition dirSha
    (children : outcome (list (string * (string -> outcome bytes))))
    (path : string) : outcome bytes :=
  let h := hash.New hash.SHA1 in
  match children with
  | Ok children => dirShaLoop path children h
  | Error err => Error ("fs.ReadDir: " ++ err)
  | Panic msg => Panic msg
  end.

Fixpoint pathShaNode (n : node) (path : string) : outcome bytes :=
  match n with
  | Broken err => Error err
  | Dir entries =>
      dirSha (Ok (ReadDir (map (fun e => (fst e, pathShaNode (snd e))) entries)))
             path
  | Denied true err => dirSha (Error err) path
  | File _ | Denied false _ => fileSha n
  end.

Definition pathSha (fsys : node) (path : string) : outcome bytes :=
  match Stat fsys path with
  | Ok n => pathShaNode n path
  | Error err => Error err
  | Panic msg => Panic msg
  end.

Section collaborators.
Context `{Collaborators}.

(** [pathsFromDockerfile] has the text of the library's
    [PathsFromDockerfile]. *)
Definition pathsFromDockerfile := Checksum.PathsFromDockerfile.

Fixpoint addFiles (workdir : node) (files : list string) (h : hash.Hash)
  : outcome hash.Hash :=
  match files with
  | [] => Ok h
  | file :: files' =>
      let h := WriteString h file in
      digest ← must (pathSha workdir file);
      addFiles workdir files' (hash.Write h digest)
  end.

Fixpoint addPaths (workdir : node) (paths : list string) (h : hash.Hash)
  : outcome hash.Hash :=
  match paths with
  | [] => Ok h
  | path :: paths' =>
      path ← (if HasPrefix path "./" then must (RelDot path) else Ok path);
      files ← must (Glob workdir path);
      h ← addFiles workdir files h;
      addPaths workdir paths' h
  end.

(** [handlerRoot]: the outcome and what was written to the command's
    output stream. *)
Definition handlerRoot (w : World) (flags : Flags) (args : list string)
  : outcome unit * string :=
  let run : outcome string :=
    let buildArgs := buildArg flags in
    content ← must (ReadFile w (file flags));
    res ← must (parserParse content);
    arg0 ← match args with
           | a :: _ => Ok a
           | [] => Panic "index out of range [0] with length 0"
           end;
    let workdir := DirFS w arg0 in
    let h := hash.New hash.SHA1 in
    let h := hash.Write h content in
    let '(paths, buildArgs) := pathsFromDockerfile res buildArgs in
    paths ← paths;
    h ← addPaths workdir paths h;
    let h := Checksum.addMapToHash h buildArgs in
    let h := fold_left WriteString (sortStrings (platform flags)) h in
    let h := Checksum.addMapToHash h (label flags) in
    Ok (Bits.hexEncode (hash.Sum h)) in
  match run with
  | Ok out => (Ok tt, out)
  | Error err => (Error err, "")
  | Panic msg => (Panic msg, "")
  end.
End collaborators.
End Main.

(** ** main.go, second revision: the command over the library *)

Module Cli.
Section collaborators.
Context `{Collaborators}.

(** [handlerRoot]: [config] is what [viper.Unmarshal] decoded, its maps
    and slice being objects of [s]; the result is the outcome and what
    was written to the command's output stream. *)
Definition handlerRoot (w : World) (config : Checksum.Config) (s : Store)
    (args : list string) : outcome unit * string :=
  match args with
  | [] => (Panic "index out of range [0] with length 0", "")
  | arg0 :: _ =>
      let config :=
        Checksum.mkConfig
          (Checksum.BuildArgs config) (Checksum.Labels config)
          (Checksum.Platforms config) (Checksum.Dockerfile config)
          arg0 (Checksum.Hash config) (Checksum.Debug config) in
      match must (fst (Checksum.CalculateDockerfileChecksum w config s)) with
      | Ok out => (Ok tt, out)
      | Error err => (Error err, "")
      | Panic msg => (Panic msg, "")
      end
  end.
End collaborators.
End Cli.

(** ** The tree hashers as written, path by path *)

(** A path element other than the empty one, [.] and [..]. *)
Definition proper (e : string) : bool :=
  negb (String.eqb e "" || String.eqb e "." || String.eqb e "..").

(** A valid file name: one non-empty path element other than [.] and [..]. *)
Definition validName (name : string) : bool :=
  match splitSlash name with
  | [e] => negb (String.eqb e "" || String.eqb e "." || String.eqb e "..")
  | _ => false
  end.

(** A tree as a filesystem holds it: in every directory the names are valid
    and pairwise distinct. *)
Fixpoint wellFormed (n : node) : bool :=
  match n with
  | Dir entries =>
      bool_decide (NoDup (map fst entries)) &&
      forallb (fun e => validName (fst e) && wellFormed (snd e)) entries
  | _ => true
  end.

Fixpoint height (n : node) : nat :=
  match n with
  | Dir entries => S (foldr Nat.max 0 (map (fun e => height (snd e)) entries))
  | _ => 0
  end.

(** [fs.ReadDir(fsys, path)]: the names of the entries, sorted. *)
Definition ReadDirAt (fsys : node) (path : string) : outcome (list string) :=
  match Stat fsys path with
  | Ok (Dir entries) => Ok (map fst (ReadDir entries))
  | Ok (File _) => Error "not a directory"
  | Ok (Denied _ err) | Ok (Broken err) => Error err
  | Error err => Error err
  | Panic msg => Panic msg
  end.

(** [fsys.Open(path)] and [io.Copy]: the bytes of the file at [path]. *)
Definition ReadAt (fsys : node) (path : string) : outcome bytes :=
  match Stat fsys path with
  | Ok (File content) => Ok content
  | Ok (Dir _) => Error "is a directory"
  | Ok (Denied _ err) | Ok (Broken err) => Error err
  | Error err => Error err
  | Panic msg => Panic msg
  end.

(** What [fs.Stat] answers at the path of a node known to be there. *)
Definition found (n : node) : outcome node :=
  match n with
  | Broken err => Error err
  | _ => Ok n
  end.

Module ByPath.
(** [fileSha], [dirSha] and [pathSha] of the library as they are written:
    every call looks its path up from the root of [fsys].  [fuel] bounds
    the depth of the recursion. *)
Definition fileSha (fsys : node) (path : string) (h : hash.Hash)
  : outcome hash.Hash :=
  content ← ReadAt fsys path;
  Ok (hash.Write h content).

(** The loop of [dirSha], [pathSha] being the recursive call. *)
Fixpoint dirShaLoop (pathSha : string -> hash.Hash -> outcome hash.Hash)
    (path : string) (children : list string) (h : hash.Hash)
  : outcome hash.Hash :=
  match children with
  | [] => Ok h
  | name :: rest =>
      let childPath := Join path name in
      let h := WriteString h childPath in
      match pathSha childPath h with
      | Ok h' => dirShaLoop pathSha path rest h'
      | Error err =>
          Error ("calculating hash for " ++ childPath ++ ": " ++ err)
      | Panic msg => Panic msg
      end
  end.

Definition dirSha (pathSha : string -> hash.Hash -> outcome hash.Hash)
    (fsys : node) (path : string) (h : hash.Hash) : outcome hash.Hash :=
  match ReadDirAt fsys path with
  | Ok children => dirShaLoop pathSha path children h
  | Error err => Error ("fs.ReadDir: " ++ err)
  | Panic msg => Panic msg
  end.

Fixpoint pathSha (fuel : nat) (fsys : node) (path : string) (h : hash.Hash)
  : outcome hash.Hash :=
  match fuel with
  | O => Error "directories nested too deep"
  | S fuel' =>
      stat ← Stat fsys path;
      if negb (IsDir stat) then fileSha fsys path h
      else dirSha (pathSha fuel' fsys) fsys path h
  end.

(** The same for the first revision of the command. *)
Definition fileShaMain (fsys : node) (path : string) : outcome bytes :=
  content ← ReadAt fsys path;
  Ok (hash.Sum (hash.Write (hash.New hash.SHA1) content)).

Fixpoint dirShaLoopMain (pathSha : string -> outcome bytes)
    (path : string) (children : list string) (h : hash.Hash)
  : outcome bytes :=
  match children with
  | [] => Ok (hash.Sum h)
  | name :: rest =>
      let childPath := Join path name in
      let h := WriteString h childPath in
      match pathSha childPath with
      | Ok childHash => dirShaLoopMain pathSha path rest (hash.Write h childHash)
      | Error err =>
          Error ("calculating hash for " ++ childPath ++ ": " ++ err)
      | Panic msg => Panic msg
      end
  end.

Definition dirShaMain (pathSha : string -> outcome bytes)
    (fsys : node) (path : string) : outcome bytes :=
  let h := hash.New hash.SHA1 in
  match ReadDirAt fsys path with
  | Ok children => dirShaLoopMain pathSha path children h
  | Error err => Error ("fs.ReadDir: " ++ err)
  | Panic msg => Panic msg
  end.

Fixpoint pathShaMain (fuel : nat) (fsys : node) (path : string)
  : outcome bytes :=
  match fuel with
  | O => Error "directories nested too deep"
  | S fuel' =>
      stat ← Stat fsys path;
      if negb (IsDir stat) then fileShaMain fsys path
      else dirShaMain (pathShaMain fuel' fsys) fsys path
  end.
End ByPath.

(** ** Instances of the collaborators for closed examples *)

Module Fixture.

Definition isNameChar (c : ascii) : bool :=
  let n := nat_of_ascii c in
  ((48 <=? n) && (n <=? 57) || (65 <=? n) && (n <=? 90) ||
   (97 <=? n) && (n <=? 122) || (n =? 95))%nat.

(** The longest prefix of name characters and the rest. *)
Fixpoint spanName (s : string) : string * string :=
  match s with
  | String c s' =>
      if isNameChar c then
        let '(name, rest) := spanName s' in (String c name, rest)
      else (EmptyString, s)
  | EmptyString => (EmptyString, EmptyString)
  end.

(** Up to the first closing brace, and what follows it. *)
Fixpoint spanBrace (s : string) : option (string * string) :=
  match s with
  | String c s' =>
      if Ascii.eqb c "}" then Some (EmptyString, s')
      else match spanBrace s' with
           | Some (name, rest) => Some (String c name, rest)
           | None => None
           end
  | EmptyString => None
  end.

(** The shell lexer on words made of plain text and the substitutions
    [$name] and [${name}]: a substitution is replaced by the variable's
    value, or by nothing when the variable is unset.  Quoting, escapes and
    the modifier forms of buildkit's lexer are outside this instance. *)
Fixpoint expandWord (fuel : nat) (word : string) (env : gmap string string)
  : outcome string :=
  match fuel with
  | O => Ok EmptyString
  | Datatypes.S fuel' =>
      match word with
      | EmptyString => Ok EmptyString
      | String "$" (String "{" rest) =>
          match spanBrace rest with
          | Some (name, rest') =>
              tail ← expandWord fuel' rest' env;
              Ok (default "" (env !! name) ++ tail)
          | None => Error "syntax error: missing '}'"
          end
      | String "$" rest =>
          let '(name, rest') := spanName rest in
          if String.eqb name "" then
            tail ← expandWord fuel' rest env;
            Ok (String "$" tail)
          else
            tail ← expandWord fuel' rest' env;
            Ok (default "" (env !! name) ++ tail)
      | String c rest =>
          tail ← expandWord fuel' rest env;
          Ok (String c tail)
      end
  end.

(** [hasMeta] of io/fs. *)
Definition hasMeta (pattern : string) : bool :=
  existsb (fun c => existsb (Ascii.eqb c) (list_ascii_of_string "*?[\"))
          (list_ascii_of_string pattern).

(** [fs.Glob] on a pattern without metacharacters: the pattern itself when
    [fs.Stat] finds it, no match otherwise.  Patterns with metacharacters
    are outside this instance. *)
Definition literalGlob (fsys : node) (pattern : string)
  : outcome (list string) :=
  if hasMeta pattern then Panic "pattern with metacharacters"
  else match Stat fsys pattern with
       | Ok _ => Ok [pattern]
       | _ => Ok []
       end.

(** A recipe given with its instructions: the parsers return them for any
    text. *)
Definition collaborators
    (recipe : list Stage * list (list KeyValuePairOptional))
  : Collaborators := {|
  Node := list Stage * list (list KeyValuePairOptional);
  parserParse := fun _ => Ok (mkResult recipe "\"%char);
  instructionsParse := Ok;
  ProcessWordWithMap := fun _ word env =>
    expandWord (Datatypes.S (String.length word)) word env;
  Glob := literalGlob;
|}.

End Fixture.

(** ** Notions used in the statements *)

Definition keyle {A} (key : A -> string) (x y : A) : Prop :=
  strle (key x) (key y).

Definition bytesOf (s : string) : bytes := list_byte_of_string s.

(** What [addMapToHash] and [addSliceToHash] write. *)
Definition mapStream (m : gmap string string) : bytes :=
  concat (map (fun key => bytesOf key ++ bytesOf (default "" (m !! key)))%list
              (Checksum.sortedKeys m)).
Definition sliceStream (s : list string) : bytes :=
  concat (map bytesOf (sortStrings s)).

(** What the library's [pathSha] writes for a node at a path. *)
Definition treeStream (n : node) (path : string) : outcome bytes :=
  hash.written <$> Checksum.pathShaNode n path (hash.New hash.SHA1).

(** What the loops of [CalculateDockerfileChecksum] over the matches of a
    pattern and over the extracted paths write: for every match its path,
    then what [pathSha] writes for it. *)
Fixpoint filesStream (workdir : node) (files : list string) : outcome bytes :=
  match files with
  | [] => Ok []
  | file :: files' =>
      s ← must (match Stat workdir file with
                | Ok n => treeStream n file
                | Error err => Error err
                | Panic msg => Panic msg
                end);
      tail ← filesStream workdir files';
      Ok (bytesOf file ++ s ++ tail)%list
  end.

Fixpoint pathsStream `{Collaborators} (workdir : node) (paths : list string)
  : outcome bytes :=
  match paths with
  | [] => Ok []
  | path :: paths' =>
      path ← (if HasPrefix path "./" then must (RelDot path) else Ok path);
      files ← must (Glob workdir path);
      s ← filesStream workdir files;
      tail ← pathsStream workdir paths';
      Ok (s ++ tail)%list
  end.

(** The pattern handed to [fs.Glob] for an extracted path. *)
Definition globPattern (path : string) : string :=
  if HasPrefix path "./" then Clean path else path.

(** The names of a directory are pairwise distinct, at every depth. *)
Fixpoint uniqueNames (n : node) : bool :=
  match n with
  | Dir entries =>
      bool_decide (NoDup (map fst entries)) &&
      forallb (fun e => uniqueNames (snd e)) entries
  | _ => true
  end.

(** Two views of one tree: the same names and contents everywhere, the
    entries of a directory possibly enumerated in another order. *)
Inductive sameTree : node -> node -> Prop :=
| sameFile content : sameTree (File content) (File content)
| sameDenied isDir err : sameTree (Denied isDir err) (Denied isDir err)
| sameBroken err : sameTree (Broken err) (Broken err)
| sameDir es1 es es2 :
    es1 ≡ₚ es -> sameEntries es es2 -> sameTree (Dir es1) (Dir es2)
with sameEntries : list (string * node) -> list (string * node) -> Prop :=
| sameNil : sameEntries [] []
| sameCons name n1 n2 es1 es2 :
    sameTree n1 n2 -> sameEntries es1 es2 ->
    sameEntries ((name, n1) :: es1) ((name, n2) :: es2).

Scheme sameTree_mut := Induction for sameTree Sort Prop
  with sameEntries_mut := Induction for sameEntries Sort Prop.

(** What [fs.Stat] finds at one path in two views of one tree. *)
Definition sameFound (r1 r2 : outcome node) : Prop :=
  match r1, r2 with
  | Ok n1, Ok n2 => sameTree n1 n2 /\ uniqueNames n1 = true
  | Error e1, Error e2 => e1 = e2
  | _, _ => False
  end.

(** The default a key receives from the ARGs before the first stage: that of
    the first declaration of the key that has one. *)
Definition firstDefault (key : string) (args : list KeyValuePairOptional)
  : option string :=
  List.find (fun a => String.eqb (argKey a) key && bool_decide (argValue a ≠ None))
            args ≫= argValue.

(** The table after an ENV instruction whose expanded pairs are [env]. *)
Definition setEnv (env : list (string * string)) (t : gmap string string)
  : gmap string string :=
  fold_left (fun t kv => <[fst kv := snd kv]> t) env t.

(** ** The specification's Tree Hasher and Composer, as worded *)

Module Spec.

(** "enumerate children, obtain each child's name and recursively computed
    digest, sort children by name, then feed, in sorted order, the pair
    (child name, child digest) into the hashing input stream". *)
Fixpoint treeDigest (a : hash.Algorithm) (n : node) : outcome bytes :=
  match n with
  | File content => Ok (hash.Sum (hash.mkHash a content))
  | Dir entries =>
      children ← (fix digests (es : list (string * node))
                    : outcome (list (string * bytes)) :=
                    match es with
                    | [] => Ok []
                    | e :: es' =>
                        d ← treeDigest a (snd e);
                        ds ← digests es';
                        Ok ((fst e, d) :: ds)
                    end) entries;
      Ok (hash.Sum
            (hash.mkHash a
               (concat (map (fun c => bytesOf (fst c) ++ snd c)%list
                            (sortOn fst children)))))
  | Denied _ err | Broken err => Error err
  end.

Fixpoint pathsStream (a : hash.Algorithm) (resolved : list (string * node))
  : outcome bytes :=
  match resolved with
  | [] => Ok []
  | (name, n) :: rest =>
      d ← treeDigest a n;
      tail ← pathsStream a rest;
      Ok (bytesOf name ++ d ++ tail)%list
  end.

(** "(1) the raw recipe text bytes; (2) for each resolved path in order,
    the path's name string then its Tree Hasher digest; (3) the effective
    build arguments by sorted key; (4) the sorted platforms; (5) the
    labels by sorted key; the result is the digest, hex-encoded". *)
Definition checksum (a : hash.Algorithm) (recipe : bytes)
    (resolved : list (string * node))
    (buildArgs : gmap string string) (platforms : list string)
    (labels : gmap string string) : outcome string :=
  paths ← pathsStream a resolved;
  Ok (Bits.hexEncode
        (hash.Sum
           (hash.mkHash a
              (recipe ++ paths ++ mapStream buildArgs ++
               sliceStream platforms ++ mapStream labels)%list))).

End Spec.

(** ** More notions used in the statements *)

Definition isEnv (cmd : Command) : bool :=
  match cmd with EnvCommand _ => true | _ => false end.

(** Expansion keeps the instruction's variant, and the stage a COPY reads
    from. *)
Definition sameKind (c1 c2 : Command) : Prop :=
  match c1, c2 with
  | ArgCommand _, ArgCommand _ | EnvCommand _, EnvCommand _
  | AddCommand _ _, AddCommand _ _ | RunCommand _, RunCommand _
  | OtherCommand _, OtherCommand _ => True
  | CopyCommand from1 _ _, CopyCommand from2 _ _ => from1 = from2
  | _, _ => False
  end.

(** A computation that leaves the state as it found it. *)
Definition readOnly {S A} (m : SE S A) : Prop := forall s, snd (m s) = s.

(** Two directory entries with one name on which both tree hashers agree. *)
Definition agree (e1 e2 : string * node) : Prop :=
  fst e1 = fst e2 /\
  forall path,
    Main.pathShaNode (snd e1) path = Main.pathShaNode (snd e2) path /\
    forall h, Checksum.pathShaNode (snd e1) path h
              = Checksum.pathShaNode (snd e2) path h.

(** The store after a successful [CalculateDockerfileChecksum]: the map
    behind [BuildArgs] holds the table [t'] left by the instruction walk and
    the array behind [Platforms] is sorted. *)
Definition storeAfter (c : Checksum.Config) (t' : gmap string string)
    (s : Store) : Store :=
  mkStore (match maps s !! Checksum.BuildArgs c with
           | Some _ => <[Checksum.BuildArgs c := t']> (maps s)
           | None => maps s
           end)
          (match slices s !! Checksum.Platforms c with
           | Some l => <[Checksum.Platforms c := sortStrings l]> (slices s)
           | None => slices s
           end).

(** ** Recipes, trees and invocations of the closed examples *)

Module Data.

Definition recipe := (list Stage * list (list KeyValuePairOptional))%type.

Definition result (r : recipe) : Result recipe := mkResult r "\"%char.

Definition lines (l : list string) : bytes :=
  bytesOf (String.concat (String (ascii_of_nat 10) "") l).

(** The recipe of the specification's example scenario. *)
Definition scenario : recipe :=
  ([mkStage ""
      [CopyCommand "" ["./a/*"] "/app";
       CopyCommand "" ["./${ARG1}"] "/app";
       RunCommand [mkMount MountTypeBind "" "./c" "/x"]]], []).

(** [testdata/Dockerfile] of the repository. *)
Definition testdata : recipe :=
  ([mkStage "builder"
      [RunCommand [mkMount MountTypeBind "" "./dist" "/app/dist";
                   mkMount MountTypeCache "" "" "/go/pkg/mod"]];
    mkStage ""
      [OtherCommand ["/app"];
       EnvCommand [("ENV1", "d")];
       RunCommand [mkMount MountTypeBind "builder" "/etc/tmp" "/app/dist"];
       CopyCommand "" ["./a/*"] "/app";
       CopyCommand "" ["./${ARG1}"] "/app";
       AddCommand ["./c"] "/app";
       CopyCommand "" ["./${ENV1}"] "/app";
       CopyCommand "builder" ["./a"] "/app"]],
   [[mkArg "ARG1" None]]).

(** [ARG X=1] inside the stage, then [COPY ./${X} /app]. *)
Definition stageArg : recipe :=
  ([mkStage ""
      [ArgCommand [mkArg "X" (Some "1")];
       CopyCommand "" ["./${X}"] "/app"]], []).

(** [ARG X=1] before the first stage, then [COPY ./${X} /app]. *)
Definition metaArg : recipe :=
  ([mkStage "" [CopyCommand "" ["./${X}"] "/app"]],
   [[mkArg "X" (Some "1")]]).

(** [ARG X=1], [FROM scratch], [ENV E=v], [COPY ./b /app]. *)
Definition argEnv : recipe :=
  ([mkStage "" [EnvCommand [("E", "v")]; CopyCommand "" ["./b"] "/app"]],
   [[mkArg "X" (Some "1")]]).
Definition argEnvText : bytes :=
  lines ["ARG X=1"; "FROM scratch"; "ENV E=v"; "COPY ./b /app"].

(** [FROM scratch], [COPY ./b /app]. *)
Definition copyFile : recipe :=
  ([mkStage "" [CopyCommand "" ["./b"] "/app"]], []).
Definition copyFileText : bytes := lines ["FROM scratch"; "COPY ./b /app"].

(** [FROM scratch], [COPY ./c /app]. *)
Definition copyDir : recipe :=
  ([mkStage "" [CopyCommand "" ["./c"] "/app"]], []).
Definition copyDirText : bytes := lines ["FROM scratch"; "COPY ./c /app"].

(** The working directory of the example scenario: [a/1], [a/2], [b],
    [c/1/1], enumerated out of order. *)
Definition workdir : node :=
  Dir [("c", Dir [("1", Dir [("1", File (bytesOf "one"))])]);
       ("b", File (bytesOf "bee"));
       ("a", Dir [("2", File (bytesOf "two")); ("1", File (bytesOf "uno"))])].

(** The same tree as the filesystem may also enumerate it. *)
Definition workdirSorted : node :=
  Dir [("a", Dir [("1", File (bytesOf "uno")); ("2", File (bytesOf "two"))]);
       ("b", File (bytesOf "bee"));
       ("c", Dir [("1", Dir [("1", File (bytesOf "one"))])])].

Definition world (text : bytes) : World :=
  mkWorld
    (fun name => if String.eqb name "Dockerfile" then Ok text
                 else Error "open: no such file or directory")
    (fun dir => if String.eqb dir "." then workdir
                else Broken "no such file or directory").

(** [--build-arg ARG1=b --label label1=value1
     --platform linux/arm64,linux/amd64]: the build arguments are the map
    object 0, the labels the map object 1, the platforms the array 2. *)
Definition store : Store :=
  mkStore {[ 0 := {["ARG1" := "b"]}; 1 := {["label1" := "value1"]} ]}
          {[ 2 := ["linux/arm64"; "linux/amd64"] ]}.

Definition config (hashName : string) : Checksum.Config :=
  Checksum.mkConfig 0 1 2 "Dockerfile" "." hashName false.

Definition flags : Main.Flags :=
  Main.mkFlags {["ARG1" := "b"]} ["linux/arm64"; "linux/amd64"]
               {["label1" := "value1"]} "Dockerfile" false.

(** A table holding the explicit build argument [A=x]. *)
Definition tableA : gmap string string := {["A" := "x"]}.

(** A directory holding one file. *)
Definition oneFileDir : node := Dir [("f", File (bytesOf "c"))].

(** Two directories [x] and [y] with the same child and content. *)
Definition twins : node := Dir [("x", oneFileDir); ("y", oneFileDir)].

(** A directory listed out of order. *)
Definition twoFiles : list (string * node) :=
  [("b", File (bytesOf "x")); ("a", File (bytesOf "y"))].

End Data.

(** ** The logging side of the library *)

Module Logging.

(** [slog.String(key, value)] *)
Record Attr := mkAttr {
  Key : string;
  Value : string;
}.

(** A call of [logger.Debug]: the message and its attributes. *)
Record Entry := mkEntry {
  message : string;
  attrs : list Attr;
}.

(** [mapToAttr]: one attribute per entry of the map, by sorted key. *)
Definition mapToAttr (m : gmap string string) : list Attr :=
  map (fun key => mkAttr key (default "" (m !! key))) (Checksum.sortedKeys m).

(** [LoggingHash]: the wrapped hash and the calls its logger has received
    from it. *)
Record LoggingHash := mkLoggingHash {
  Hash : hash.Hash;
  logger : list Entry;
}.

Definition newHashWithLog (h : hash.Hash) (l : list Entry) : LoggingHash :=
  mkLoggingHash h l.

(** The [Write] method of [LoggingHash]. *)
Definition Write (l : LoggingHash) (p : bytes) : LoggingHash :=
  let checksum := Md5.Sum p in
  mkLoggingHash
    (hash.Write (Hash l) p)
    (logger l ++ [mkEntry "add to hash" [mkAttr "md5" (Bits.hexEncode checksum)]])%list.

(** [Sum] is the wrapped hash's, promoted through the embedding. *)
Definition Sum (l : LoggingHash) : bytes := hash.Sum (Hash l).

End Logging.

(** ** main.go, third revision: the hash flag, the library's functions inlined *)

Module Inline.

Record Flags := mkFlags {
  buildArg : gmap string string;
  platform : list string;
  label : gmap string string;
  hash : string;
  file : string;
  debug : bool;
}.

(** [addMapToHash], [addSliceToHash], [pathSha], [dirSha], [fileSha] and
    [pathsFromDockerfile] have the text of the library's functions, and
    the loop over the extracted paths that of the library's loop. *)
Definition addMapToHash := Checksum.addMapToHash.
Definition addSliceToHash := Checksum.addSliceToHash.

Section collaborators.
Context `{Collaborators}.

Definition pathsFromDockerfile := Checksum.PathsFromDockerfile.

(** [handlerRoot]: the outcome and what was written to the command's
    output stream.  The maps and the slice viper hands out are the
    command's own. *)
Definition handlerRoot (w : World) (flags : Flags) (args : list string)
  : outcome unit * string :=
  let run : outcome string :=
    let buildArgs := buildArg flags in
    content ← must (ReadFile w (file flags));
    res ← must (parserParse content);
    arg0 ← match args with
           | a :: _ => Ok a
           | [] => Panic "index out of range [0] with length 0"
           end;
    let workdir := DirFS w arg0 in
    h ← Checksum.newHash (hash flags);
    let h := if debug flags then Checksum.newHashWithLog h else h in
    let h := hash.Write h content in
    let '(paths, buildArgs) := pathsFromDockerfile res buildArgs in
    paths ← paths;
    h ← Checksum.addPaths workdir paths h;
    let h := addMapToHash h buildArgs in
    let '(h, _) := addSliceToHash h (platform flags) in
    h ← h;
    let h := addMapToHash h (label flags) in
    Ok (Bits.hexEncode (hash.Sum h)) in
  match run with
  | Ok out => (Ok tt, out)
  | Error err => (Error err, "")
  | Panic msg => (Panic msg, "")
  end.
End collaborators.
End Inline.

(** ** Notions used in the further statements *)

(** [h.Size()]: the length of a digest. *)
Definition Size (a : hash.Algorithm) : nat :=
  match a with
  | hash.SHA1 => 20
  | hash.MD5 => 16
  | hash.SHA256 => 32
  end.

Definition isLowerHex (c : ascii) : bool :=
  existsb (Ascii.eqb c) (list_ascii_of_string "0123456789abcdef").

(** The instructions the walk has no case for, and a COPY from a stage or an
    image. *)
Definition inert (cmd : Command) : bool :=
  match cmd with
  | ArgCommand _ | OtherCommand _ => true
  | CopyCommand from _ _ => negb (String.eqb from "")
  | _ => false
  end.

(** A stage without these instructions. *)
Definition active (stage : Stage) : Stage :=
  mkStage (stageName stage)
          (List.filter (fun cmd => negb (inert cmd)) (Commands stage)).

Definition noEnv (stages : list Stage) : bool :=
  forallb (fun stage => forallb (fun cmd => negb (isEnv cmd)) (Commands stage))
          stages.

(** Two results that are both normal, or the same error, or the same panic. *)
Definition failAlike {A B} (r1 : outcome A) (r2 : outcome B) : Prop :=
  match r1, r2 with
  | Ok _, Ok _ => True
  | Error e1, Error e2 => e1 = e2
  | Panic p1, Panic p2 => p1 = p2
  | _, _ => False
  end.

(** The table [t'] holds every name [t] holds. *)
Definition grows (t t' : gmap string string) : Prop :=
  forall key, is_Some (t !! key) -> is_Some (t' !! key).

(** What the loops of the first revision's [handlerRoot] write: for every
    match its path, then the digest [pathSha] returns for it. *)
Fixpoint filesDigests (workdir : node) (files : list string) : outcome bytes :=
  match files with
  | [] => Ok []
  | file :: files' =>
      d ← must (Main.pathSha workdir file);
      tail ← filesDigests workdir files';
      Ok (bytesOf file ++ d ++ tail)%list
  end.

Fixpoint pathsDigests `{Collaborators} (workdir : node) (paths : list string)
  : outcome bytes :=
  match paths with
  | [] => Ok []
  | path :: paths' =>
      files ← must (Glob workdir (globPattern path));
      s ← filesDigests workdir files;
      tail ← pathsDigests workdir paths';
      Ok (s ++ tail)%list
  end.

(** The instructions of a recipe, stage after stage. *)
Definition instructionsOf (stages : list Stage) : list Command :=
  concat (map Commands stages).

(** The patterns an instruction adds when it is walked with the table [t]. *)
Definition contribution `{Collaborators} (res : Result Node)
    (t : gmap string string) (cmd : Command) : list string :=
  match fst (Checksum.walkCommand res [] cmd t) with
  | Ok paths => paths
  | _ => []
  end.

(** ** More recipes and invocations of the closed examples *)

Module Cases.

(** [FROM scratch], [COPY ./${E} /app], [ENV E=b]. *)
Definition envLate : Data.recipe :=
  ([mkStage "" [CopyCommand "" ["./${E}"] "/app"; EnvCommand [("E", "b")]]],
   []).
Definition envLateText : bytes :=
  Data.lines ["FROM scratch"; "COPY ./${E} /app"; "ENV E=b"].

(** [ARG X=1], [FROM scratch], [ENV E=v], then a COPY whose source does
    not close its brace. *)
Definition badWord : Data.recipe :=
  ([mkStage "" [EnvCommand [("E", "v")]; CopyCommand "" ["./${"] "/app"]],
   [[mkArg "X" (Some "1")]]).
Definition badWordText : bytes :=
  Data.lines ["ARG X=1"; "FROM scratch"; "ENV E=v"; "COPY ./${ /app"].

(** The text of the recipe [Data.metaArg]. *)
Definition metaArgText : bytes :=
  Data.lines ["ARG X=1"; "FROM scratch"; "COPY ./${X} /app"].

(** A directory whose second child in name order cannot be read. *)
Definition unreadable : list (string * node) :=
  [("b", Denied false "permission denied"); ("a", File (bytesOf "y"));
   ("c", File (bytesOf "z"))].

(** A view holding the file [b] of the example working directory beside
    another tree. *)
Definition other : node :=
  Dir [("b", File (bytesOf "bee")); ("z", Data.twins)].

(** The example recipe of the specification with its instructions in
    another order and in two stages. *)
Definition shuffled : Data.recipe :=
  ([mkStage "" [RunCommand [mkMount MountTypeBind "" "./c" "/x"]];
    mkStage ""
      [CopyCommand "" ["./${ARG1}"] "/app";
       CopyCommand "" ["./a/*"] "/app"]], []).

(** [FROM scratch AS builder], [ENV E=b], [FROM scratch],
    [COPY ./${E} /app]; and the same instructions in one stage. *)
Definition twoStages : Data.recipe :=
  ([mkStage "builder" [EnvCommand [("E", "b")]];
    mkStage "" [CopyCommand "" ["./${E}"] "/app"]], []).
Definition oneStage : Data.recipe :=
  ([mkStage "" [EnvCommand [("E", "b")];
                CopyCommand "" ["./${E}"] "/app"]], []).

Definition flags (hashName : string) : Inline.Flags :=
  Inline.mkFlags {["ARG1" := "b"]} ["linux/arm64"; "linux/amd64"]
                 {["label1" := "value1"]} hashName "Dockerfile" false.

(** The store of the examples after a call on the recipe [Data.metaArg]. *)
Definition storeMetaArg : Store :=
  mkStore {[ 0 := {["ARG1" := "b"; "X" := "1"]};
             1 := {["label1" := "value1"]} ]}
          {[ 2 := ["linux/amd64"; "linux/arm64"] ]}.

End Cases.

(** * Facts about the model *)

Local Open Scope list_scope.

(** ** The hash functions on their published test vectors *)

Example sha1_abc :
  Bits.hexEncode (Sha1.Sum (bytesOf "abc"))
  = "a9993e364706816aba3e25717850c26c9cd0d89d".
Proof. vm_compute. reflexivity. Qed.

Example sha1_empty :
  Bits.hexEncode (Sha1.Sum []) = "da39a3ee5e6b4b0d3255bfef95601890afd80709".
Proof. vm_compute. reflexivity. Qed.

Example md5_abc :
  Bits.hexEncode (Md5.Sum (bytesOf "abc")) = "900150983cd24fb0d6963f7d28e17f72".
Proof. vm_compute. reflexivity. Qed.

Example md5_empty :
  Bits.hexEncode (Md5.Sum []) = "d41d8cd98f00b204e9800998ecf8427e".
Proof. vm_compute. reflexivity. Qed.

Example sha256_abc :
  Bits.hexEncode (Sha256.Sum (bytesOf "abc"))
  = "ba7816bf8f01cfea414140de5dae2223b00361a396177a9cb410ff61f20015ad".
Proof. vm_compute. reflexivity. Qed.

(** Two blocks: 70 bytes of [a]. *)
Example sha256_two_blocks :
  Bits.hexEncode (Sha256.Sum (repeat "a"%byte 70))
  = "6bd5e5034855a11241f0dee8fc72850ffd9955b28347a86428b5fa19119f6ad0".
Proof. vm_compute. reflexivity. Qed.

(** ** The order of [sort.Strings] *)

Section order.

Lemma ascii_compare_lt_trans (a b c : ascii) :
Ascii.compare a b = Lt -> Ascii.compare b c = Lt -> Ascii.compare a c = Lt.
Proof.
unfold Ascii.compare. rewrite !N.compare_lt_iff. lia.
Qed.

Lemma ascii_compare_refl (a : ascii) : Ascii.compare a a = Eq.
Proof. unfold Ascii.compare. apply N.compare_refl. Qed.

Lemma string_compare_lt_trans (s1 s2 s3 : string) :
String.compare s1 s2 = Lt -> String.compare s2 s3 = Lt ->
String.compare s1 s3 = Lt.
Proof.
revert s2 s3. induction s1 as [|a s1 IH]; intros [|b s2] [|c s3]; simpl; try done.
destruct (Ascii.compare a b) eqn:Hab; try done.
- apply Ascii.compare_eq_iff in Hab as ->.
  destruct (Ascii.compare b c); try done. apply IH.
- intros _. destruct (Ascii.compare b c) eqn:Hbc; try done.
  + apply Ascii.compare_eq_iff in Hbc as <-. by rewrite Hab.
  + by rewrite (ascii_compare_lt_trans _ _ _ Hab Hbc).
Qed.

Global Instance strle_dec : RelDecision strle.
Proof. intros s1 s2. unfold strle. apply _. Defined.

Global Instance strle_trans : Transitive strle.
Proof.
intros s1 s2 s3. unfold strle, String.leb.
destruct (String.compare s1 s2) eqn:H12; try done; intros _.
- by apply String.compare_eq_iff in H12 as ->.
- destruct (String.compare s2 s3) eqn:H23; try done; intros _.
  + apply String.compare_eq_iff in H23 as <-. by rewrite H12.
  + by rewrite (string_compare_lt_trans _ _ _ H12 H23).
Qed.

Global Instance strle_total : Total strle.
Proof. intros s1 s2. apply String.leb_total. Qed.

Global Instance strle_antisym : AntiSymm (=) strle.
Proof. intros s1 s2. apply String.leb_antisym. Qed.

Lemma strle_refl s : strle s s.
Proof. destruct (strle_total s s); done. Qed.

End order.

Section sortOn_facts.
Context {A : Type} (key : A -> string).

Lemma insertOn_perm x l : insertOn key x l ≡ₚ x :: l.
Proof.
  induction l as [|y l IH]; simpl; [done|].
  destruct (String.leb (key x) (key y)); [done|].
  rewrite IH. apply Permutation_swap.
Qed.

Lemma sortOn_perm l : sortOn key l ≡ₚ l.
Proof.
  induction l as [|x l IH]; simpl; [done|].
  rewrite insertOn_perm. by f_equiv.
Qed.

Lemma insertOn_sorted x l :
  StronglySorted (keyle key) l -> StronglySorted (keyle key) (insertOn key x l).
Proof.
  induction 1 as [|y l Hl IH Hy]; simpl.
  - repeat constructor.
  - destruct (String.leb (key x) (key y)) eqn:Hxy.
    + constructor; [by constructor|].
      constructor; [done|].
      eapply Forall_impl; [exact Hy|]. intros z Hz.
      unfold keyle in *. by etrans.
    + constructor; [done|].
      rewrite insertOn_perm. constructor; [|done].
      destruct (strle_total (key x) (key y)) as [H|H]; [|done].
      unfold strle in H. congruence.
Qed.

Lemma sortOn_sorted l : StronglySorted (keyle key) (sortOn key l).
Proof.
  induction l as [|x l IH]; simpl; [constructor|]. by apply insertOn_sorted.
Qed.

Lemma sortOn_unique l1 l2 :
  NoDup (map key l1) -> l1 ≡ₚ l2 -> sortOn key l1 = sortOn key l2.
Proof.
  intros Hnd Hp.
  apply (StronglySorted_unique_strong (keyle key)); try apply sortOn_sorted.
  - intros x1 x2 Hx1 Hx2 H12 H21.
    rewrite sortOn_perm in Hx1, Hx2. rewrite <- Hp in Hx2.
    assert (key x1 = key x2) as Hk by (by apply (anti_symm strle)).
    clear H12 H21 Hp.
    induction l1 as [|y l1 IH]; [by apply elem_of_nil in Hx1|].
    simpl in Hnd. apply NoDup_cons in Hnd as [Hy Hnd].
    apply elem_of_cons in Hx1 as [->|Hx1], Hx2 as [->|Hx2]; try done.
    + exfalso. apply Hy. rewrite Hk. by apply list_elem_of_fmap_2.
    + exfalso. apply Hy. rewrite <- Hk. by apply list_elem_of_fmap_2.
    + by apply IH.
  - by rewrite !sortOn_perm.
Qed.
End sortOn_facts.

Lemma sortOn_map {A B} (key : A -> string) (key' : B -> string) (g : A -> B) l :
  (forall x, key' (g x) = key x) ->
  sortOn key' (map g l) = map g (sortOn key l).
Proof.
  intros Hk. induction l as [|x l IH]; simpl; [done|].
  rewrite IH. clear IH. generalize (sortOn key l) as m.
  induction m as [|y m IH]; simpl; [done|].
  rewrite !Hk. destruct (String.leb (key x) (key y)); simpl; [done|].
  by rewrite IH.
Qed.

Lemma sortOn_Forall2 {A B} (key : A -> string) (key' : B -> string)
    (R : A -> B -> Prop) l1 l2 :
  (forall x y, R x y -> key x = key' y) ->
  Forall2 R l1 l2 -> Forall2 R (sortOn key l1) (sortOn key' l2).
Proof.
  intros Hk. induction 1 as [|x y l1 l2 Hxy Hl IH]; simpl; [constructor|].
  revert IH. generalize (sortOn key l1) (sortOn key' l2).
  induction 1 as [|x' y' m1 m2 Hxy' Hm IH]; simpl.
  - by repeat constructor.
  - rewrite (Hk _ _ Hxy), (Hk _ _ Hxy').
    destruct (String.leb (key' y) (key' y')); by repeat constructor.
Qed.

Lemma sortStrings_perm l1 l2 : l1 ≡ₚ l2 -> sortStrings l1 = sortStrings l2.
Proof.
  intros Hp. unfold sortStrings.
  apply (StronglySorted_unique (keyle id)); try apply sortOn_sorted.
  by rewrite !sortOn_perm.
Qed.

(** * Trees *)

Lemma node_nested_ind (P : node -> Prop) :
  (forall content, P (File content)) ->
  (forall entries, Forall (fun e => P (snd e)) entries -> P (Dir entries)) ->
  (forall isDir err, P (Denied isDir err)) ->
  (forall err, P (Broken err)) ->
  forall n, P n.
Proof.
  intros HF HD HDe HB.
  fix IH 1. intros [content|entries|isDir err|err]; [apply HF| |apply HDe|apply HB].
  apply HD. induction entries as [|[name child] entries IHes]; constructor.
  - apply IH.
  - apply IHes.
Qed.

Lemma ReadDir_perm {A} (entries : list (string * A)) : ReadDir entries ≡ₚ entries.
Proof. apply sortOn_perm. Qed.

Lemma ReadDir_sorted {A} (entries : list (string * A)) :
  StronglySorted (keyle fst) (ReadDir entries).
Proof. apply sortOn_sorted. Qed.

Lemma ReadDir_map {A B} (g : A -> B) (entries : list (string * A)) :
  ReadDir (map (fun e => (fst e, g (snd e))) entries)
  = map (fun e => (fst e, g (snd e))) (ReadDir entries).
Proof. unfold ReadDir. by apply sortOn_map. Qed.

Lemma Write_Write h a b : hash.Write (hash.Write h a) b = hash.Write h (a ++ b).
Proof. unfold hash.Write. simpl. by rewrite <- app_assoc. Qed.

Lemma Write_nil h : hash.Write h [] = h.
Proof. destruct h. unfold hash.Write. simpl. by rewrite app_nil_r. Qed.

Lemma WriteString_Write h s : WriteString h s = hash.Write h (bytesOf s).
Proof. done. Qed.

(** The library's tree hasher appends to the accumulator a stream that
    depends on the node and the path alone, or fails whatever the
    accumulator holds. *)
Lemma pathShaNode_appends n :
  forall path,
    (exists s, forall h, Checksum.pathShaNode n path h = Ok (hash.Write h s)) \/
    (exists err, forall h, Checksum.pathShaNode n path h = Error err).
Proof.
  induction n as [content|entries IH|isDir err|err] using node_nested_ind;
    intros path.
  - left. by exists content.
  - simpl. unfold Checksum.dirSha. rewrite ReadDir_map.
    assert (Forall (fun e => forall path,
      (exists s, forall h, Checksum.pathShaNode (snd e) path h = Ok (hash.Write h s)) \/
      (exists err, forall h, Checksum.pathShaNode (snd e) path h = Error err))
      (ReadDir entries)) as IH'.
    { by rewrite ReadDir_perm. }
    clear IH. induction IH' as [|[name child] l Hc _ IHl]; simpl.
    + left. exists []. intros h. by rewrite Write_nil.
    + destruct (Hc (Join path name)) as [[s Hs]|[e He]].
      * destruct IHl as [[s' Hs']|[e' He']].
        -- left. exists (bytesOf (Join path name) ++ s ++ s')%list. intros h.
           rewrite Hs, Hs', WriteString_Write, !Write_Write. done.
        -- right. exists e'. intros h. by rewrite Hs, He'.
      * right. eexists. intros h. by rewrite He.
  - destruct isDir; right; eexists; intros h; simpl; done.
  - right. by exists err.
Qed.

Lemma pathShaNode_treeStream n path h :
  Checksum.pathShaNode n path h = hash.Write h <$> treeStream n path.
Proof.
  unfold treeStream.
  destruct (pathShaNode_appends n path) as [[s Hs]|[e He]].
  - rewrite !Hs. simpl. done.
  - by rewrite !He.
Qed.

Lemma treeStream_File content path : treeStream (File content) path = Ok content.
Proof. done. Qed.

Lemma dirShaLoop_streams path (l : list (string * node)) streams h :
  Forall2 (fun e s => treeStream (snd e) (Join path (fst e)) = Ok s) l streams ->
  Checksum.dirShaLoop path
    (map (fun e => (fst e, Checksum.pathShaNode (snd e))) l) h
  = Ok (hash.Write h
          (concat (zip_with (fun e s => bytesOf (Join path (fst e)) ++ s)%list
                            l streams))).
Proof.
  intros Hl. revert h. induction Hl as [|[name child] s l streams Hs _ IH];
    intros h; simpl.
  - by rewrite Write_nil.
  - rewrite pathShaNode_treeStream. simpl in Hs. rewrite Hs. simpl.
    rewrite IH, WriteString_Write, !Write_Write. by rewrite <- app_assoc.
Qed.

Lemma Main_dirShaLoop_digests path (l : list (string * node)) digests h :
  Forall2 (fun e d => Main.pathShaNode (snd e) (Join path (fst e)) = Ok d) l digests ->
  Main.dirShaLoop path (map (fun e => (fst e, Main.pathShaNode (snd e))) l) h
  = Ok (hash.Sum
          (hash.Write h
             (concat (zip_with (fun e d => bytesOf (Join path (fst e)) ++ d)%list
                               l digests)))).
Proof.
  intros Hl. revert h. induction Hl as [|[name child] d l digests Hd _ IH];
    intros h; simpl.
  - by rewrite Write_nil.
  - simpl in Hd. rewrite Hd, IH, WriteString_Write, !Write_Write.
    by rewrite <- app_assoc.
Qed.

(** * Paths *)

Lemma splitSlash_nonempty s : splitSlash s <> [].
Proof.
  destruct s as [|c s]; simpl; [done|].
  destruct (Ascii.eqb c "/"); [done|]. by destruct (splitSlash s).
Qed.

Lemma concat_cons_cons sep x y l :
  String.concat sep (x :: y :: l) = (x ++ sep ++ String.concat sep (y :: l))%string.
Proof. done. Qed.

Lemma concat_String sep c x l :
  String.concat sep (String c x :: l) = String c (String.concat sep (x :: l)).
Proof. by destruct l. Qed.

Lemma concat_splitSlash s : String.concat "/" (splitSlash s) = s.
Proof.
  induction s as [|c s IH]; [done|]. simpl.
  destruct (splitSlash s) as [|x xs] eqn:Hs; [by apply splitSlash_nonempty in Hs|].
  destruct (Ascii.eqb_spec c "/") as [->|Hc].
  - by rewrite concat_cons_cons, IH.
  - by rewrite concat_String, IH.
Qed.

Lemma append_String c s1 s2 : (String c s1 ++ s2)%string = String c (s1 ++ s2).
Proof. done. Qed.

Lemma append_Empty s : ("" ++ s)%string = s.
Proof. done. Qed.

Lemma splitSlash_app name p :
  splitSlash name = [name] ->
  splitSlash (p ++ "/" ++ name)%string = splitSlash p ++ [name].
Proof.
  intros Hname. induction p as [|c p IH].
  - rewrite append_Empty, append_String, append_Empty. simpl. by rewrite Hname.
  - rewrite append_String. simpl. rewrite IH.
    destruct (Ascii.eqb c "/"); [done|].
    destruct (splitSlash p) as [|x xs] eqn:Hp; [by apply splitSlash_nonempty in Hp|].
    done.
Qed.

Lemma proper_inv e :
  proper e = true ->
  String.eqb e "" = false /\ String.eqb e "." = false /\ String.eqb e ".." = false.
Proof.
  unfold proper. intros He. apply negb_true_iff in He.
  apply orb_false_elim in He as [He1 He3].
  apply orb_false_elim in He1 as [He1 He2]. done.
Qed.

Lemma cleanElems_proper rooted out es :
  forallb proper es = true -> cleanElems rooted out es = rev out ++ es.
Proof.
  revert out. induction es as [|e es IH]; intros out Hes; simpl.
  - by rewrite app_nil_r.
  - simpl in Hes. apply andb_prop in Hes as [He Hes].
    unfold proper in He. apply negb_true_iff in He.
    apply orb_false_elim in He as [He1 He3].
    apply orb_false_elim in He1 as [He1 He2].
    rewrite He1, He2, He3. simpl. rewrite IH by done. simpl.
    by rewrite <- app_assoc.
Qed.

Lemma ValidPath_proper p :
  ValidPath p = true -> p <> "." -> forallb proper (splitSlash p) = true.
Proof.
  unfold ValidPath. intros Hv Hp. apply orb_prop in Hv as [Hv|Hv]; [|done].
  by apply String.eqb_eq in Hv.
Qed.

Lemma proper_not_rooted p :
  forallb proper (splitSlash p) = true -> isRooted p = false /\ p <> "".
Proof.
  destruct p as [|c p]; [done|]. simpl.
  destruct (Ascii.eqb c "/"); [done|]. done.
Qed.

Lemma Clean_proper p : forallb proper (splitSlash p) = true -> Clean p = p.
Proof.
  intros Hp. destruct (proper_not_rooted p Hp) as [Hr Hne].
  unfold Clean. rewrite Hr, cleanElems_proper by done. simpl.
  rewrite concat_splitSlash. apply String.eqb_neq in Hne. by rewrite Hne.
Qed.

Lemma validName_split name :
  validName name = true -> splitSlash name = [name] /\ proper name = true.
Proof.
  unfold validName. intros Hv.
  pose proof (concat_splitSlash name) as Hc.
  destruct (splitSlash name) as [|e [|e' es]]; try done.
  simpl in Hc. by subst e.
Qed.

(** [filepath.Join] on a valid path and a valid name. *)
Lemma Join_valid p name :
  ValidPath p = true -> validName name = true ->
  Join p name = (if String.eqb p "." then name else p ++ "/" ++ name)%string /\
  ValidPath (Join p name) = true /\ Join p name <> "." /\
  splitSlash (Join p name)
  = (if String.eqb p "." then [] else splitSlash p) ++ [name].
Proof.
  intros Hp Hname. destruct (validName_split name Hname) as [Hsplit Hproper].
  assert (name <> ".") as Hnd.
  { intros ->. done. }
  unfold Join.
  assert (String.eqb p "" = false) as ->.
  { apply String.eqb_neq. intros ->. done. }
  simpl. destruct (String.eqb_spec p ".") as [->|Hne].
  - assert (Clean ("." ++ "/" ++ name)%string = name) as ->.
    { unfold Clean. rewrite splitSlash_app by done.
      change (isRooted ("." ++ "/" ++ name)%string) with false.
      change (splitSlash ".") with ["."]. cbn [app cleanElems].
      destruct (proper_inv name Hproper) as (He1 & He2 & He3).
      change (String.eqb "." "" || String.eqb "." ".") with true. cbv iota.
      rewrite He1, He2, He3. cbn [orb rev app String.concat].
      by rewrite He1. }
    rewrite Hsplit. repeat split; try done.
    unfold ValidPath. rewrite Hsplit. simpl. fold (proper name).
    rewrite Hproper. by rewrite orb_true_r.
  - assert (forallb proper (splitSlash (p ++ "/" ++ name)%string) = true) as Hall.
    { rewrite splitSlash_app by done. rewrite forallb_app.
      rewrite (ValidPath_proper p Hp Hne). simpl. by rewrite Hproper. }
    rewrite (Clean_proper _ Hall). rewrite splitSlash_app by done.
    repeat split; try done.
    + unfold ValidPath. fold proper. rewrite Hall. by rewrite orb_true_r.
    + intros Heq. rewrite Heq in Hall.
      pose proof (splitSlash_app name p Hsplit) as Hs. rewrite Heq in Hs.
      simpl in Hs. destruct (splitSlash p) as [|x xs] eqn:Hx;
        [by apply splitSlash_nonempty in Hx|]. by destruct xs.
Qed.

Lemma walkPath_app n es1 es2 :
  walkPath n (es1 ++ es2) = walkPath n es1 ≫= fun m => walkPath m es2.
Proof.
  revert n. induction es1 as [|e es1 IH]; intros n; [done|]. simpl.
  destruct n as [content|entries|[] err|err]; try done.
  destruct (findEntry e entries); [apply IH|done].
Qed.

Lemma findEntry_cons name e entries :
  findEntry name (e :: entries) =
  if String.eqb (fst e) name then Some (snd e) else findEntry name entries.
Proof. unfold findEntry. simpl. by destruct (String.eqb (fst e) name). Qed.

Lemma findEntry_In name child (entries : list (string * node)) :
  NoDup (map fst entries) -> (name, child) ∈ entries ->
  findEntry name entries = Some child.
Proof.
  induction entries as [|[name' child'] entries IH]; intros Hnd Hin.
  - by apply elem_of_nil in Hin.
  - simpl in Hnd. apply NoDup_cons in Hnd as [Hnot Hnd].
    rewrite findEntry_cons. simpl.
    apply elem_of_cons in Hin as [[= -> ->]|Hin].
    + by rewrite String.eqb_refl.
    + destruct (String.eqb_spec name' name) as [->|Hne]; [|by apply IH].
      exfalso. apply Hnot. by apply (list_elem_of_fmap_2 fst _ (name, child)).
Qed.

Lemma findEntry_elem name (entries : list (string * node)) child :
  findEntry name entries = Some child -> (name, child) ∈ entries.
Proof.
  induction entries as [|[name' child'] entries IH]; [done|].
  rewrite findEntry_cons. simpl.
  destruct (String.eqb_spec name' name) as [->|Hne].
  - intros [= ->]. by left.
  - intros Hfind. right. by apply IH.
Qed.

Lemma wellFormed_Dir entries :
  wellFormed (Dir entries) = true ->
  NoDup (map fst entries) /\
  forall name child, (name, child) ∈ entries ->
                     validName name = true /\ wellFormed child = true.
Proof.
  simpl. intros Hwf. apply andb_prop in Hwf as [Hnd Hall].
  apply bool_decide_eq_true in Hnd. split; [done|].
  intros name child Hin. rewrite forallb_forall in Hall.
  apply list_elem_of_In, Hall in Hin. by apply andb_prop in Hin.
Qed.

Lemma height_child name child (entries : list (string * node)) :
  (name, child) ∈ entries -> height child < height (Dir entries).
Proof.
  simpl. induction entries as [|e entries IH]; intros Hin.
  - by apply elem_of_nil in Hin.
  - simpl. apply elem_of_cons in Hin as [<-|Hin]; simpl; [lia|].
    specialize (IH Hin). lia.
Qed.

Lemma walkPath_wellFormed es :
  forall n m, wellFormed n = true -> walkPath n es = Ok m -> wellFormed m = true.
Proof.
  induction es as [|e es IH]; intros n m Hwf; simpl.
  - by intros [= <-].
  - destruct n as [content|entries|[] err|err]; try done.
    destruct (findEntry e entries) as [child|] eqn:Hfind; [|done].
    apply IH. unfold findEntry in Hfind.
    destruct (List.find _ entries) as [[name' child']|] eqn:Hf; [|done].
    injection Hfind as <-. apply find_some in Hf as [Hin _].
    apply list_elem_of_In in Hin.
    destruct (wellFormed_Dir entries Hwf) as [_ Hall].
    by destruct (Hall name' child' Hin).
Qed.

Lemma Stat_inv fsys path n :
  Stat fsys path = Ok n ->
  ValidPath path = true /\
  (if String.eqb path "." then fsys = n else walkPath fsys (splitSlash path) = Ok n) /\
  found n = Ok n.
Proof.
  unfold Stat. destruct (ValidPath path); [|done]. simpl.
  destruct (String.eqb path ".").
  - destruct fsys; intros [= <-]; done.
  - destruct (walkPath fsys (splitSlash path)) as [[]| |]; intros [= <-]; done.
Qed.

Lemma Stat_wellFormed fsys path n :
  wellFormed fsys = true -> Stat fsys path = Ok n -> wellFormed n = true.
Proof.
  intros Hwf Hstat. destruct (Stat_inv _ _ _ Hstat) as (_ & Hwalk & _).
  destruct (String.eqb path "."); [by subst|].
  by eapply walkPath_wellFormed.
Qed.

(** [fs.Stat] at the path of a child listed by [fs.ReadDir]. *)
Lemma Stat_child fsys path entries name child :
  wellFormed fsys = true ->
  Stat fsys path = Ok (Dir entries) ->
  (name, child) ∈ entries ->
  Stat fsys (Join path name) = found child.
Proof.
  intros Hwf Hstat Hin.
  pose proof (Stat_wellFormed _ _ _ Hwf Hstat) as Hwfd.
  destruct (wellFormed_Dir entries Hwfd) as [Hnd Hall].
  destruct (Hall name child Hin) as [Hname _].
  destruct (Stat_inv _ _ _ Hstat) as (Hvalid & Hwalk & _).
  destruct (Join_valid path name Hvalid Hname) as (_ & Hv & Hnd' & Hsplit).
  unfold Stat. rewrite Hv. simpl.
  apply String.eqb_neq in Hnd'. rewrite Hnd', Hsplit.
  assert (walkPath (Dir entries) [name] = Ok child) as Hstep.
  { simpl. by rewrite (findEntry_In name child entries Hnd Hin). }
  destruct (String.eqb path ".").
  - subst fsys. simpl app. rewrite Hstep. by destruct child.
  - rewrite walkPath_app, Hwalk. simpl. simpl in Hstep. rewrite Hstep.
    by destruct child.
Qed.

(** The library's [pathSha] as written, looking every path up from the
    root, computes what the recursion on the tree computes. *)
Lemma ByPath_pathSha_node fsys :
  wellFormed fsys = true ->
  forall n fuel path h,
    height n < fuel -> Stat fsys path = found n ->
    ByPath.pathSha fuel fsys path h = Checksum.pathShaNode n path h.
Proof.
  intros Hwf n.
  induction n as [content|entries IH|isDir err|err] using node_nested_ind;
    intros fuel path h Hfuel Hstat; (destruct fuel as [|fuel]; [lia|]);
    simpl in Hstat; simpl; rewrite Hstat; simpl.
  - unfold ByPath.fileSha, ReadAt. by rewrite Hstat.
  - unfold ByPath.dirSha, ReadDirAt, Checksum.dirSha. rewrite Hstat.
    rewrite ReadDir_map.
    assert (Forall (fun e => e ∈ entries) (ReadDir entries)) as Hsub.
    { apply Forall_forall. intros e He. by rewrite ReadDir_perm in He. }
    revert h. induction Hsub as [|[name child] l Hin _ IHl]; intros h; [done|].
    simpl.
    rewrite Forall_forall in IH.
    rewrite (IH (name, child) Hin fuel (Join path name)).
    + cbn [fst snd].
      destruct (Checksum.pathShaNode child _ _); [apply IHl|done|done].
    + pose proof (height_child name child entries Hin). simpl in *. lia.
    + by eapply Stat_child.
  - destruct isDir; simpl.
    + unfold ByPath.dirSha, ReadDirAt. by rewrite Hstat.
    + unfold ByPath.fileSha, ReadAt. by rewrite Hstat.
  - done.
Qed.

Lemma ByPath_pathShaMain_node fsys :
  wellFormed fsys = true ->
  forall n fuel path,
    height n < fuel -> Stat fsys path = found n ->
    ByPath.pathShaMain fuel fsys path = Main.pathShaNode n path.
Proof.
  intros Hwf n.
  induction n as [content|entries IH|isDir err|err] using node_nested_ind;
    intros fuel path Hfuel Hstat; (destruct fuel as [|fuel]; [lia|]);
    simpl in Hstat; simpl; rewrite Hstat; simpl.
  - unfold ByPath.fileShaMain, ReadAt. by rewrite Hstat.
  - unfold ByPath.dirShaMain, ReadDirAt, Main.dirSha. rewrite Hstat.
    rewrite ReadDir_map.
    assert (Forall (fun e => e ∈ entries) (ReadDir entries)) as Hsub.
    { apply Forall_forall. intros e He. by rewrite ReadDir_perm in He. }
    generalize (hash.New hash.SHA1) as h.
    induction Hsub as [|[name child] l Hin _ IHl]; intros h; [done|].
    simpl.
    rewrite Forall_forall in IH.
    rewrite (IH (name, child) Hin fuel (Join path name)).
    + cbn [fst snd].
      destruct (Main.pathShaNode child _); [apply IHl|done|done].
    + pose proof (height_child name child entries Hin). simpl in *. lia.
    + by eapply Stat_child.
  - destruct isDir; simpl.
    + unfold ByPath.dirShaMain, ReadDirAt. by rewrite Hstat.
    + unfold ByPath.fileShaMain, ReadAt. by rewrite Hstat.
  - done.
Qed.

Lemma walkPath_height es :
  forall n m, walkPath n es = Ok m -> height m <= height n.
Proof.
  induction es as [|e es IH]; intros n m; simpl.
  - by intros [= <-].
  - destruct n as [content|entries|[] err|err]; try done.
    destruct (findEntry e entries) as [child|] eqn:Hfind; [|done].
    intros Hwalk. apply IH in Hwalk.
    apply findEntry_elem in Hfind.
    pose proof (height_child e child entries Hfind). lia.
Qed.

Lemma Stat_height fsys path n : Stat fsys path = Ok n -> height n <= height fsys.
Proof.
  intros Hstat. destruct (Stat_inv _ _ _ Hstat) as (_ & Hwalk & _).
  destruct (String.eqb path "."); [by subst|]. by eapply walkPath_height.
Qed.

(** With fuel above the height of the tree, the tree hashers as written
    return what the recursions on the tree return, at every path. *)
Lemma ByPath_pathSha fsys fuel path h :
  wellFormed fsys = true -> height fsys < fuel ->
  ByPath.pathSha fuel fsys path h = Checksum.pathSha fsys path h /\
  ByPath.pathShaMain fuel fsys path = Main.pathSha fsys path.
Proof.
  intros Hwf Hfuel. unfold Checksum.pathSha, Main.pathSha.
  destruct (Stat fsys path) as [n|e|p] eqn:Hstat.
  - destruct (Stat_inv _ _ _ Hstat) as (_ & _ & Hfound).
    pose proof (Stat_height _ _ _ Hstat) as Hh.
    rewrite <- Hfound in Hstat. split.
    + apply ByPath_pathSha_node; [done|lia|done].
    + apply ByPath_pathShaMain_node; [done|lia|done].
  - destruct fuel as [|fuel]; [lia|]. simpl. by rewrite Hstat.
  - destruct fuel as [|fuel]; [lia|]. simpl. by rewrite Hstat.
Qed.

(** * Listing order *)

Lemma dirShaLoop_agree path l1 l2 :
  Forall2 agree l1 l2 ->
  (forall h, Main.dirShaLoop path
          (map (fun e => (fst e, Main.pathShaNode (snd e))) l1) h
        = Main.dirShaLoop path
          (map (fun e => (fst e, Main.pathShaNode (snd e))) l2) h) /\
  (forall h, Checksum.dirShaLoop path
          (map (fun e => (fst e, Checksum.pathShaNode (snd e))) l1) h
        = Checksum.dirShaLoop path
          (map (fun e => (fst e, Checksum.pathShaNode (snd e))) l2) h).
Proof.
  induction 1 as [|[name1 n1] [name2 n2] l1 l2 [Hname Hn] _ [IHm IHc]];
    simpl in *; [done|].
  subst name2. split; intros h.
  - destruct (Hn (Join path name1)) as [-> _].
    destruct (Main.pathShaNode n2 (Join path name1)); [apply IHm|done|done].
  - destruct (Hn (Join path name1)) as [_ ->].
    destruct (Checksum.pathShaNode n2 (Join path name1) _); [apply IHc|done|done].
Qed.

Lemma sameTree_agree n1 n2 :
  sameTree n1 n2 -> uniqueNames n1 = true ->
  forall path,
    Main.pathShaNode n1 path = Main.pathShaNode n2 path /\
    forall h, Checksum.pathShaNode n1 path h = Checksum.pathShaNode n2 path h.
Proof.
  intros Hsame.
  induction Hsame using sameTree_mut with
    (P0 := fun es es2 _ =>
       Forall (fun e => uniqueNames (snd e) = true) es -> Forall2 agree es es2);
    try done.
  - intros Hu path. simpl in Hu.
    apply andb_prop in Hu as [Hnd Hall].
    apply bool_decide_eq_true in Hnd.
    assert (Forall (fun e => uniqueNames (snd e) = true) es) as Hes.
    { rewrite <- p. apply Forall_forall. intros e He.
      rewrite forallb_forall in Hall. apply Hall. by apply list_elem_of_In. }
    specialize (IHHsame Hes).
    assert (ReadDir es1 = ReadDir es) as Hsort by (by apply sortOn_unique).
    assert (Forall2 agree (ReadDir es) (ReadDir es2)) as Hagree.
    { apply sortOn_Forall2; [|done]. by intros ?? [? _]. }
    destruct (dirShaLoop_agree path _ _ Hagree) as [Hm Hc].
    simpl. unfold Main.dirSha, Checksum.dirSha.
    rewrite !ReadDir_map, Hsort. split; [apply Hm|]. intros h. apply Hc.
  - intros Hall. apply Forall_cons in Hall as [Hn1 Hall]. constructor.
    + split; [done|]. by apply IHHsame.
    + by apply IHHsame0.
Qed.

(** * The state-and-failure monad *)

Lemma SE_bind_unfold {S A B} (m : SE S A) (k : A -> SE S B) s :
  (m ≫= k) s =
  match m s with
  | (Ok a, s') => k a s'
  | (Error e, s') => (Error e, s')
  | (Panic p, s') => (Panic p, s')
  end.
Proof. done. Qed.

Lemma forEach_app {S A} (l1 l2 : list A) (body : A -> SE S unit) s :
  forEach (l1 ++ l2) body s = (forEach l1 body ≫= fun _ => forEach l2 body) s.
Proof.
  revert s. induction l1 as [|x l1 IH]; intros s; simpl; [done|].
  rewrite !SE_bind_unfold. destruct (body x s) as [[[]|e|p] s']; [|done|done].
  by rewrite IH.
Qed.

Lemma forEach_concat {S A} (ls : list (list A)) (body : A -> SE S unit) s :
  forEach ls (fun l => forEach l body) s = forEach (concat ls) body s.
Proof.
  revert s. induction ls as [|l ls IH]; intros s; simpl; [done|].
  rewrite forEach_app, !SE_bind_unfold.
  destruct (forEach l body s) as [[[]|e|p] s']; [|done|done]. apply IH.
Qed.

Lemma readOnly_ret {S A} (a : A) : readOnly (mret a : SE S A).
Proof. done. Qed.

Lemma readOnly_bind {S A B} (m : SE S A) (k : A -> SE S B) :
  readOnly m -> (forall a, readOnly (k a)) -> readOnly (m ≫= k).
Proof.
  intros Hm Hk s. rewrite SE_bind_unfold. specialize (Hm s).
  destruct (m s) as [[a|e|p] s']; simpl in *; subst; try done. apply Hk.
Qed.

Lemma readOnly_fmap {S A B} (f : A -> B) (m : SE S A) :
  readOnly m -> readOnly (f <$> m).
Proof. intros Hm. apply readOnly_bind; [done|]. intros a. apply readOnly_ret. Qed.

Lemma readOnly_mapM {S A B} (f : A -> SE S B) l :
  (forall x, readOnly (f x)) -> readOnly (mapM f l).
Proof.
  intros Hf. induction l as [|x l IH]; simpl; [apply readOnly_ret|].
  apply readOnly_bind; [done|]. intros y.
  apply readOnly_bind; [done|]. intros ys. apply readOnly_ret.
Qed.

Lemma readOnly_mustSE {S A} (m : SE S A) : readOnly m -> readOnly (mustSE m).
Proof.
  intros Hm s. unfold mustSE. specialize (Hm s). by destruct (m s).
Qed.

Lemma readOnly_Expand {S} (expander : string -> SE S string) cmd :
  (forall w, readOnly (expander w)) -> readOnly (Expand expander cmd).
Proof.
  intros He. destruct cmd; simpl;
    repeat first
      [ done
      | apply readOnly_ret
      | apply readOnly_fmap
      | apply readOnly_mapM; intros ?
      | apply readOnly_bind; [|intros ?]
      | progress unfold expandArg, expandKvp, expandMount
      | match goal with |- readOnly (match ?x with _ => _ end) => destruct x end ].
Qed.

Lemma Expand_kind {S} (expander : string -> SE S string) cmd s cmd' s' :
  Expand expander cmd s = (Ok cmd', s') -> sameKind cmd cmd'.
Proof.
  destruct cmd; simpl; unfold fmap, SE_fmap; rewrite ?SE_bind_unfold;
    repeat match goal with
           | |- context [match ?m s with _ => _ end] =>
               destruct (m s) as [[?|?|?] ?]; simpl; rewrite ?SE_bind_unfold
           | |- context [match ?m ?s0 with _ => _ end] =>
               destruct (m s0) as [[?|?|?] ?]; simpl; rewrite ?SE_bind_unfold
           end;
    intros [= <- <-] || intros [=]; done.
Qed.

(** * The instruction walk *)

Section walk.
Context `{Collaborators}.
Import Checksum.

Lemma readOnly_expandBuildArgs res w : readOnly (expandBuildArgs res w).
Proof. done. Qed.

Lemma Expand_state res cmd t :
  snd (Expand (expandBuildArgs res) cmd t) = t.
Proof. apply readOnly_Expand, readOnly_expandBuildArgs. Qed.

Lemma firstDefault_cons key a args :
  firstDefault key (a :: args) =
  if String.eqb (argKey a) key && bool_decide (argValue a ≠ None)
  then argValue a else firstDefault key args.
Proof.
  unfold firstDefault. simpl.
  by destruct (String.eqb (argKey a) key && bool_decide (argValue a ≠ None)).
Qed.

Lemma forEach_argDefault args (t : gmap string string) :
  exists t1,
    forEach args argDefault t = (Ok tt, t1) /\
    forall key,
      t1 !! key = match t !! key with
                  | Some v => Some v
                  | None => firstDefault key args
                  end.
Proof.
  revert t. induction args as [|a args IH]; intros t.
  - exists t. split; [done|]. intros key. by destruct (t !! key).
  - simpl. rewrite SE_bind_unfold. unfold argDefault at 1.
    destruct (decide _) as [[Hnone Hval]|Hno].
    + destruct (IH (<[argKey a := ValueString a]> t)) as (t1 & Hrun & Ht1).
      exists t1. split; [done|]. intros key. rewrite Ht1, firstDefault_cons.
      destruct (decide (argKey a = key)) as [<-|Hne].
      * rewrite lookup_insert_eq, Hnone, String.eqb_refl.
        rewrite bool_decide_eq_true_2 by done. simpl.
        unfold ValueString. by destruct (argValue a).
      * rewrite lookup_insert_ne by done.
        apply String.eqb_neq in Hne. rewrite Hne. done.
    + destruct (IH t) as (t1 & Hrun & Ht1).
      exists t1. split; [done|]. intros key. rewrite Ht1, firstDefault_cons.
      destruct (t !! key) eqn:Hkey; [done|].
      destruct (String.eqb (argKey a) key) eqn:Heq; [|done].
      apply String.eqb_eq in Heq. subst key.
      destruct (bool_decide (argValue a ≠ None)) eqn:Hv; [|done].
      apply bool_decide_eq_true in Hv. exfalso. by apply Hno.
Qed.

Lemma firstDefault_first key l1 a l2 v :
  argKey a = key -> argValue a = Some v ->
  Forall (fun a' => argKey a' = key -> argValue a' = None) l1 ->
  firstDefault key (l1 ++ a :: l2) = Some v.
Proof.
  intros Hk Hv. induction 1 as [|a' l1 Ha' _ IH]; simpl.
  - rewrite firstDefault_cons, Hk, String.eqb_refl, Hv.
    by rewrite bool_decide_eq_true_2.
  - rewrite firstDefault_cons.
    destruct (String.eqb (argKey a') key) eqn:Heq; [|done].
    apply String.eqb_eq in Heq. rewrite (Ha' Heq).
    by rewrite bool_decide_eq_false_2 by (intros ?; done).
Qed.

Lemma PathsFromDockerfile_unfold res stages argCommands t t1 :
  instructionsParse (AST res) = Ok (stages, argCommands) ->
  forEach (concat argCommands) argDefault t = (Ok tt, t1) ->
  PathsFromDockerfile res t =
  let r := foldM (fun paths stage =>
                    foldM (walkCommand res) paths (Commands stage))
                 [] stages t1 in
  (sortStrings <$> fst r, snd r).
Proof.
  intros Hparse Hargs. unfold PathsFromDockerfile.
  rewrite SE_bind_unfold. unfold lift. rewrite Hparse. simpl.
  rewrite SE_bind_unfold, forEach_concat, Hargs, SE_bind_unfold.
  destruct (foldM _ _ _ _) as [[paths|e|p] t2]; done.
Qed.
End walk.

Section env.
Context `{Collaborators}.
Import Checksum.

Lemma setEnv_last env l1 key v l2 (t : gmap string string) :
  env = l1 ++ (key, v) :: l2 -> key ∉ map fst l2 ->
  setEnv env t !! key = Some v.
Proof.
  intros -> Hl2. unfold setEnv. rewrite fold_left_app. simpl.
  generalize (fold_left (fun t kv => <[fst kv := snd kv]> t) l1 t) as t0.
  intros t0.
  assert (<[key := v]> t0 !! key = Some v) as Hk by apply lookup_insert_eq.
  revert Hk. generalize (<[key := v]> t0) as t1.
  induction l2 as [|[k' v'] l2 IH]; intros t1 Hk; simpl in *; [done|].
  apply not_elem_of_cons in Hl2 as [Hne Hl2].
  apply IH; [done|]. by rewrite lookup_insert_ne.
Qed.

Lemma forEach_setEnv env (t : gmap string string) :
  forEach env (fun kv => modify <[fst kv := snd kv]>) t = (Ok tt, setEnv env t).
Proof.
  revert t. induction env as [|kv env IH]; intros t; simpl; [done|].
  rewrite SE_bind_unfold. simpl. apply IH.
Qed.

Lemma walkCommand_not_env res paths cmd t :
  match cmd with
  | EnvCommand _ => True
  | _ => snd (walkCommand res paths cmd t) = t
  end.
Proof.
  pose proof (Expand_state res cmd t) as Hst.
  pose proof (Expand_kind (expandBuildArgs res) cmd t) as Hkind.
  destruct cmd; [|done|..]; unfold walkCommand;
    rewrite SE_bind_unfold; unfold mustSE;
    destruct (Expand _ _ t) as [[cmd'|e|p] t']; simpl in *; subst; try done;
    specialize (Hkind _ _ eq_refl); destruct cmd'; try done.
  by destruct (String.eqb from0 "").
Qed.

Lemma walkCommand_env res paths env env' t :
  Expand (expandBuildArgs res) (EnvCommand env) t = (Ok (EnvCommand env'), t) ->
  walkCommand res paths (EnvCommand env) t = (Ok paths, setEnv env' t).
Proof.
  intros Hexp. unfold walkCommand. rewrite SE_bind_unfold. unfold mustSE.
  rewrite Hexp. simpl. by rewrite SE_bind_unfold, forEach_setEnv.
Qed.
End env.

Section no_env.
Context `{Collaborators}.
Import Checksum.

Lemma foldM_walk_no_env res cmds paths t :
  forallb (fun cmd => negb (isEnv cmd)) cmds = true ->
  snd (foldM (walkCommand res) paths cmds t) = t.
Proof.
  revert paths. induction cmds as [|cmd cmds IH]; intros paths Hall; [done|].
  simpl in Hall. apply andb_prop in Hall as [Hcmd Hall].
  simpl. rewrite SE_bind_unfold.
  pose proof (walkCommand_not_env res paths cmd t) as Hw.
  destruct cmd; try done;
    destruct (walkCommand _ _ _ _) as [[paths'|e|p] t']; simpl in *; subst;
    try done; by apply IH.
Qed.

Lemma foldM_stages_no_env res stages paths t :
  forallb (fun stage => forallb (fun cmd => negb (isEnv cmd)) (Commands stage))
          stages = true ->
  snd (foldM (fun paths stage => foldM (walkCommand res) paths (Commands stage))
             paths stages t) = t.
Proof.
  revert paths. induction stages as [|stage stages IH]; intros paths Hall; [done|].
  simpl in Hall. apply andb_prop in Hall as [Hst Hall].
  simpl. rewrite SE_bind_unfold.
  pose proof (foldM_walk_no_env res (Commands stage) paths t Hst) as Hw.
  destruct (foldM (walkCommand res) _ _ _) as [[paths'|e|p] t']; simpl in *; subst;
    try done; by apply IH.
Qed.

End no_env.

(** * The composer *)

Lemma fold_WriteString l h :
  fold_left WriteString l h = hash.Write h (concat (map bytesOf l)).
Proof.
  revert h. induction l as [|x l IH]; intros h; simpl.
  - by rewrite Write_nil.
  - by rewrite IH, WriteString_Write, Write_Write.
Qed.

Lemma addMapToHash_stream h m :
  Checksum.addMapToHash h m = hash.Write h (mapStream m).
Proof.
  unfold Checksum.addMapToHash, mapStream.
  generalize (Checksum.sortedKeys m) as keys. intros keys. revert h.
  induction keys as [|key keys IH]; intros h; simpl.
  - by rewrite Write_nil.
  - by rewrite IH, !WriteString_Write, !Write_Write, <- app_assoc.
Qed.

Lemma HasPrefix_dot_slash path :
  HasPrefix path "./" = true -> isRooted path = false.
Proof.
  destruct path as [|c path]; [done|].
  change (HasPrefix (String c path) "./")
    with (Ascii.eqb "." c && HasPrefix path "/").
  intros Hp. apply andb_prop in Hp as [Hc _].
  by apply Ascii.eqb_eq in Hc as <-.
Qed.

Lemma relative_pattern path :
  (if HasPrefix path "./" then must (RelDot path) else Ok path)
  = Ok (globPattern path).
Proof.
  unfold globPattern, RelDot. destruct (HasPrefix path "./") eqn:Hp; [|done].
  by rewrite (HasPrefix_dot_slash _ Hp).
Qed.

Lemma pathSha_stream workdir file h :
  Checksum.pathSha workdir file h =
  hash.Write h <$> match Stat workdir file with
                   | Ok n => treeStream n file
                   | Error err => Error err
                   | Panic msg => Panic msg
                   end.
Proof.
  unfold Checksum.pathSha. destruct (Stat workdir file); try done.
  apply pathShaNode_treeStream.
Qed.

Section composer.
Context `{Collaborators}.
Import Checksum.

Lemma addFiles_stream workdir files h :
  addFiles workdir files h = hash.Write h <$> filesStream workdir files.
Proof.
  revert h. induction files as [|file files IH]; intros h; simpl.
  - by rewrite Write_nil.
  - rewrite pathSha_stream.
    destruct (match Stat workdir file with Ok _ => _ | _ => _ end)
      as [s|e|p]; simpl; try done.
    rewrite IH. destruct (filesStream workdir files); simpl; try done.
    by rewrite WriteString_Write, !Write_Write.
Qed.

Lemma addPaths_stream workdir paths h :
  addPaths workdir paths h = hash.Write h <$> pathsStream workdir paths.
Proof.
  revert h. induction paths as [|path paths IH]; intros h; simpl.
  - by rewrite Write_nil.
  - rewrite relative_pattern. simpl.
    destruct (Glob workdir (globPattern path)) as [files|e|p]; simpl; try done.
    rewrite addFiles_stream.
    destruct (filesStream workdir files); simpl; try done.
    rewrite IH. destruct (pathsStream workdir paths); simpl; try done.
    by rewrite Write_Write.
Qed.

Lemma addPaths_app workdir ps1 ps2 h :
  addPaths workdir (ps1 ++ ps2) h = addPaths workdir ps1 h ≫= addPaths workdir ps2.
Proof.
  revert h. induction ps1 as [|p ps1 IH]; intros h; simpl; [done|].
  rewrite relative_pattern. simpl.
  destruct (Glob workdir (globPattern p)) as [files|e|q]; simpl; try done.
  destruct (addFiles workdir files h); simpl; try done.
Qed.

End composer.

Section calculate.
Context `{Collaborators}.
Import Checksum.

Lemma debug_hash c h : (if Debug c then newHashWithLog h else h) = h.
Proof. by destruct (Debug c). Qed.

Lemma newHash_New name h : newHash name = Ok h -> exists a, h = hash.New a.
Proof.
  unfold newHash. repeat case_match; intros [= <-]; eauto.
Qed.

Lemma withMap_Paths res c s paths t' :
  PathsFromDockerfile res (loadMap (BuildArgs c) s) = (Ok paths, t') ->
  (maps s !! BuildArgs c = None -> t' = ∅) ->
  withMap (BuildArgs c) (PathsFromDockerfile res) s =
  (Ok paths,
   mkStore (match maps s !! BuildArgs c with
            | Some _ => <[BuildArgs c := t']> (maps s)
            | None => maps s
            end) (slices s)) /\
  (forall sl,
      loadMap (BuildArgs c)
        (mkStore (match maps s !! BuildArgs c with
                  | Some _ => <[BuildArgs c := t']> (maps s)
                  | None => maps s
                  end) sl) = t') /\
  (forall sl,
      loadMap (Labels c)
        (mkStore (match maps s !! BuildArgs c with
                  | Some _ => <[BuildArgs c := t']> (maps s)
                  | None => maps s
                  end) sl)
      = if decide (Labels c = BuildArgs c) then t' else loadMap (Labels c) s).
Proof.
  unfold withMap, loadMap.
  destruct (maps s !! BuildArgs c) as [t|] eqn:Hmap; simpl;
    intros Hpaths Hnil; rewrite Hpaths.
  - repeat split; intros sl; simpl.
    + by rewrite lookup_insert_eq.
    + destruct (decide _) as [->|Hne].
      * by rewrite lookup_insert_eq.
      * by rewrite lookup_insert_ne.
  - rewrite (Hnil eq_refl). rewrite decide_True by done.
    destruct s as [ms sls]. simpl in *.
    repeat split; intros sl; simpl.
    + by rewrite Hmap.
    + destruct (decide _) as [->|Hne]; [by rewrite Hmap|done].
Qed.

Lemma Calculate_run w c s content res a paths t' ps :
  ReadFile w (Dockerfile c) = Ok content ->
  parserParse content = Ok res ->
  newHash (Hash c) = Ok (hash.New a) ->
  PathsFromDockerfile res (loadMap (BuildArgs c) s) = (Ok paths, t') ->
  (maps s !! BuildArgs c = None -> t' = ∅) ->
  pathsStream (DirFS w (Workdir c)) paths = Ok ps ->
  CalculateDockerfileChecksum w c s =
  (Ok (Bits.hexEncode
         (hash.Sum
            (hash.mkHash a
               (content ++ ps ++ mapStream t' ++
                sliceStream (loadSlice (Platforms c) s) ++
                mapStream (if decide (Labels c = BuildArgs c) then t'
                           else loadMap (Labels c) s))))),
   storeAfter c t' s).
Proof.
  intros Hread Hparse Hhash Hpaths Hnil Hps.
  destruct (withMap_Paths res c s paths t' Hpaths Hnil) as (Hwith & Hargs & Hlabels).
  unfold CalculateDockerfileChecksum. rewrite Hread, Hparse.
  rewrite SE_bind_unfold. unfold lift at 1. rewrite Hhash.
  cbv zeta. rewrite debug_hash, SE_bind_unfold, Hwith.
  rewrite SE_bind_unfold. unfold lift at 1.
  rewrite addPaths_stream, Hps. simpl.
  unfold withSlice, loadSlice, storeAfter, addSliceToHash.
  cbv [mbind SE_bind fmap SE_fmap mret SE_ret get]. cbn [maps slices].
  rewrite Hargs.
  destruct (slices s !! Platforms c) as [l|] eqn:Hsl; cbn [default fst];
    rewrite Hlabels, !addMapToHash_stream, ?fold_WriteString,
      ?addMapToHash_stream, !Write_Write;
    unfold hash.Write, hash.New, sliceStream; simpl;
    rewrite <- ?app_assoc; done.
Qed.

Lemma Calculate_inv w c s out s' :
  CalculateDockerfileChecksum w c s = (Ok out, s') ->
  exists content res a paths t' ps,
    ReadFile w (Dockerfile c) = Ok content /\
    parserParse content = Ok res /\
    newHash (Hash c) = Ok (hash.New a) /\
    PathsFromDockerfile res (loadMap (BuildArgs c) s) = (Ok paths, t') /\
    (maps s !! BuildArgs c = None -> t' = ∅) /\
    pathsStream (DirFS w (Workdir c)) paths = Ok ps.
Proof.
  unfold CalculateDockerfileChecksum.
  destruct (ReadFile w (Dockerfile c)) as [content|e|p] eqn:Hread; [|done..].
  destruct (parserParse content) as [res|e|p] eqn:Hparse; [|done..].
  rewrite SE_bind_unfold. unfold lift at 1.
  destruct (newHash (Hash c)) as [h0|e|p] eqn:Hhash; [|done..].
  destruct (newHash_New _ _ Hhash) as [a ->].
  cbv zeta. rewrite debug_hash, SE_bind_unfold.
  destruct (PathsFromDockerfile res (loadMap (BuildArgs c) s))
    as [[paths|e|p] t'] eqn:Hpaths.
  2,3: unfold withMap, loadMap in *;
       destruct (maps s !! BuildArgs c); simpl in *;
       rewrite Hpaths; try done; by case_decide.
  intros Hcalc.
  assert (maps s !! BuildArgs c = None -> t' = ∅) as Hnil.
  { intros Hnone. unfold withMap, loadMap in *. rewrite Hnone in *. simpl in *.
    rewrite Hpaths in Hcalc. by case_decide. }
  destruct (withMap_Paths res c s paths t' Hpaths Hnil) as (Hwith & _ & _).
  rewrite Hwith in Hcalc.
  rewrite SE_bind_unfold in Hcalc. unfold lift at 1 in Hcalc.
  rewrite addPaths_stream in Hcalc.
  destruct (pathsStream (DirFS w (Workdir c)) paths) as [ps|e|p] eqn:Hps;
    [|done..].
  by exists content, res, a, paths, t', ps.
Qed.

Lemma unknown_hash name :
  name <> "sha1" -> name <> "md5" -> name <> "sha256" ->
  newHash name = Panic ("unknown hash algorithm " ++ name)%string.
Proof.
  intros H1 H2 H3. unfold newHash.
  apply String.eqb_neq in H1, H2, H3. by rewrite H1, H2, H3.
Qed.

End calculate.

(** * The claims *)

(** ** C1 *)

(** C1, as amended.  For a directory, both tree hashers take the children in
    the order of [fs.ReadDir], which is the entries sorted by name.  When
    every child hashes, the command's digest of the directory is the SHA-1 of
    the bytes, child after child, of the child's path (the directory's path
    joined with the child's name) followed by the child's digest; the
    library appends to the caller's accumulator, child after child, the
    child's path followed by what it writes for the child. *)
Theorem directory_feeds_child_paths entries path digests streams h :
  Forall2 (fun e d => Main.pathShaNode (snd e) (Join path (fst e)) = Ok d)
          (ReadDir entries) digests ->
  Forall2 (fun e s => treeStream (snd e) (Join path (fst e)) = Ok s)
          (ReadDir entries) streams ->
  StronglySorted (keyle fst) (ReadDir entries) /\
  ReadDir entries ≡ₚ entries /\
  Main.pathShaNode (Dir entries) path
  = Ok (Sha1.Sum
          (concat (zip_with (fun e d => bytesOf (Join path (fst e)) ++ d)
                            (ReadDir entries) digests))) /\
  Checksum.pathShaNode (Dir entries) path h
  = Ok (hash.Write h
          (concat (zip_with (fun e s => bytesOf (Join path (fst e)) ++ s)
                            (ReadDir entries) streams))).
Proof.
  intros Hdigests Hstreams.
  split; [apply ReadDir_sorted|]. split; [apply ReadDir_perm|]. split.
  - simpl. unfold Main.dirSha. rewrite ReadDir_map.
    by rewrite (Main_dirShaLoop_digests _ _ _ _ Hdigests).
  - simpl. unfold Checksum.dirSha. rewrite ReadDir_map.
    by apply dirShaLoop_streams.
Qed.

Lemma directory_feeds_child_paths_witness :
  Forall2 (fun e d => Main.pathShaNode (snd e) (Join "d" (fst e)) = Ok d)
          (ReadDir Data.twoFiles)
          [Sha1.Sum (bytesOf "y"); Sha1.Sum (bytesOf "x")] /\
  Forall2 (fun e s => treeStream (snd e) (Join "d" (fst e)) = Ok s)
          (ReadDir Data.twoFiles) [bytesOf "y"; bytesOf "x"] /\
  Main.pathShaNode (Dir Data.twoFiles) "d"
  = Ok (Sha1.Sum
          (bytesOf "d/a" ++ Sha1.Sum (bytesOf "y") ++
           bytesOf "d/b" ++ Sha1.Sum (bytesOf "x"))) /\
  Checksum.pathShaNode (Dir Data.twoFiles) "d" (hash.New hash.MD5)
  = Ok (hash.mkHash hash.MD5
          (bytesOf "d/a" ++ bytesOf "y" ++ bytesOf "d/b" ++ bytesOf "x")).
Proof.
  assert (Forall2 (fun e d => Main.pathShaNode (snd e) (Join "d" (fst e)) = Ok d)
                  (ReadDir Data.twoFiles)
                  [Sha1.Sum (bytesOf "y"); Sha1.Sum (bytesOf "x")]) as Hd.
  { repeat constructor. }
  assert (Forall2 (fun e s => treeStream (snd e) (Join "d" (fst e)) = Ok s)
                  (ReadDir Data.twoFiles) [bytesOf "y"; bytesOf "x"]) as Hs.
  { repeat constructor. }
  split; [exact Hd|]. split; [exact Hs|].
  destruct (directory_feeds_child_paths Data.twoFiles "d" _ _
              (hash.New hash.MD5) Hd Hs) as (_ & _ & Hmain & Hlib).
  split.
  - rewrite Hmain. vm_compute. reflexivity.
  - rewrite Hlib. vm_compute. reflexivity.
Defined.

(** C1 as stated fails: the directories [x] and [y] have the same child
    name and the same child content, and the command gives them two digests,
    neither being the digest of the pairs (child name, child digest) the
    specification words; the library streams two different inputs for
    them. *)
Lemma directory_digest_depends_on_path :
  Stat Data.twins "x" = Ok Data.oneFileDir /\
  Stat Data.twins "y" = Ok Data.oneFileDir /\
  Main.pathSha Data.twins "x" <> Main.pathSha Data.twins "y" /\
  Main.pathSha Data.twins "x" <> Spec.treeDigest hash.SHA1 Data.oneFileDir /\
  Checksum.pathSha Data.twins "x" (hash.New hash.SHA1)
  <> Checksum.pathSha Data.twins "y" (hash.New hash.SHA1).
Proof.
  split; [vm_compute; reflexivity|].
  split; [vm_compute; reflexivity|].
  split; [vm_compute; discriminate|].
  split; vm_compute; discriminate.
Qed.

(** ** C2 *)

(** C2.  For the recipe [COPY ./c /app] over the example working directory,
    with SHA-1 and the same build arguments, platforms and labels, the
    library (flattened hashing into the one accumulator) and the first
    command (an accumulator per directory) return different checksums; so
    do the two tree hashers on the directory [c] alone. *)
Theorem flattened_and_structural_differ :
  exists (n : node) (flat structural : bytes),
    Stat Data.workdir "c" = Ok n /\
    treeStream n "c" = Ok flat /\
    Main.pathShaNode n "c" = Ok structural /\
    Sha1.Sum flat <> structural /\
  exists out1 out2 : string,
    fst (@Checksum.CalculateDockerfileChecksum
           (Fixture.collaborators Data.copyDir)
           (Data.world Data.copyDirText) (Data.config "sha1") Data.store)
    = Ok out1 /\
    @Main.handlerRoot (Fixture.collaborators Data.copyDir)
      (Data.world Data.copyDirText) Data.flags ["."] = (Ok tt, out2) /\
    loadMap 0 Data.store = Main.buildArg Data.flags /\
    loadMap 1 Data.store = Main.label Data.flags /\
    loadSlice 2 Data.store = Main.platform Data.flags /\
    out1 <> out2.
Proof.
  eexists _, _, _.
  split; [vm_compute; reflexivity|].
  split; [vm_compute; reflexivity|].
  split; [vm_compute; reflexivity|].
  split; [vm_compute; discriminate|].
  exists "b2ef4ab32d3cdae162a0195617e422f3a5d9bb5e",
         "936f30c20e70264f177f893581067df14edfd2a9".
  repeat split; try (vm_compute; reflexivity). discriminate.
Qed.

(** ** C3 *)

Section composition.
Context `{Collaborators}.
Import Checksum.

(** C3, as amended.  When the recipe is read and parsed, the algorithm is
    known, the walk returns the sorted patterns [paths] and leaves the
    table [t'], and every match is read, the checksum is the hex-encoded
    digest of one accumulator fed with: the recipe's bytes; for every
    pattern in order and every match of it in order, the match's path and
    then the bytes the tree hasher streams for it (the content itself for
    a file: no digest of the path is taken); the pairs of [t'] by sorted
    key; the sorted platforms; the label pairs by sorted key. *)
Theorem checksum_composition w c s content res a paths t' ps :
  ReadFile w (Dockerfile c) = Ok content ->
  parserParse content = Ok res ->
  newHash (Hash c) = Ok (hash.New a) ->
  is_Some (maps s !! BuildArgs c) ->
  Labels c <> BuildArgs c ->
  PathsFromDockerfile res (loadMap (BuildArgs c) s) = (Ok paths, t') ->
  pathsStream (DirFS w (Workdir c)) paths = Ok ps ->
  fst (CalculateDockerfileChecksum w c s)
  = Ok (Bits.hexEncode
          (hash.Sum
             (hash.mkHash a
                (content ++ ps ++ mapStream t' ++
                 sliceStream (loadSlice (Platforms c) s) ++
                 mapStream (loadMap (Labels c) s))))) /\
  (forall workdir file bs,
      Stat workdir file = Ok (File bs) ->
      filesStream workdir [file] = Ok (bytesOf file ++ bs)).
Proof.
  intros Hread Hparse Hhash [t Ht] Hne Hpaths Hps. split.
  - rewrite (Calculate_run w c s content res a paths t' ps); try done.
    + simpl. by rewrite decide_False.
    + by rewrite Ht.
  - intros workdir file bs Hstat. simpl. rewrite Hstat. simpl.
    by rewrite app_nil_r.
Qed.
End composition.

Lemma checksum_composition_witness :
  ReadFile (Data.world Data.copyFileText) "Dockerfile" = Ok Data.copyFileText /\
  @parserParse (Fixture.collaborators Data.copyFile) Data.copyFileText
  = Ok (Data.result Data.copyFile) /\
  Checksum.newHash "sha1" = Ok (hash.New hash.SHA1) /\
  is_Some (maps Data.store !! 0) /\
  1 <> 0 /\
  @Checksum.PathsFromDockerfile (Fixture.collaborators Data.copyFile)
    (Data.result Data.copyFile) (loadMap 0 Data.store)
  = (Ok ["./b"], {["ARG1" := "b"]}) /\
  @pathsStream (Fixture.collaborators Data.copyFile) Data.workdir ["./b"]
  = Ok (bytesOf "b" ++ bytesOf "bee") /\
  fst (@Checksum.CalculateDockerfileChecksum
         (Fixture.collaborators Data.copyFile)
         (Data.world Data.copyFileText) (Data.config "sha1") Data.store)
  = Ok (Bits.hexEncode
          (Sha1.Sum
             (Data.copyFileText ++ (bytesOf "b" ++ bytesOf "bee") ++
              bytesOf "ARG1b" ++ bytesOf "linux/amd64linux/arm64" ++
              bytesOf "label1value1"))).
Proof.
  assert (ReadFile (Data.world Data.copyFileText) "Dockerfile"
          = Ok Data.copyFileText) as Hread by (vm_compute; reflexivity).
  assert (@parserParse (Fixture.collaborators Data.copyFile) Data.copyFileText
          = Ok (Data.result Data.copyFile)) as Hparse by reflexivity.
  assert (Checksum.newHash "sha1" = Ok (hash.New hash.SHA1)) as Hhash
      by (vm_compute; reflexivity).
  assert (is_Some (maps Data.store !! 0)) as Hsome by (vm_compute; eauto).
  assert (1 <> 0) as Hne by lia.
  assert (@Checksum.PathsFromDockerfile (Fixture.collaborators Data.copyFile)
            (Data.result Data.copyFile) (loadMap 0 Data.store)
          = (Ok ["./b"], {["ARG1" := "b"]})) as Hpaths
      by (vm_compute; reflexivity).
  assert (@pathsStream (Fixture.collaborators Data.copyFile) Data.workdir ["./b"]
          = Ok (bytesOf "b" ++ bytesOf "bee")) as Hps
      by (vm_compute; reflexivity).
  do 7 (split; [assumption|]).
  destruct (@checksum_composition (Fixture.collaborators Data.copyFile)
              (Data.world Data.copyFileText) (Data.config "sha1") Data.store
              _ _ _ _ _ _ Hread Hparse Hhash Hsome Hne Hpaths Hps) as [Hc _].
  etransitivity; [exact Hc|]. vm_compute. reflexivity.
Defined.

(** C3 as stated fails: for [COPY ./b /app], where [b] is a file, the
    library's checksum is not that of the specification's composition,
    which feeds the path's name and then its Tree Hasher digest. *)
Lemma checksum_feeds_content_not_digest :
  Glob (Collaborators := Fixture.collaborators Data.copyFile) Data.workdir "b"
  = Ok ["b"] /\
  Stat Data.workdir "b" = Ok (File (bytesOf "bee")) /\
  fst (@Checksum.CalculateDockerfileChecksum
         (Fixture.collaborators Data.copyFile)
         (Data.world Data.copyFileText) (Data.config "sha1") Data.store)
  = Ok "a5681ff68b18cb60cb57d474dc716035c89662df" /\
  Spec.checksum hash.SHA1 Data.copyFileText [("b", File (bytesOf "bee"))]
    {["ARG1" := "b"]} ["linux/arm64"; "linux/amd64"] {["label1" := "value1"]}
  = Ok "4e199136ab375aeac94780c4d13a14b875b50e4a" /\
  fst (@Checksum.CalculateDockerfileChecksum
         (Fixture.collaborators Data.copyFile)
         (Data.world Data.copyFileText) (Data.config "sha1") Data.store)
  <> Spec.checksum hash.SHA1 Data.copyFileText [("b", File (bytesOf "bee"))]
       {["ARG1" := "b"]} ["linux/arm64"; "linux/amd64"] {["label1" := "value1"]}.
Proof.
  split; [vm_compute; reflexivity|].
  split; [vm_compute; reflexivity|].
  split; [vm_compute; reflexivity|].
  split; [vm_compute; reflexivity|].
  vm_compute. discriminate.
Qed.

(** ** C4 *)

Section arg_defaults.
Context `{Collaborators}.
Import Checksum.

(** C4, as amended.  For an ARG instruction before the first stage (the
    ARGs [instructions.Parse] returns apart from the stages), taken in
    order before any stage instruction is walked: when its name is in the
    table neither from the caller nor from an earlier such ARG with a
    default, and it declares a default, the default is in the table [t1]
    from which every stage instruction is expanded and walked. *)
Theorem meta_arg_default_inserted res stages argCommands l1 arg l2 v
    (t : gmap string string) :
  instructionsParse (AST res) = Ok (stages, argCommands) ->
  concat argCommands = l1 ++ arg :: l2 ->
  argValue arg = Some v ->
  t !! argKey arg = None ->
  Forall (fun a' => argKey a' = argKey arg -> argValue a' = None) l1 ->
  exists t1,
    forEach argCommands (fun argCmd => forEach argCmd argDefault) t = (Ok tt, t1) /\
    t1 !! argKey arg = Some v /\
    PathsFromDockerfile res t =
    let r := foldM (fun paths stage =>
                      foldM (walkCommand res) paths (Commands stage))
                   [] stages t1 in
    (sortStrings <$> fst r, snd r).
Proof.
  intros Hparse Hcat Hv Hnone Hl1.
  destruct (forEach_argDefault (concat argCommands) t) as (t1 & Hrun & Ht1).
  exists t1. split; [by rewrite forEach_concat|]. split.
  - rewrite Ht1, Hnone, Hcat. by apply firstDefault_first.
  - by eapply PathsFromDockerfile_unfold.
Qed.
End arg_defaults.

(** C4 as stated fails for an ARG inside a stage: after [ARG X=1] and
    [COPY ./${X} /app] in one stage, the table does not hold [X] and the
    extracted pattern is [./], not [./1]. *)
Lemma stage_arg_default_not_inserted :
  snd (@Checksum.PathsFromDockerfile (Fixture.collaborators Data.stageArg)
         (Data.result Data.stageArg) ∅) !! "X" = None /\
  fst (@Checksum.PathsFromDockerfile (Fixture.collaborators Data.stageArg)
         (Data.result Data.stageArg) ∅) = Ok ["./"].
Proof. split; vm_compute; reflexivity. Qed.

Lemma meta_arg_default_inserted_witness :
  @instructionsParse (Fixture.collaborators Data.metaArg)
    (AST (Data.result Data.metaArg))
  = Ok ([mkStage "" [CopyCommand "" ["./${X}"] "/app"]],
        [[mkArg "X" (Some "1")]]) /\
  concat [[mkArg "X" (Some "1")]] = [] ++ mkArg "X" (Some "1") :: [] /\
  argValue (mkArg "X" (Some "1")) = Some "1" /\
  (∅ : gmap string string) !! argKey (mkArg "X" (Some "1")) = None /\
  Forall (fun a' => argKey a' = argKey (mkArg "X" (Some "1")) ->
                    argValue a' = None) [] /\
  (exists t1 : gmap string string, t1 !! "X" = Some "1") /\
  @Checksum.PathsFromDockerfile (Fixture.collaborators Data.metaArg)
    (Data.result Data.metaArg) ∅ = (Ok ["./1"], {["X" := "1"]}).
Proof.
  assert (@instructionsParse (Fixture.collaborators Data.metaArg)
            (AST (Data.result Data.metaArg))
          = Ok ([mkStage "" [CopyCommand "" ["./${X}"] "/app"]],
                [[mkArg "X" (Some "1")]])) as Hparse by reflexivity.
  assert (concat [[mkArg "X" (Some "1")]] = [] ++ mkArg "X" (Some "1") :: [])
    as Hcat by reflexivity.
  assert (argValue (mkArg "X" (Some "1")) = Some "1") as Hv by reflexivity.
  assert ((∅ : gmap string string) !! argKey (mkArg "X" (Some "1")) = None)
    as Hnone by reflexivity.
  assert (Forall (fun a' => argKey a' = argKey (mkArg "X" (Some "1")) ->
                            argValue a' = None) []) as Hl1 by constructor.
  do 5 (split; [assumption|]).
  split; [|vm_compute; reflexivity].
  destruct (@meta_arg_default_inserted (Fixture.collaborators Data.metaArg)
              _ _ _ _ _ _ _ ∅ Hparse Hcat Hv Hnone Hl1) as (t1 & _ & Ht1 & _).
  exists t1. exact Ht1.
Defined.

(** ** C5 *)

Section precedence.
Context `{Collaborators}.
Import Checksum.

(** C5.  A value the caller supplied for a name survives every ARG default
    (the loop over the ARGs leaves it, and no instruction other than ENV
    writes the table, so a recipe without ENV returns it unchanged); an
    ENV instruction sets each of its names to its expanded value whatever
    the table held, and the instructions after it are walked with the
    table so updated. *)
Theorem table_precedence res (t : gmap string string) key0 v0
    env env' l1 key v l2 :
  t !! key0 = Some v0 ->
  Expand (expandBuildArgs res) (EnvCommand env) t = (Ok (EnvCommand env'), t) ->
  env' = l1 ++ (key, v) :: l2 ->
  key ∉ map fst l2 ->
  (forall argCommands,
      snd (forEach argCommands (fun argCmd => forEach argCmd argDefault) t)
        !! key0 = Some v0) /\
  (forall paths cmd, isEnv cmd = false -> snd (walkCommand res paths cmd t) = t) /\
  (forall stages argCommands,
      instructionsParse (AST res) = Ok (stages, argCommands) ->
      forallb (fun stage => forallb (fun cmd => negb (isEnv cmd)) (Commands stage))
              stages = true ->
      snd (PathsFromDockerfile res t) !! key0 = Some v0) /\
  (forall paths rest,
      walkCommand res paths (EnvCommand env) t = (Ok paths, setEnv env' t) /\
      foldM (walkCommand res) paths (EnvCommand env :: rest) t
      = foldM (walkCommand res) paths rest (setEnv env' t)) /\
  setEnv env' t !! key = Some v.
Proof.
  intros Hkey0 Hexp Henv Hl2.
  assert (forall argCommands,
      snd (forEach argCommands (fun argCmd => forEach argCmd argDefault) t)
        !! key0 = Some v0) as Hdefaults.
  { intros argCommands. rewrite forEach_concat.
    destruct (forEach_argDefault (concat argCommands) t) as (t1 & -> & Ht1).
    simpl. by rewrite Ht1, Hkey0. }
  split; [done|]. split; [|split; [|split]].
  - intros paths cmd Hcmd.
    pose proof (walkCommand_not_env res paths cmd t). by destruct cmd.
  - intros stages argCommands Hparse Hnoenv.
    destruct (forEach_argDefault (concat argCommands) t) as (t1 & Hrun & Ht1).
    rewrite (PathsFromDockerfile_unfold _ _ _ _ _ Hparse Hrun). simpl.
    rewrite foldM_stages_no_env by done. by rewrite Ht1, Hkey0.
  - intros paths rest.
    pose proof (walkCommand_env res paths env env' t Hexp) as Hw.
    split; [done|]. simpl. by rewrite SE_bind_unfold, Hw.
  - by eapply setEnv_last.
Qed.
End precedence.

Lemma table_precedence_witness :
  (Data.tableA !! "A" = Some "x") /\
  Expand (@Checksum.expandBuildArgs (Fixture.collaborators Data.scenario)
            (Data.result Data.scenario))
         (EnvCommand [("A", "y"); ("B", "$A")]) Data.tableA
  = (Ok (EnvCommand [("A", "y"); ("B", "x")]), Data.tableA) /\
  [("A", "y"); ("B", "x")] = [] ++ ("A", "y") :: [("B", "x")] /\
  ("A" ∉ map fst [("B", "x")]) /\
  (setEnv [("A", "y"); ("B", "x")] Data.tableA !! "A" = Some "y").
Proof.
  assert (Data.tableA !! "A" = Some "x") as Hkey0 by (vm_compute; reflexivity).
  assert (Expand (@Checksum.expandBuildArgs
                    (Fixture.collaborators Data.scenario)
                    (Data.result Data.scenario))
                 (EnvCommand [("A", "y"); ("B", "$A")]) Data.tableA
          = (Ok (EnvCommand [("A", "y"); ("B", "x")]), Data.tableA))
    as Hexp by (vm_compute; reflexivity).
  assert ([("A", "y"); ("B", "x")] = [] ++ ("A", "y") :: [("B", "x")])
    as Henv by reflexivity.
  assert ("A" ∉ map fst [("B", "x")]) as Hl2.
  { simpl. intros Hin. apply elem_of_cons in Hin as [Hin|Hin]; [discriminate|].
    by apply elem_of_nil in Hin. }
  do 4 (split; [assumption|]).
  exact (proj2 (proj2 (proj2 (proj2
           (@table_precedence (Fixture.collaborators Data.scenario)
              _ _ "A" "x" _ _ _ _ _ _ Hkey0 Hexp Henv Hl2))))).
Defined.

(** ** C6 *)

Lemma findEntry_None name (entries : list (string * node)) :
  name ∉ map fst entries -> findEntry name entries = None.
Proof.
  induction entries as [|e entries IH]; [done|]. simpl.
  intros Hnot. apply not_elem_of_cons in Hnot as [Hne Hnot].
  rewrite findEntry_cons. apply not_eq_sym, String.eqb_neq in Hne.
  rewrite Hne. by apply IH.
Qed.

Lemma findEntry_perm name (es1 es2 : list (string * node)) :
  es1 ≡ₚ es2 -> NoDup (map fst es1) -> findEntry name es1 = findEntry name es2.
Proof.
  induction 1 as [|e es1 es2 Hp IH|e1 e2 es|es1 es2 es3 Hp12 IH12 Hp23 IH23];
    intros Hnd.
  - done.
  - rewrite !findEntry_cons. simpl in Hnd. apply NoDup_cons in Hnd as [_ Hnd].
    by rewrite IH.
  - rewrite !findEntry_cons. simpl in Hnd.
    apply NoDup_cons in Hnd as [Hne _]. apply not_elem_of_cons in Hne as [Hne _].
    destruct (String.eqb_spec (fst e1) name) as [H1|H1];
      destruct (String.eqb_spec (fst e2) name) as [H2|H2]; try done.
    congruence.
  - rewrite IH12 by done. apply IH23. by rewrite <- Hp12.
Qed.

Lemma findEntry_sameEntries name es1 es2 :
  sameEntries es1 es2 ->
  match findEntry name es1, findEntry name es2 with
  | Some c1, Some c2 => sameTree c1 c2
  | None, None => True
  | _, _ => False
  end.
Proof.
  induction 1 as [|name' n1 n2 es1 es2 Hn Hes IH]; [done|].
  rewrite !findEntry_cons. simpl. by destruct (String.eqb name' name).
Qed.

Lemma uniqueNames_child entries name child :
  uniqueNames (Dir entries) = true -> (name, child) ∈ entries ->
  uniqueNames child = true.
Proof.
  simpl. intros Hu Hin. apply andb_prop in Hu as [_ Hall].
  rewrite forallb_forall in Hall.
  apply (Hall (name, child)). by apply list_elem_of_In.
Qed.

Lemma walkPath_sameTree elems :
  forall n1 n2,
    sameTree n1 n2 -> uniqueNames n1 = true ->
    sameFound (walkPath n1 elems) (walkPath n2 elems).
Proof.
  induction elems as [|e elems IH]; intros n1 n2 Hsame Hu; [done|].
  destruct Hsame as [content|isDir err|err|es1 es es2 Hperm Hes]; simpl.
  - done.
  - by destruct isDir.
  - done.
  - assert (NoDup (map fst es1)) as Hnd.
    { simpl in Hu. apply andb_prop in Hu as [Hnd _].
      by apply bool_decide_eq_true in Hnd. }
    pose proof (findEntry_sameEntries e es es2 Hes) as Hfind.
    rewrite <- (findEntry_perm e es1 es Hperm Hnd) in Hfind.
    destruct (findEntry e es1) as [c1|] eqn:H1;
      destruct (findEntry e es2) as [c2|]; try done.
    apply IH; [done|].
    eapply uniqueNames_child; [exact Hu|]. by apply findEntry_elem.
Qed.

Lemma Stat_sameTree fsys1 fsys2 path :
  sameTree fsys1 fsys2 -> uniqueNames fsys1 = true ->
  sameFound (Stat fsys1 path) (Stat fsys2 path).
Proof.
  intros Hsame Hu. unfold Stat.
  destruct (negb (ValidPath path)); [done|].
  assert (sameFound
            (if String.eqb path "." then Ok fsys1
             else walkPath fsys1 (splitSlash path))
            (if String.eqb path "." then Ok fsys2
             else walkPath fsys2 (splitSlash path))) as Hfound.
  { destruct (String.eqb path "."); [done|]. by apply walkPath_sameTree. }
  destruct (if String.eqb path "." then Ok fsys1 else _) as [n1|e1|p1];
    destruct (if String.eqb path "." then Ok fsys2 else _) as [n2|e2|p2];
    try done.
  destruct Hfound as [Hn Hun].
  destruct Hn; simpl; try done; (split; [by econstructor|done]).
Qed.

(** C6.  For two views of one tree with the same names and contents at every
    depth, whose directories are enumerated in different orders, both tree
    hashers return the same result at every path, from the root of the view
    and from any node of it: [fs.ReadDir] hands the entries over sorted by
    name. *)
Theorem listing_order_irrelevant fsys1 fsys2 path h :
  sameTree fsys1 fsys2 ->
  uniqueNames fsys1 = true ->
  Main.pathSha fsys1 path = Main.pathSha fsys2 path /\
  Checksum.pathSha fsys1 path h = Checksum.pathSha fsys2 path h /\
  Main.pathShaNode fsys1 path = Main.pathShaNode fsys2 path /\
  Checksum.pathShaNode fsys1 path h = Checksum.pathShaNode fsys2 path h.
Proof.
  intros Hsame Hu.
  pose proof (Stat_sameTree fsys1 fsys2 path Hsame Hu) as Hstat.
  unfold Main.pathSha, Checksum.pathSha.
  destruct (sameTree_agree fsys1 fsys2 Hsame Hu path) as [Hm Hc].
  split; [|split; [|split; [exact Hm|apply Hc]]].
  - destruct (Stat fsys1 path) as [n1|e1|p1], (Stat fsys2 path) as [n2|e2|p2];
      simpl in Hstat; try done; [|congruence].
    destruct Hstat as [Hn Hun]. by apply sameTree_agree.
  - destruct (Stat fsys1 path) as [n1|e1|p1], (Stat fsys2 path) as [n2|e2|p2];
      simpl in Hstat; try done; [|congruence].
    destruct Hstat as [Hn Hun]. by apply sameTree_agree.
Qed.

Lemma sameTree_refl n : sameTree n n.
Proof.
  induction n as [content|entries IH|isDir err|err] using node_nested_ind;
    try constructor.
  apply (sameDir entries entries entries); [done|].
  induction IH as [|[name child] entries Hc _ IHes]; by constructor.
Qed.

Lemma listing_order_irrelevant_witness :
  sameTree Data.workdir Data.workdirSorted /\
  uniqueNames Data.workdir = true /\
  Main.pathSha Data.workdir "a" = Main.pathSha Data.workdirSorted "a" /\
  Checksum.pathSha Data.workdir "a" (hash.New hash.SHA256)
  = Checksum.pathSha Data.workdirSorted "a" (hash.New hash.SHA256).
Proof.
  assert (sameTree Data.workdir Data.workdirSorted) as Hsame.
  { eapply sameDir.
    - etransitivity; [apply Permutation_swap|].
      etransitivity; [apply Permutation_skip, Permutation_swap|].
      apply Permutation_swap.
    - constructor.
      + eapply sameDir; [apply Permutation_swap|].
        repeat constructor.
      + constructor; [constructor|].
        constructor; [apply sameTree_refl|constructor]. }
  assert (uniqueNames Data.workdir = true) as Hu by (vm_compute; reflexivity).
  do 2 (split; [assumption|]).
  destruct (listing_order_irrelevant _ _ "a" (hash.New hash.SHA256) Hsame Hu)
    as (Hm & Hc & _).
  split; [exact Hm|exact Hc].
Defined.

(** ** C7 *)

Section scenario.
Context `{Collaborators}.
Import Checksum.

(** C7.  For the recipe [COPY ./a/* /app], [COPY ./${ARG1} /app],
    [RUN --mount=type=bind,source=./c,target=/x] and the explicit argument
    [ARG1=b], with a lexer that leaves plain words as they are and expands
    [./${ARG1}] to [./b], the extracted patterns are exactly
    [./a/*], [./b], [./c], and the table is as supplied. *)
Theorem scenario_paths res :
  instructionsParse (AST res) = Ok Data.scenario ->
  Forall (fun w => ProcessWordWithMap (EscapeToken res) w {["ARG1" := "b"]} = Ok w)
         ["./a/*"; "/app"; "./c"; "/x"; ""] ->
  ProcessWordWithMap (EscapeToken res) "./${ARG1}" {["ARG1" := "b"]} = Ok "./b" ->
  PathsFromDockerfile res {["ARG1" := "b"]}
  = (Ok ["./a/*"; "./b"; "./c"], {["ARG1" := "b"]}).
Proof.
  intros Hparse Hplain Harg.
  repeat match goal with
         | H : Forall _ (_ :: _) |- _ => apply Forall_cons in H as [? H]
         end.
  rewrite (PathsFromDockerfile_unfold res _ _ _ {["ARG1" := "b"]} Hparse)
    by done.
  cbv [Data.scenario fst snd Commands foldM
       walkCommand mustSE expandBuildArgs Expand expandMount mapM
       mbind SE_bind mret SE_ret fmap SE_fmap mountFrom mountSource
       mountTarget mountType].
  repeat first
    [ progress cbn -[sortStrings]
    | match goal with
      | H : ProcessWordWithMap _ _ _ = _ |- _ => rewrite H
      end ].
  done.
Qed.
End scenario.

Lemma scenario_paths_witness :
  @instructionsParse (Fixture.collaborators Data.scenario)
    (AST (Data.result Data.scenario)) = Ok Data.scenario /\
  Forall (fun w => @ProcessWordWithMap (Fixture.collaborators Data.scenario)
                     (EscapeToken (Data.result Data.scenario)) w
                     {["ARG1" := "b"]} = Ok w)
         ["./a/*"; "/app"; "./c"; "/x"; ""] /\
  @ProcessWordWithMap (Fixture.collaborators Data.scenario)
    (EscapeToken (Data.result Data.scenario)) "./${ARG1}" {["ARG1" := "b"]}
  = Ok "./b" /\
  @Checksum.PathsFromDockerfile (Fixture.collaborators Data.scenario)
    (Data.result Data.scenario) {["ARG1" := "b"]}
  = (Ok ["./a/*"; "./b"; "./c"], {["ARG1" := "b"]}).
Proof.
  assert (@instructionsParse (Fixture.collaborators Data.scenario)
            (AST (Data.result Data.scenario)) = Ok Data.scenario)
    as Hparse by reflexivity.
  assert (Forall (fun w => @ProcessWordWithMap
                             (Fixture.collaborators Data.scenario)
                             (EscapeToken (Data.result Data.scenario)) w
                             {["ARG1" := "b"]} = Ok w)
                 ["./a/*"; "/app"; "./c"; "/x"; ""]) as Hplain.
  { repeat constructor. }
  assert (@ProcessWordWithMap (Fixture.collaborators Data.scenario)
            (EscapeToken (Data.result Data.scenario)) "./${ARG1}"
            {["ARG1" := "b"]} = Ok "./b") as Harg by (vm_compute; reflexivity).
  do 3 (split; [assumption|]).
  exact (@scenario_paths (Fixture.collaborators Data.scenario)
           (Data.result Data.scenario) Hparse Hplain Harg).
Defined.

(** The repository's own test, [TestPathsFromDockerfile], on
    [testdata/Dockerfile] with [ARG1=b]. *)
Example TestPathsFromDockerfile :
  fst (@Checksum.PathsFromDockerfile (Fixture.collaborators Data.testdata)
         (Data.result Data.testdata) {["ARG1" := "b"]})
  = Ok ["./a/*"; "./b"; "./c"; "./d"; "./dist"].
Proof. vm_compute. reflexivity. Qed.

(** ** C8 *)

Section unknown_hash.
Context `{Collaborators}.
Import Checksum.

(** C8.  With a hash identifier other than [sha1], [md5] and [sha256] the
    computation does not return a checksum, it leaves the caller's maps
    and slices as they were, and once the recipe is read and parsed it
    panics with the identifier in the message; the command writes nothing
    to its output stream. *)
Theorem unknown_hash_aborts w c s args :
  Hash c <> "sha1" -> Hash c <> "md5" -> Hash c <> "sha256" ->
  isOk (fst (CalculateDockerfileChecksum w c s)) = false /\
  snd (CalculateDockerfileChecksum w c s) = s /\
  (forall content res,
      ReadFile w (Dockerfile c) = Ok content ->
      parserParse content = Ok res ->
      fst (CalculateDockerfileChecksum w c s)
      = Panic ("unknown hash algorithm " ++ Hash c)%string) /\
  isOk (fst (Cli.handlerRoot w c s args)) = false /\
  snd (Cli.handlerRoot w c s args) = "".
Proof.
  intros H1 H2 H3.
  assert (forall c', Hash c' = Hash c ->
    isOk (fst (CalculateDockerfileChecksum w c' s)) = false /\
    snd (CalculateDockerfileChecksum w c' s) = s /\
    (forall content res,
      ReadFile w (Dockerfile c') = Ok content ->
      parserParse content = Ok res ->
      fst (CalculateDockerfileChecksum w c' s)
      = Panic ("unknown hash algorithm " ++ Hash c)%string)) as Hcalc.
  { intros c' Hc'. unfold CalculateDockerfileChecksum.
    destruct (ReadFile w (Dockerfile c')) as [content|e|p];
      [|by repeat split..].
    destruct (parserParse content) as [res|e|p] eqn:Hparse;
      [|repeat split; try done; intros ?? [= <-]; congruence..].
    rewrite SE_bind_unfold. unfold lift at 1.
    rewrite Hc', (unknown_hash _ H1 H2 H3). by repeat split. }
  destruct (Hcalc c eq_refl) as (Hok & Hst & Hpanic).
  repeat split; try done.
  - unfold Cli.handlerRoot. destruct args as [|arg0 args]; [done|].
    match goal with
    | |- context [CalculateDockerfileChecksum w ?c' s] =>
        destruct (Hcalc c' eq_refl) as (Hok' & _ & _);
        destruct (CalculateDockerfileChecksum w c' s) as [[out|e|p] s']
    end; done.
  - unfold Cli.handlerRoot. destruct args as [|arg0 args]; [done|].
    match goal with
    | |- context [CalculateDockerfileChecksum w ?c' s] =>
        destruct (Hcalc c' eq_refl) as (Hok' & _ & _);
        destruct (CalculateDockerfileChecksum w c' s) as [[out|e|p] s']
    end; done.
Qed.
End unknown_hash.

Lemma unknown_hash_aborts_witness :
  Checksum.Hash (Data.config "sha512") <> "sha1" /\
  Checksum.Hash (Data.config "sha512") <> "md5" /\
  Checksum.Hash (Data.config "sha512") <> "sha256" /\
  fst (@Checksum.CalculateDockerfileChecksum
         (Fixture.collaborators Data.copyFile)
         (Data.world Data.copyFileText) (Data.config "sha512") Data.store)
  = Panic "unknown hash algorithm sha512" /\
  snd (@Checksum.CalculateDockerfileChecksum
         (Fixture.collaborators Data.copyFile)
         (Data.world Data.copyFileText) (Data.config "sha512") Data.store)
  = Data.store /\
  snd (@Cli.handlerRoot (Fixture.collaborators Data.copyFile)
         (Data.world Data.copyFileText) (Data.config "sha512") Data.store ["."])
  = "".
Proof.
  assert (Checksum.Hash (Data.config "sha512") <> "sha1") as H1 by discriminate.
  assert (Checksum.Hash (Data.config "sha512") <> "md5") as H2 by discriminate.
  assert (Checksum.Hash (Data.config "sha512") <> "sha256") as H3 by discriminate.
  do 3 (split; [assumption|]).
  destruct (@unknown_hash_aborts (Fixture.collaborators Data.copyFile)
              (Data.world Data.copyFileText) (Data.config "sha512")
              Data.store ["."] H1 H2 H3) as (_ & Hst & Hpanic & _ & Hout).
  split; [|split; [exact Hst|exact Hout]].
  exact (Hpanic Data.copyFileText (Data.result Data.copyFile) eq_refl eq_refl).
Defined.

(** ** C9 *)

Section unmatched.
Context `{Collaborators}.
Import Checksum.

(** C9.  A pattern for which [fs.Glob] returns no path does not fail and
    writes nothing, and the patterns around it are processed as if it were
    not there. *)
Theorem unmatched_pattern_skipped workdir ps1 p ps2 h :
  Glob workdir (globPattern p) = Ok [] ->
  addPaths workdir [p] h = Ok h /\
  addPaths workdir (ps1 ++ p :: ps2) h = addPaths workdir (ps1 ++ ps2) h.
Proof.
  intros Hglob.
  assert (forall h, addPaths workdir (p :: ps2) h = addPaths workdir ps2 h) as Hp.
  { intros h'. simpl. rewrite relative_pattern. simpl. by rewrite Hglob. }
  split.
  - simpl. rewrite relative_pattern. simpl. by rewrite Hglob.
  - rewrite !addPaths_app. destruct (addPaths workdir ps1 h); try done.
    apply Hp.
Qed.
End unmatched.

Lemma unmatched_pattern_skipped_witness :
  @Glob (Fixture.collaborators Data.copyFile) Data.workdir
    (globPattern "./missing") = Ok [] /\
  @Checksum.addPaths (Fixture.collaborators Data.copyFile) Data.workdir
    ["./missing"] (hash.New hash.SHA1) = Ok (hash.New hash.SHA1) /\
  @Checksum.addPaths (Fixture.collaborators Data.copyFile) Data.workdir
    (["./b"] ++ "./missing" :: ["./c"]) (hash.New hash.SHA1)
  = @Checksum.addPaths (Fixture.collaborators Data.copyFile) Data.workdir
      (["./b"] ++ ["./c"]) (hash.New hash.SHA1).
Proof.
  assert (@Glob (Fixture.collaborators Data.copyFile) Data.workdir
            (globPattern "./missing") = Ok []) as Hglob
      by (vm_compute; reflexivity).
  split; [assumption|].
  exact (@unmatched_pattern_skipped (Fixture.collaborators Data.copyFile)
           Data.workdir ["./b"] "./missing" ["./c"] (hash.New hash.SHA1) Hglob).
Defined.

(** ** C10 *)

Section frame.
Context `{Collaborators}.
Import Checksum.

(** C10.  After a successful [CalculateDockerfileChecksum] the caller's
    build-argument map holds the table the instruction walk left (the
    explicit arguments with the ARG defaults and ENV values added), and
    that table is what is hashed after the paths; the caller's platform
    slice is sorted; no other map or slice of the store has changed. *)
Theorem caller_inputs_mutated w c s out s' :
  CalculateDockerfileChecksum w c s = (Ok out, s') ->
  exists content res a paths t' ps,
    ReadFile w (Dockerfile c) = Ok content /\
    parserParse content = Ok res /\
    newHash (Hash c) = Ok (hash.New a) /\
    PathsFromDockerfile res (loadMap (BuildArgs c) s) = (Ok paths, t') /\
    pathsStream (DirFS w (Workdir c)) paths = Ok ps /\
    loadMap (BuildArgs c) s' = t' /\
    loadSlice (Platforms c) s' = sortStrings (loadSlice (Platforms c) s) /\
    (forall r, r <> BuildArgs c -> maps s' !! r = maps s !! r) /\
    (forall r, r <> Platforms c -> slices s' !! r = slices s !! r) /\
    out = Bits.hexEncode
            (hash.Sum
               (hash.mkHash a
                  (content ++ ps ++ mapStream t' ++
                   sliceStream (loadSlice (Platforms c) s) ++
                   mapStream (if decide (Labels c = BuildArgs c) then t'
                              else loadMap (Labels c) s)))).
Proof.
  intros Hcalc.
  destruct (Calculate_inv w c s out s' Hcalc)
    as (content & res & a & paths & t' & ps & Hread & Hparse & Hhash
        & Hpaths & Hnil & Hps).
  rewrite (Calculate_run w c s content res a paths t' ps) in Hcalc by done.
  injection Hcalc as <- <-.
  exists content, res, a, paths, t', ps.
  do 5 (split; [assumption|]).
  unfold storeAfter, loadMap, loadSlice. simpl.
  split; [|split; [|split; [|split; [|reflexivity]]]].
  - destruct (maps s !! BuildArgs c) eqn:Hmap.
    + by rewrite lookup_insert_eq.
    + rewrite Hmap. simpl. symmetry. by apply Hnil.
  - destruct (slices s !! Platforms c) eqn:Hsl.
    + by rewrite lookup_insert_eq.
    + by rewrite Hsl.
  - intros r Hr. destruct (maps s !! BuildArgs c); [|done].
    by rewrite lookup_insert_ne.
  - intros r Hr. destruct (slices s !! Platforms c); [|done].
    by rewrite lookup_insert_ne.
Qed.
End frame.

Lemma caller_inputs_mutated_witness :
  @Checksum.CalculateDockerfileChecksum (Fixture.collaborators Data.argEnv)
    (Data.world Data.argEnvText) (Data.config "sha256") Data.store
  = (Ok "ea517ce8f8baa532c6e18c805033c8c862910cdd1417d781743ab29e86474e1c",
     mkStore {[ 0 := {["ARG1" := "b"; "X" := "1"; "E" := "v"]};
                1 := {["label1" := "value1"]} ]}
             {[ 2 := ["linux/amd64"; "linux/arm64"] ]}) /\
  loadMap 0 Data.store = {["ARG1" := "b"]} /\
  loadSlice 2 Data.store = ["linux/arm64"; "linux/amd64"] /\
  exists t' : gmap string string,
    snd (@Checksum.PathsFromDockerfile (Fixture.collaborators Data.argEnv)
           (Data.result Data.argEnv) (loadMap 0 Data.store)) = t' /\
    t' = {["ARG1" := "b"; "X" := "1"; "E" := "v"]}.
Proof.
  assert (@Checksum.CalculateDockerfileChecksum
            (Fixture.collaborators Data.argEnv)
            (Data.world Data.argEnvText) (Data.config "sha256") Data.store
          = (Ok "ea517ce8f8baa532c6e18c805033c8c862910cdd1417d781743ab29e86474e1c",
             mkStore {[ 0 := {["ARG1" := "b"; "X" := "1"; "E" := "v"]};
                        1 := {["label1" := "value1"]} ]}
                     {[ 2 := ["linux/amd64"; "linux/arm64"] ]})) as Hcalc
      by (vm_compute; reflexivity).
  split; [assumption|].
  split; [vm_compute; reflexivity|].
  split; [vm_compute; reflexivity|].
  destruct (@caller_inputs_mutated (Fixture.collaborators Data.argEnv)
              _ _ _ _ _ Hcalc)
    as (content & res & a & paths & t' & ps & _ & Hparse & _ & Hpaths & _
        & Ht' & _).
  exists t'. injection Hparse as <-. split.
  - change (AST (Data.result Data.argEnv)) with Data.argEnv in Hpaths.
    exact (f_equal snd Hpaths).
  - rewrite <- Ht'. vm_compute. reflexivity.
Defined.

(** * Further properties of the code *)

(** ** Helper facts *)

Lemma bytesOf_app s1 s2 : bytesOf (s1 ++ s2)%string = bytesOf s1 ++ bytesOf s2.
Proof.
  unfold bytesOf, list_byte_of_string.
  induction s1 as [|c s1 IH]; [done|].
  rewrite append_String. simpl. by rewrite IH.
Qed.

Lemma sortedKeys_singleton k v : Checksum.sortedKeys {[k := v]} = [k].
Proof. unfold Checksum.sortedKeys. by rewrite map_to_list_singleton. Qed.

Lemma mapStream_singleton k v : mapStream {[k := v]} = bytesOf (k ++ v)%string.
Proof.
  unfold mapStream. rewrite sortedKeys_singleton. simpl.
  by rewrite lookup_singleton_eq, app_nil_r, bytesOf_app.
Qed.

Lemma sortStrings_sorted l : StronglySorted strle (sortStrings l).
Proof. apply (sortOn_sorted id). Qed.

Lemma sortStrings_permutation l : sortStrings l ≡ₚ l.
Proof. apply (sortOn_perm id). Qed.

Lemma sortStrings_idemp l : sortStrings (sortStrings l) = sortStrings l.
Proof. apply sortStrings_perm, sortStrings_permutation. Qed.

(** ** The composer's inputs *)

(** X1.  [addMapToHash] writes the keys and the values back to back, with
    nothing between them: what it adds is the hash of the map's stream, and
    two one-entry maps whose key followed by the value read the same (as
    [A=BC] and [AB=C]) leave the accumulator in the same state. *)
Theorem addMapToHash_unseparated h k v k' v' :
  (k ++ v)%string = (k' ++ v')%string ->
  Checksum.addMapToHash h {[k := v]} = WriteString h (k ++ v) /\
  Checksum.addMapToHash h {[k := v]} = Checksum.addMapToHash h {[k' := v']}.
Proof.
  intros Heq.
  rewrite !addMapToHash_stream, !mapStream_singleton, WriteString_Write.
  by rewrite Heq.
Qed.

Lemma addMapToHash_unseparated_witness :
  ("A" ++ "BC")%string = ("AB" ++ "C")%string /\
  Checksum.addMapToHash (hash.New hash.SHA1) {["A" := "BC"]}
  = Checksum.addMapToHash (hash.New hash.SHA1) {["AB" := "C"]}.
Proof.
  assert (("A" ++ "BC")%string = ("AB" ++ "C")%string) as Heq by reflexivity.
  split; [exact Heq|].
  exact (proj2 (addMapToHash_unseparated (hash.New hash.SHA1) "A" "BC" "AB" "C" Heq)).
Defined.

(** X2.  [addSliceToHash] does not depend on the order of the slice it is
    given: two slices with the same elements leave the same accumulator and
    the same, sorted, slice behind. *)
Theorem addSliceToHash_order_irrelevant h s1 s2 :
  s1 ≡ₚ s2 ->
  Checksum.addSliceToHash h s1 = Checksum.addSliceToHash h s2 /\
  StronglySorted strle (snd (Checksum.addSliceToHash h s1)) /\
  snd (Checksum.addSliceToHash h s1) ≡ₚ s1.
Proof.
  intros Hp. unfold Checksum.addSliceToHash. simpl.
  rewrite (sortStrings_perm _ _ Hp). split; [done|].
  split; [apply sortStrings_sorted|].
  by rewrite sortStrings_permutation.
Qed.

Lemma addSliceToHash_order_irrelevant_witness :
  ["linux/arm64"; "linux/amd64"] ≡ₚ ["linux/amd64"; "linux/arm64"] /\
  Checksum.addSliceToHash (hash.New hash.MD5) ["linux/arm64"; "linux/amd64"]
  = Checksum.addSliceToHash (hash.New hash.MD5) ["linux/amd64"; "linux/arm64"].
Proof.
  assert (["linux/arm64"; "linux/amd64"] ≡ₚ ["linux/amd64"; "linux/arm64"])
    as Hp by apply Permutation_swap.
  split; [exact Hp|].
  exact (proj1 (addSliceToHash_order_irrelevant (hash.New hash.MD5) _ _ Hp)).
Defined.

(** ** The tree hashers *)

(** X3.  The library's tree hasher keeps nothing of the shape of a tree: a
    directory leaves the accumulator as a single file at the same path
    would whose content is the directory's stream (the children's paths and
    streams, back to back).  An empty directory leaves it as an empty file
    does. *)
Theorem directory_hashes_as_file_of_its_stream n path s h :
  treeStream n path = Ok s ->
  Checksum.pathShaNode n path h = Checksum.pathShaNode (File s) path h /\
  Checksum.pathShaNode (Dir []) path h = Checksum.pathShaNode (File []) path h.
Proof.
  intros Hs. split.
  - by rewrite !pathShaNode_treeStream, Hs.
  - simpl. by rewrite Write_nil.
Qed.

Lemma directory_hashes_as_file_of_its_stream_witness :
  treeStream Data.oneFileDir "d" = Ok (bytesOf "d/fc") /\
  Checksum.pathShaNode Data.oneFileDir "d" (hash.New hash.SHA1)
  = Checksum.pathShaNode (File (bytesOf "d/fc")) "d" (hash.New hash.SHA1).
Proof.
  assert (treeStream Data.oneFileDir "d" = Ok (bytesOf "d/fc")) as Hs
      by (vm_compute; reflexivity).
  split; [exact Hs|].
  exact (proj1 (directory_hashes_as_file_of_its_stream
                  Data.oneFileDir "d" _ (hash.New hash.SHA1) Hs)).
Defined.

Lemma dirShaLoop_failAlike path (l : list (string * node)) :
  Forall (fun e => forall path h,
            failAlike (Main.pathShaNode (snd e) path)
                      (Checksum.pathShaNode (snd e) path h)) l ->
  forall h1 h2,
    failAlike
      (Main.dirShaLoop path (map (fun e => (fst e, Main.pathShaNode (snd e))) l) h1)
      (Checksum.dirShaLoop path
         (map (fun e => (fst e, Checksum.pathShaNode (snd e))) l) h2).
Proof.
  induction 1 as [|[name child] l Hc _ IH]; intros h1 h2; simpl; [done|].
  specialize (Hc (Join path name) (WriteString h2 (Join path name))).
  simpl in Hc.
  destruct (Main.pathShaNode child (Join path name)) as [d|e|p],
    (Checksum.pathShaNode child (Join path name) _) as [h'|e'|p'];
    simpl in *; try done; first [apply IH | by subst].
Qed.

Lemma pathShaNode_failAlike n :
  forall path h,
    failAlike (Main.pathShaNode n path) (Checksum.pathShaNode n path h).
Proof.
  induction n as [content|entries IH|isDir err|err] using node_nested_ind;
    intros path h; try done.
  - simpl. unfold Main.dirSha, Checksum.dirSha. rewrite !ReadDir_map.
    apply dirShaLoop_failAlike. by rewrite ReadDir_perm.
  - by destruct isDir.
Qed.

(** X4.  The two tree hashers, which return different digests, fail on the
    same paths and with the same error: at every path of every tree the
    command's hasher (an accumulator per directory) and the library's (one
    accumulator) both return normally, or both return the same error. *)
Theorem hashers_fail_alike fsys path h :
  failAlike (Main.pathSha fsys path) (Checksum.pathSha fsys path h).
Proof.
  unfold Main.pathSha, Checksum.pathSha.
  destruct (Stat fsys path) as [n|e|p]; try done.
  apply pathShaNode_failAlike.
Qed.

(** X5.  A directory hashes its children in name order and stops at the
    first that fails: when the children before [name] hash and the child
    [name] fails with [err], the directory fails with [err] wrapped in the
    path of that child, whatever the children after it are. *)
Theorem dirSha_reports_first_failing_child entries path l1 name child l2
    streams err h :
  ReadDir entries = l1 ++ (name, child) :: l2 ->
  Forall2 (fun e s => treeStream (snd e) (Join path (fst e)) = Ok s) l1 streams ->
  treeStream child (Join path name) = Error err ->
  Checksum.pathShaNode (Dir entries) path h
  = Error ("calculating hash for " ++ Join path name ++ ": " ++ err)%string /\
  Main.pathShaNode (Dir entries) path
  = Error ("calculating hash for " ++ Join path name ++ ": " ++ err)%string.
Proof.
  intros Hread Hl1 Hchild.
  assert (forall h, Checksum.pathShaNode (Dir entries) path h
    = Error ("calculating hash for " ++ Join path name ++ ": " ++ err)%string)
    as Hlib.
  { intros h'. simpl. unfold Checksum.dirSha. rewrite ReadDir_map, Hread.
    clear Hread. revert h'.
    induction Hl1 as [|[name' child'] s l1 streams Hs _ IH]; intros h'; simpl.
    - rewrite pathShaNode_treeStream, Hchild. done.
    - rewrite pathShaNode_treeStream. simpl in Hs. rewrite Hs. simpl. apply IH. }
  split; [apply Hlib|].
  pose proof (pathShaNode_failAlike (Dir entries) path h) as Hfail.
  rewrite Hlib in Hfail.
  destruct (Main.pathShaNode (Dir entries) path) as [d|e|p]; try done.
  simpl in Hfail. by subst.
Qed.

Lemma dirSha_reports_first_failing_child_witness :
  ReadDir Cases.unreadable
  = [("a", File (bytesOf "y"))] ++ ("b", Denied false "permission denied")
    :: [("c", File (bytesOf "z"))] /\
  Forall2 (fun e s => treeStream (snd e) (Join "d" (fst e)) = Ok s)
          [("a", File (bytesOf "y"))] [bytesOf "y"] /\
  treeStream (Denied false "permission denied") (Join "d" "b")
  = Error "permission denied" /\
  Checksum.pathShaNode (Dir Cases.unreadable) "d" (hash.New hash.SHA1)
  = Error "calculating hash for d/b: permission denied".
Proof.
  assert (ReadDir Cases.unreadable
          = [("a", File (bytesOf "y"))] ++ ("b", Denied false "permission denied")
            :: [("c", File (bytesOf "z"))]) as Hread by reflexivity.
  assert (Forall2 (fun e s => treeStream (snd e) (Join "d" (fst e)) = Ok s)
                  [("a", File (bytesOf "y"))] [bytesOf "y"]) as Hl1.
  { repeat constructor. }
  assert (treeStream (Denied false "permission denied") (Join "d" "b")
          = Error "permission denied") as Hchild by reflexivity.
  do 3 (split; [assumption|]).
  destruct (dirSha_reports_first_failing_child _ "d" _ "b" _ _ _ _
              (hash.New hash.SHA1) Hread Hl1 Hchild) as [Hlib _].
  etransitivity; [exact Hlib|]. vm_compute. reflexivity.
Defined.

Lemma splitSlash_rooted path :
  isRooted path = true -> "" ∈ splitSlash path.
Proof.
  destruct path as [|c path]; [done|]. simpl.
  intros Hc. rewrite Hc. apply elem_of_cons. by left.
Qed.

Lemma ValidPath_improper path e :
  e ∈ splitSlash path -> proper e = false -> path <> "." ->
  ValidPath path = false.
Proof.
  intros Hin He Hne. unfold ValidPath.
  apply String.eqb_neq in Hne. rewrite Hne. simpl.
  apply not_true_is_false. intros Hall. rewrite forallb_forall in Hall.
  apply list_elem_of_In in Hin. specialize (Hall e Hin).
  fold (proper e) in Hall. congruence.
Qed.

(** X6.  The tree hashers read nothing outside the root of the view: at a
    rooted path, or a path with a [..] element, both return an error chosen
    by the path alone, whatever the tree holds. *)
Theorem paths_outside_the_root_rejected path :
  isRooted path = true \/ ".." ∈ splitSlash path ->
  exists err, forall fsys h,
    Checksum.pathSha fsys path h = Error err /\ Main.pathSha fsys path = Error err.
Proof.
  intros Hout.
  assert (ValidPath path = false) as Hv.
  { destruct Hout as [Hr|Hdd].
    - apply (ValidPath_improper path ""); [by apply splitSlash_rooted|done|].
      intros ->. done.
    - apply (ValidPath_improper path ".."); [done|done|].
      intros ->. simpl in Hdd. apply elem_of_cons in Hdd as [Hdd|Hdd]; [done|].
      by apply elem_of_nil in Hdd. }
  exists "invalid argument". intros fsys h.
  unfold Checksum.pathSha, Main.pathSha, Stat. by rewrite Hv.
Qed.

Lemma paths_outside_the_root_rejected_witness :
  (isRooted "../secret" = true \/ ".." ∈ splitSlash "../secret") /\
  exists err,
    Checksum.pathSha Data.workdir "../secret" (hash.New hash.SHA1) = Error err.
Proof.
  assert (isRooted "../secret" = true \/ ".." ∈ splitSlash "../secret") as Hout.
  { right. simpl. apply elem_of_cons. by left. }
  split; [exact Hout|].
  destruct (paths_outside_the_root_rejected "../secret" Hout) as [err Herr].
  exists err. exact (proj1 (Herr Data.workdir (hash.New hash.SHA1))).
Defined.

(** X7.  The tree hashers as written look every path up from the root of
    the view; on a tree whose names are valid and distinct, what they
    return at a path depends on the path and on the subtree found there
    alone: two views holding the same subtree at [path] give the same
    result, which is that of the recursion on the subtree. *)
Theorem pathSha_local fsys1 fsys2 fuel path n h :
  wellFormed fsys1 = true -> wellFormed fsys2 = true ->
  height fsys1 < fuel -> height fsys2 < fuel ->
  Stat fsys1 path = Ok n -> Stat fsys2 path = Ok n ->
  ByPath.pathSha fuel fsys1 path h = ByPath.pathSha fuel fsys2 path h /\
  ByPath.pathSha fuel fsys1 path h = Checksum.pathShaNode n path h /\
  ByPath.pathShaMain fuel fsys1 path = ByPath.pathShaMain fuel fsys2 path /\
  ByPath.pathShaMain fuel fsys1 path = Main.pathShaNode n path.
Proof.
  intros Hwf1 Hwf2 Hf1 Hf2 Hs1 Hs2.
  destruct (ByPath_pathSha fsys1 fuel path h Hwf1 Hf1) as [-> ->].
  destruct (ByPath_pathSha fsys2 fuel path h Hwf2 Hf2) as [-> ->].
  unfold Checksum.pathSha, Main.pathSha. by rewrite Hs1, Hs2.
Qed.

Lemma pathSha_local_witness :
  wellFormed Data.workdir = true /\ wellFormed Cases.other = true /\
  height Data.workdir < 4 /\ height Cases.other < 4 /\
  Stat Data.workdir "b" = Ok (File (bytesOf "bee")) /\
  Stat Cases.other "b" = Ok (File (bytesOf "bee")) /\
  ByPath.pathSha 4 Data.workdir "b" (hash.New hash.SHA1)
  = ByPath.pathSha 4 Cases.other "b" (hash.New hash.SHA1).
Proof.
  assert (wellFormed Data.workdir = true) as Hwf1 by (vm_compute; reflexivity).
  assert (wellFormed Cases.other = true) as Hwf2 by (vm_compute; reflexivity).
  assert (height Data.workdir < 4) as Hf1 by (vm_compute; lia).
  assert (height Cases.other < 4) as Hf2 by (vm_compute; lia).
  assert (Stat Data.workdir "b" = Ok (File (bytesOf "bee"))) as Hs1
      by (vm_compute; reflexivity).
  assert (Stat Cases.other "b" = Ok (File (bytesOf "bee"))) as Hs2
      by (vm_compute; reflexivity).
  do 6 (split; [assumption|]).
  exact (proj1 (pathSha_local _ _ 4 "b" _ (hash.New hash.SHA1)
                  Hwf1 Hwf2 Hf1 Hf2 Hs1 Hs2)).
Defined.

(** ** The instruction walk *)

Lemma grows_refl t : grows t t.
Proof. by intros key. Qed.

Lemma grows_trans t1 t2 t3 : grows t1 t2 -> grows t2 t3 -> grows t1 t3.
Proof. intros H12 H23 key Hk. by apply H23, H12. Qed.

Lemma setEnv_grows env t : grows t (setEnv env t).
Proof.
  unfold setEnv. revert t. induction env as [|kv env IH]; intros t; simpl.
  - apply grows_refl.
  - eapply grows_trans; [|apply IH]. intros key Hk.
    destruct (decide (fst kv = key)) as [<-|Hne].
    + by rewrite lookup_insert_eq.
    + by rewrite lookup_insert_ne.
Qed.

Section walk_more.
Context `{Collaborators}.
Import Checksum.

Lemma walkCommand_grows res paths cmd t :
  grows t (snd (walkCommand res paths cmd t)).
Proof.
  pose proof (walkCommand_not_env res paths cmd t) as Hne.
  destruct cmd; try (rewrite Hne; apply grows_refl).
  pose proof (Expand_state res (EnvCommand env) t) as Hst.
  pose proof (Expand_kind (expandBuildArgs res) (EnvCommand env) t) as Hkind.
  unfold walkCommand. rewrite SE_bind_unfold. unfold mustSE.
  destruct (Expand _ _ t) as [[cmd'|e|p] t0]; simpl in *; subst;
    try apply grows_refl.
  specialize (Hkind _ _ eq_refl). destruct cmd'; try done.
  rewrite SE_bind_unfold, forEach_setEnv. simpl. apply setEnv_grows.
Qed.

Lemma foldM_walk_grows res cmds paths t :
  grows t (snd (foldM (walkCommand res) paths cmds t)).
Proof.
  revert paths t. induction cmds as [|cmd cmds IH]; intros paths t; simpl.
  - apply grows_refl.
  - rewrite SE_bind_unfold.
    pose proof (walkCommand_grows res paths cmd t) as Hw.
    destruct (walkCommand res paths cmd t) as [[paths'|e|p] t0]; simpl in *;
      try done.
    eapply grows_trans; [exact Hw|apply IH].
Qed.

Lemma foldM_stages_grows res stages paths t :
  grows t (snd (foldM (fun paths stage =>
                         foldM (walkCommand res) paths (Commands stage))
                      paths stages t)).
Proof.
  revert paths t. induction stages as [|stage stages IH]; intros paths t; simpl.
  - apply grows_refl.
  - rewrite SE_bind_unfold.
    pose proof (foldM_walk_grows res (Commands stage) paths t) as Hw.
    destruct (foldM (walkCommand res) paths (Commands stage) t)
      as [[paths'|e|p] t0]; simpl in *; try done.
    eapply grows_trans; [exact Hw|apply IH].
Qed.

Lemma forEach_argDefault_grows args t :
  grows t (snd (forEach args argDefault t)).
Proof.
  destruct (forEach_argDefault args t) as (t1 & -> & Ht1). simpl.
  intros key [v Hv]. rewrite Ht1, Hv. eauto.
Qed.

Lemma PathsFromDockerfile_grows res t :
  grows t (snd (PathsFromDockerfile res t)).
Proof.
  unfold PathsFromDockerfile. rewrite SE_bind_unfold. unfold lift.
  destruct (instructionsParse (AST res)) as [[stages argCommands]|e|p];
    simpl; try apply grows_refl.
  rewrite SE_bind_unfold, forEach_concat.
  pose proof (forEach_argDefault_grows (concat argCommands) t) as Hargs.
  destruct (forEach_argDefault (concat argCommands) t) as (t1 & Hrun & _).
  rewrite Hrun in *. simpl in Hargs. rewrite SE_bind_unfold.
  pose proof (foldM_stages_grows res stages [] t1) as Hst.
  destruct (foldM _ [] stages t1) as [[paths|e|p] t2]; simpl in *;
    by eapply grows_trans.
Qed.

Lemma PathsFromDockerfile_sorted res t paths t' :
  PathsFromDockerfile res t = (Ok paths, t') -> StronglySorted strle paths.
Proof.
  unfold PathsFromDockerfile. rewrite SE_bind_unfold. unfold lift.
  destruct (instructionsParse (AST res)) as [[stages argCommands]|e|p];
    simpl; try done.
  rewrite SE_bind_unfold.
  destruct (forEach _ _ t) as [[[]|e|p] t1]; try done.
  rewrite SE_bind_unfold.
  destruct (foldM _ [] stages t1) as [[paths0|e|p] t2]; try done.
  intros [= <- <-]. apply sortStrings_sorted.
Qed.

Lemma PathsFromDockerfile_not_Error res t err :
  fst (PathsFromDockerfile res t) <> Error err.
Proof.
  unfold PathsFromDockerfile. rewrite SE_bind_unfold. unfold lift.
  destruct (instructionsParse (AST res)) as [[stages argCommands]|e|p];
    simpl; try done.
  rewrite SE_bind_unfold, forEach_concat.
  destruct (forEach_argDefault (concat argCommands) t) as (t1 & -> & _).
  rewrite SE_bind_unfold.
  assert (forall stages paths t,
    fst (foldM (fun paths stage =>
                  foldM (walkCommand res) paths (Commands stage))
               paths stages t) <> Error err) as Hst.
  { clear. intros stages. induction stages as [|stage stages IH];
      intros paths t; simpl; [done|].
    rewrite SE_bind_unfold.
    assert (forall cmds paths t,
      fst (foldM (walkCommand res) paths cmds t) <> Error err) as Hcmds.
    { clear. intros cmds. induction cmds as [|cmd cmds IH];
        intros paths t; simpl; [done|].
      rewrite SE_bind_unfold.
      destruct (walkCommand res paths cmd t) as [[paths'|e|p] t0] eqn:Hw;
        simpl; [apply IH| |done].
      exfalso. revert Hw. unfold walkCommand. rewrite SE_bind_unfold.
      unfold mustSE.
      destruct (Expand _ _ t) as [[cmd'|e'|p'] t1]; simpl; try done.
      destruct cmd'; try done.
      - rewrite SE_bind_unfold, forEach_setEnv. done.
      - by destruct (String.eqb from "").  }
    specialize (Hcmds (Commands stage) paths t).
    destruct (foldM (walkCommand res) paths (Commands stage) t)
      as [[paths'|e|p] t0]; simpl in *; [apply IH|done|done]. }
  specialize (Hst stages [] t1).
  destruct (foldM _ [] stages t1) as [[paths|e|p] t2]; simpl in *; done.
Qed.

(** X8.  On success [PathsFromDockerfile] returns the patterns in
    increasing byte order; and whether it succeeds, fails or panics, the
    table holds afterwards every name it held before: no entry is ever
    deleted. *)
Theorem paths_sorted_table_grows res t :
  (forall paths, fst (PathsFromDockerfile res t) = Ok paths ->
                 StronglySorted strle paths) /\
  (forall key, is_Some (t !! key) ->
               is_Some (snd (PathsFromDockerfile res t) !! key)).
Proof.
  split.
  - intros paths Hp.
    destruct (PathsFromDockerfile res t) as [r t'] eqn:Hrun. simpl in Hp.
    subst r. by eapply PathsFromDockerfile_sorted.
  - apply PathsFromDockerfile_grows.
Qed.

Lemma walkCommand_inert res paths cmd t paths' t' :
  inert cmd = true ->
  walkCommand res paths cmd t = (Ok paths', t') -> paths' = paths /\ t' = t.
Proof.
  intros Hin.
  pose proof (Expand_state res cmd t) as Hst.
  pose proof (Expand_kind (expandBuildArgs res) cmd t) as Hkind.
  unfold walkCommand. rewrite SE_bind_unfold. unfold mustSE.
  destruct (Expand _ _ t) as [[cmd'|e|p] t0]; simpl in *; subst; try done.
  specialize (Hkind _ _ eq_refl).
  destruct cmd, cmd'; simpl in *; try done.
  - by intros [= <- <-].
  - subst. destruct (String.eqb from0 ""); [done|]. by intros [= <- <-].
  - by intros [= <- <-].
Qed.

Lemma walkCommand_escape res res' :
  EscapeToken res' = EscapeToken res -> walkCommand res' = walkCommand res.
Proof.
  intros Hesc. unfold walkCommand, expandBuildArgs. by rewrite Hesc.
Qed.

Lemma foldM_walk_inert res cmds paths t paths' t' :
  foldM (walkCommand res) paths cmds t = (Ok paths', t') ->
  foldM (walkCommand res) paths
        (List.filter (fun cmd => negb (inert cmd)) cmds) t = (Ok paths', t').
Proof.
  revert paths t. induction cmds as [|cmd cmds IH]; intros paths t; [done|].
  simpl. rewrite SE_bind_unfold.
  destruct (walkCommand res paths cmd t) as [[paths0|e|p] t0] eqn:Hw;
    try done.
  intros Hrest. destruct (inert cmd) eqn:Hin; simpl.
  - destruct (walkCommand_inert _ _ _ _ _ _ Hin Hw) as [-> ->]. by apply IH.
  - rewrite SE_bind_unfold, Hw. by apply IH.
Qed.

Lemma foldM_stages_inert res stages paths t paths' t' :
  foldM (fun paths stage => foldM (walkCommand res) paths (Commands stage))
        paths stages t = (Ok paths', t') ->
  foldM (fun paths stage => foldM (walkCommand res) paths (Commands stage))
        paths (map active stages) t = (Ok paths', t').
Proof.
  revert paths t. induction stages as [|stage stages IH]; intros paths t;
    [done|].
  simpl. rewrite !SE_bind_unfold.
  destruct (foldM (walkCommand res) paths (Commands stage) t)
    as [[paths0|e|p] t0] eqn:Hw; try done.
  intros Hrest. rewrite (foldM_walk_inert _ _ _ _ _ _ Hw). by apply IH.
Qed.

(** X9.  An instruction the walk has no case for (an ARG inside a stage,
    WORKDIR, CMD, ...) and a COPY with [--from] contribute no pattern and
    leave the table alone: when the walk of a recipe succeeds, the walk of
    the recipe without these instructions returns the same patterns and
    leaves the same table. *)
Theorem inert_instructions_contribute_nothing res res' stages argCommands
    t paths t' :
  instructionsParse (AST res) = Ok (stages, argCommands) ->
  instructionsParse (AST res') = Ok (map active stages, argCommands) ->
  EscapeToken res' = EscapeToken res ->
  PathsFromDockerfile res t = (Ok paths, t') ->
  PathsFromDockerfile res' t = (Ok paths, t').
Proof.
  intros Hparse Hparse' Hesc.
  destruct (forEach_argDefault (concat argCommands) t) as (t1 & Hrun & _).
  rewrite (PathsFromDockerfile_unfold _ _ _ _ _ Hparse Hrun).
  rewrite (PathsFromDockerfile_unfold _ _ _ _ _ Hparse' Hrun).
  rewrite (walkCommand_escape res res' Hesc). cbv zeta.
  destruct (foldM _ [] stages t1) as [[paths0|e|p] t2] eqn:Hw; try done.
  simpl. intros [= <- <-].
  by rewrite (foldM_stages_inert _ _ _ _ _ _ Hw).
Qed.
End walk_more.

Lemma paths_sorted_table_grows_witness :
  fst (@Checksum.PathsFromDockerfile (Fixture.collaborators Data.testdata)
         (Data.result Data.testdata) {["ARG1" := "b"]})
  = Ok ["./a/*"; "./b"; "./c"; "./d"; "./dist"] /\
  StronglySorted strle ["./a/*"; "./b"; "./c"; "./d"; "./dist"] /\
  is_Some (({["ARG1" := "b"]} : gmap string string) !! "ARG1") /\
  is_Some (snd (@Checksum.PathsFromDockerfile
                  (Fixture.collaborators Data.testdata)
                  (Data.result Data.testdata) {["ARG1" := "b"]}) !! "ARG1").
Proof.
  assert (fst (@Checksum.PathsFromDockerfile
                 (Fixture.collaborators Data.testdata)
                 (Data.result Data.testdata) {["ARG1" := "b"]})
          = Ok ["./a/*"; "./b"; "./c"; "./d"; "./dist"]) as Hrun
      by (vm_compute; reflexivity).
  assert (is_Some (({["ARG1" := "b"]} : gmap string string) !! "ARG1")) as Hkey
      by (vm_compute; eauto).
  destruct (@paths_sorted_table_grows (Fixture.collaborators Data.testdata)
              (Data.result Data.testdata) {["ARG1" := "b"]}) as [Hsorted Hgrows].
  split; [exact Hrun|]. split; [exact (Hsorted _ Hrun)|].
  split; [exact Hkey|exact (Hgrows _ Hkey)].
Defined.

Lemma inert_instructions_contribute_nothing_witness :
  @instructionsParse (Fixture.collaborators Data.testdata)
    (AST (Data.result Data.testdata)) = Ok Data.testdata /\
  @instructionsParse (Fixture.collaborators Data.testdata)
    (AST (Data.result (map active (fst Data.testdata), snd Data.testdata)))
  = Ok (map active (fst Data.testdata), snd Data.testdata) /\
  EscapeToken (Data.result (map active (fst Data.testdata), snd Data.testdata))
  = EscapeToken (Data.result Data.testdata) /\
  @Checksum.PathsFromDockerfile (Fixture.collaborators Data.testdata)
    (Data.result Data.testdata) {["ARG1" := "b"]}
  = (Ok ["./a/*"; "./b"; "./c"; "./d"; "./dist"],
     {["ARG1" := "b"; "ENV1" := "d"]}) /\
  map Commands (map active (fst Data.testdata))
  = [[RunCommand [mkMount MountTypeBind "" "./dist" "/app/dist";
                  mkMount MountTypeCache "" "" "/go/pkg/mod"]];
     [EnvCommand [("ENV1", "d")];
      RunCommand [mkMount MountTypeBind "builder" "/etc/tmp" "/app/dist"];
      CopyCommand "" ["./a/*"] "/app";
      CopyCommand "" ["./${ARG1}"] "/app";
      AddCommand ["./c"] "/app";
      CopyCommand "" ["./${ENV1}"] "/app"]] /\
  @Checksum.PathsFromDockerfile (Fixture.collaborators Data.testdata)
    (Data.result (map active (fst Data.testdata), snd Data.testdata))
    {["ARG1" := "b"]}
  = (Ok ["./a/*"; "./b"; "./c"; "./d"; "./dist"],
     {["ARG1" := "b"; "ENV1" := "d"]}).
Proof.
  assert (@Checksum.PathsFromDockerfile (Fixture.collaborators Data.testdata)
            (Data.result Data.testdata) {["ARG1" := "b"]}
          = (Ok ["./a/*"; "./b"; "./c"; "./d"; "./dist"],
             {["ARG1" := "b"; "ENV1" := "d"]})) as Hrun
      by (vm_compute; reflexivity).
  split; [reflexivity|]. split; [reflexivity|]. split; [reflexivity|].
  split; [exact Hrun|]. split; [reflexivity|].
  exact (@inert_instructions_contribute_nothing
           (Fixture.collaborators Data.testdata)
           (Data.result Data.testdata)
           (Data.result (map active (fst Data.testdata), snd Data.testdata))
           (fst Data.testdata) (snd Data.testdata) _ _ _
           eq_refl eq_refl eq_refl Hrun).
Defined.

(** ** Failures of the composer *)

Lemma pathSha_failure workdir file h h' :
  failAlike (Checksum.pathSha workdir file h) (Checksum.pathSha workdir file h').
Proof.
  rewrite !pathSha_stream.
  by destruct (match Stat workdir file with Ok _ => _ | _ => _ end).
Qed.

Section failures.
Context `{Collaborators}.
Import Checksum.

Lemma addFiles_failure workdir files h :
  match addFiles workdir files h with
  | Ok _ => True
  | Error _ => False
  | Panic msg =>
      exists file, file ∈ files /\
        forall h', must (pathSha workdir file h') = Panic msg
  end.
Proof.
  revert h. induction files as [|file files IH]; intros h; simpl; [done|].
  destruct (pathSha workdir file (WriteString h file)) as [h1|e|p] eqn:Hsha;
    simpl.
  - specialize (IH h1). destruct (addFiles workdir files h1); try done.
    destruct IH as (file' & Hin & Hfail). exists file'.
    split; [by apply elem_of_cons; right|done].
  - exists file. split; [by apply elem_of_cons; left|]. intros h'.
    pose proof (pathSha_failure workdir file (WriteString h file) h') as Hf.
    rewrite Hsha in Hf. destruct (pathSha workdir file h'); try done.
    simpl in *. by subst.
  - exists file. split; [by apply elem_of_cons; left|]. intros h'.
    pose proof (pathSha_failure workdir file (WriteString h file) h') as Hf.
    rewrite Hsha in Hf. destruct (pathSha workdir file h'); try done.
    simpl in *. by subst.
Qed.

Lemma addPaths_not_Error workdir paths h err :
  addPaths workdir paths h <> Error err.
Proof.
  revert h. induction paths as [|path paths IH]; intros h; simpl; [done|].
  rewrite relative_pattern. simpl.
  destruct (Glob workdir (globPattern path)) as [files|e|p]; simpl;
    try done.
  pose proof (addFiles_failure workdir files h) as Hfiles.
  destruct (addFiles workdir files h) as [h1|e|p]; simpl;
    first [done | apply IH].
Qed.

(** X10.  The loop of [CalculateDockerfileChecksum] over the extracted
    patterns never returns an error, and [filepath.Rel] is never what
    stops it: it panics only with what [fs.Glob] failed with on the
    cleaned pattern, or with what [pathSha] failed with on one of the
    matches. *)
Theorem addPaths_failure_source workdir paths h :
  match addPaths workdir paths h with
  | Ok _ => True
  | Error _ => False
  | Panic msg =>
      exists path, path ∈ paths /\
        (must (Glob workdir (globPattern path)) = Panic msg \/
         exists files file,
           Glob workdir (globPattern path) = Ok files /\ file ∈ files /\
           forall h', must (pathSha workdir file h') = Panic msg)
  end.
Proof.
  revert h. induction paths as [|path paths IH]; intros h; simpl; [done|].
  rewrite relative_pattern. simpl.
  destruct (Glob workdir (globPattern path)) as [files|e|p] eqn:Hglob; simpl.
  - pose proof (addFiles_failure workdir files h) as Hfiles.
    destruct (addFiles workdir files h) as [h1|e|p]; simpl; try done.
    + specialize (IH h1). destruct (addPaths workdir paths h1); try done.
      destruct IH as (path' & Hin & Hfail). exists path'.
      split; [by apply elem_of_cons; right|done].
    + destruct Hfiles as (file & Hin & Hfail). exists path.
      split; [by apply elem_of_cons; left|].
      right. exists files, file. rewrite Hglob. done.
  - exists path. split; [by apply elem_of_cons; left|].
    left. by rewrite Hglob.
  - exists path. split; [by apply elem_of_cons; left|].
    left. by rewrite Hglob.
Qed.

Lemma newHash_not_Error name err : newHash name <> Error err.
Proof. unfold newHash. by repeat case_match. Qed.

Lemma withMap_frame {A} r (m : SE (gmap string string) A) s :
  slices (snd (withMap r m s)) = slices s /\
  forall r', r' <> r -> maps (snd (withMap r m s)) !! r' = maps s !! r'.
Proof.
  unfold withMap. destruct (maps s !! r) as [t|].
  - destruct (m t) as [a t']. simpl. split; [done|].
    intros r' Hr. by rewrite lookup_insert_ne.
  - destruct (m ∅) as [a t']. by destruct (decide (t' = ∅)).
Qed.

Lemma withMap_not_Error r res s err :
  fst (withMap r (PathsFromDockerfile res) s) <> Error err.
Proof.
  unfold withMap. destruct (maps s !! r) as [t|].
  - pose proof (PathsFromDockerfile_not_Error res t err) as Hne.
    by destruct (PathsFromDockerfile res t).
  - pose proof (PathsFromDockerfile_not_Error res ∅ err) as Hne.
    destruct (PathsFromDockerfile res ∅) as [a t'].
    by destruct (decide (t' = ∅)).
Qed.

(** [CalculateDockerfileChecksum] once the recipe is read and parsed and
    the accumulator made. *)
Lemma Calculate_unfold w c s content res h0 :
  ReadFile w (Dockerfile c) = Ok content ->
  parserParse content = Ok res ->
  newHash (Hash c) = Ok h0 ->
  CalculateDockerfileChecksum w c s =
  match withMap (BuildArgs c) (PathsFromDockerfile res) s with
  | (Ok paths, s1) =>
      match addPaths (DirFS w (Workdir c)) paths (hash.Write h0 content) with
      | Ok h1 =>
          let h2 := addMapToHash h1 (loadMap (BuildArgs c) s1) in
          let r := withSlice (Platforms c) (addSliceToHash h2) s1 in
          (match fst r with
           | Ok h3 =>
               Ok (Bits.hexEncode
                     (hash.Sum (addMapToHash h3 (loadMap (Labels c) (snd r)))))
           | Error e => Error e
           | Panic p => Panic p
           end, snd r)
      | Error e => (Error e, s1)
      | Panic p => (Panic p, s1)
      end
  | (Error e, s1) => (Error e, s1)
  | (Panic p, s1) => (Panic p, s1)
  end.
Proof.
  intros Hread Hparse Hhash. unfold CalculateDockerfileChecksum.
  rewrite Hread, Hparse, SE_bind_unfold. unfold lift at 1. rewrite Hhash.
  cbv zeta. rewrite debug_hash, SE_bind_unfold.
  destruct (withMap (BuildArgs c) (PathsFromDockerfile res) s)
    as [[paths|e|p] s1]; try done.
  rewrite SE_bind_unfold. unfold lift at 1.
  destruct (addPaths _ paths _) as [h1|e|p]; try done.
  cbv [mbind SE_bind fmap SE_fmap mret SE_ret get].
  destruct (withSlice _ _ s1) as [[h3|e|p] s2]; done.
Qed.

Lemma withSlice_addSliceToHash r h s :
  withSlice r (addSliceToHash h) s =
  (Ok (fold_left WriteString (sortStrings (loadSlice r s)) h),
   mkStore (maps s)
           (match slices s !! r with
            | Some l => <[r := sortStrings l]> (slices s)
            | None => slices s
            end)).
Proof.
  unfold withSlice, addSliceToHash, loadSlice.
  destruct (slices s !! r) as [l|]; simpl; [done|]. by destruct s.
Qed.

(** X11.  [CalculateDockerfileChecksum] returns an error in two cases
    only, the recipe that cannot be read and the recipe that cannot be
    parsed, with the cause wrapped in [read dockerfile] or
    [parse dockerfile], and then the caller's maps and slices are as they
    were.  Every other failure is a panic. *)
Theorem errors_are_read_or_parse w c s err :
  fst (CalculateDockerfileChecksum w c s) = Error err ->
  snd (CalculateDockerfileChecksum w c s) = s /\
  ((exists e, ReadFile w (Dockerfile c) = Error e /\
              err = ("read dockerfile: " ++ e)%string) \/
   (exists content e,
       ReadFile w (Dockerfile c) = Ok content /\
       parserParse content = Error e /\
       err = ("parse dockerfile: " ++ e)%string)).
Proof.
  destruct (ReadFile w (Dockerfile c)) as [content|e|p] eqn:Hread.
  2: { unfold CalculateDockerfileChecksum. rewrite Hread. simpl.
       intros [= <-]. split; [done|]. left. by exists e. }
  2: { unfold CalculateDockerfileChecksum. by rewrite Hread. }
  destruct (parserParse content) as [res|e|p] eqn:Hparse.
  2: { unfold CalculateDockerfileChecksum. rewrite Hread, Hparse. simpl.
       intros [= <-]. split; [done|]. right. by exists content, e. }
  2: { unfold CalculateDockerfileChecksum. by rewrite Hread, Hparse. }
  destruct (newHash (Hash c)) as [h0|e|p] eqn:Hhash.
  2: { by apply newHash_not_Error in Hhash. }
  2: { unfold CalculateDockerfileChecksum.
       rewrite Hread, Hparse, SE_bind_unfold. unfold lift at 1.
       by rewrite Hhash. }
  rewrite (Calculate_unfold w c s content res h0) by done.
  pose proof (withMap_not_Error (BuildArgs c) res s) as Hwalk.
  destruct (withMap (BuildArgs c) (PathsFromDockerfile res) s)
    as [[paths|e|p] s1]; simpl in *; try done.
  - pose proof (addPaths_not_Error (DirFS w (Workdir c)) paths
                  (hash.Write h0 content)) as Hadd.
    destruct (addPaths _ paths _) as [h1|e|p]; simpl; try done.
    + by rewrite withSlice_addSliceToHash.
    + intros [= <-]. by destruct (Hadd e).
  - intros [= <-]. by destruct (Hwalk e).
Qed.

(** X12.  When [CalculateDockerfileChecksum] does not return a checksum,
    the caller's platform slice is as it was (it is sorted only once the
    paths are hashed), and so is every map but the build arguments, which
    keep what the walk wrote before the failure and lose no entry. *)
Theorem failure_leaves_platforms w c s :
  isOk (fst (CalculateDockerfileChecksum w c s)) = false ->
  slices (snd (CalculateDockerfileChecksum w c s)) = slices s /\
  (forall r, r <> BuildArgs c ->
             maps (snd (CalculateDockerfileChecksum w c s)) !! r = maps s !! r) /\
  grows (loadMap (BuildArgs c) s)
        (loadMap (BuildArgs c) (snd (CalculateDockerfileChecksum w c s))).
Proof.
  assert (forall res,
    grows (loadMap (BuildArgs c) s)
          (loadMap (BuildArgs c)
             (snd (withMap (BuildArgs c) (PathsFromDockerfile res) s))))
    as Hgrows.
  { intros res. unfold withMap, loadMap.
    destruct (maps s !! BuildArgs c) as [t|] eqn:Hmap; simpl.
    - pose proof (PathsFromDockerfile_grows res t) as Hg.
      destruct (PathsFromDockerfile res t) as [a t']. simpl in *.
      by rewrite lookup_insert_eq.
    - destruct (PathsFromDockerfile res ∅) as [a t'].
      destruct (decide (t' = ∅)); simpl; rewrite Hmap; apply grows_refl. }
  destruct (ReadFile w (Dockerfile c)) as [content|e|p] eqn:Hread.
  2,3: unfold CalculateDockerfileChecksum; rewrite Hread; simpl;
       intros _; repeat split; try done; apply grows_refl.
  destruct (parserParse content) as [res|e|p] eqn:Hparse.
  2,3: unfold CalculateDockerfileChecksum; rewrite Hread, Hparse; simpl;
       intros _; repeat split; try done; apply grows_refl.
  destruct (newHash (Hash c)) as [h0|e|p] eqn:Hhash.
  2,3: unfold CalculateDockerfileChecksum;
       rewrite Hread, Hparse, SE_bind_unfold; unfold lift at 1;
       rewrite Hhash; simpl;
       intros _; repeat split; try done; apply grows_refl.
  rewrite (Calculate_unfold w c s content res h0) by done.
  destruct (withMap_frame (BuildArgs c) (PathsFromDockerfile res) s)
    as [Hsl Hmaps].
  specialize (Hgrows res).
  destruct (withMap (BuildArgs c) (PathsFromDockerfile res) s)
    as [[paths|e|p] s1]; simpl in *; try done.
  destruct (addPaths _ paths _) as [h1|e|p]; simpl; try done.
  by rewrite withSlice_addSliceToHash.
Qed.

Lemma firstDefault_is_Some arg args :
  arg ∈ args -> argValue arg <> None ->
  is_Some (firstDefault (argKey arg) args).
Proof.
  intros Hin Hv. induction args as [|a args IH];
    [by apply elem_of_nil in Hin|].
  rewrite firstDefault_cons.
  destruct (String.eqb (argKey a) (argKey arg) && bool_decide (argValue a ≠ None))
    eqn:Ha.
  - apply andb_prop in Ha as [_ Ha]. apply bool_decide_eq_true in Ha.
    by destruct (argValue a).
  - apply elem_of_cons in Hin as [->|Hin]; [|by apply IH].
    rewrite String.eqb_refl, bool_decide_eq_true_2 in Ha by done. done.
Qed.

(** X13.  With a nil build-argument map (the zero [Config]) and a recipe
    that declares, before the first stage, an ARG with a default value,
    [CalculateDockerfileChecksum] panics on the assignment to the nil map,
    whatever else the recipe and the working directory hold. *)
Theorem nil_build_args_panic w c s content res h0 stages argCommands arg :
  maps s !! BuildArgs c = None ->
  ReadFile w (Dockerfile c) = Ok content ->
  parserParse content = Ok res ->
  newHash (Hash c) = Ok h0 ->
  instructionsParse (AST res) = Ok (stages, argCommands) ->
  arg ∈ concat argCommands ->
  argValue arg <> None ->
  CalculateDockerfileChecksum w c s
  = (Panic "assignment to entry in nil map", s).
Proof.
  intros Hnil Hread Hparse Hhash Hinstr Hin Hv.
  rewrite (Calculate_unfold w c s content res h0) by done.
  unfold withMap. rewrite Hnil.
  destruct (forEach_argDefault (concat argCommands) ∅) as (t1 & Hrun & Ht1).
  rewrite (PathsFromDockerfile_unfold _ _ _ _ _ Hinstr Hrun). cbv zeta.
  pose proof (foldM_stages_grows res stages [] t1) as Hg.
  destruct (foldM _ [] stages t1) as [r t'] eqn:Hwalk. simpl in *.
  assert (is_Some (t' !! argKey arg)) as [v Ht'].
  { apply Hg. rewrite Ht1, lookup_empty. by apply firstDefault_is_Some. }
  rewrite decide_False; [done|].
  intros ->. by rewrite lookup_empty in Ht'.
Qed.
End failures.

Lemma errors_are_read_or_parse_witness :
  fst (@Checksum.CalculateDockerfileChecksum
         (Fixture.collaborators Data.copyFile)
         (Data.world Data.copyFileText)
         (Checksum.mkConfig 0 1 2 "missing" "." "sha1" false) Data.store)
  = Error "read dockerfile: open: no such file or directory" /\
  snd (@Checksum.CalculateDockerfileChecksum
         (Fixture.collaborators Data.copyFile)
         (Data.world Data.copyFileText)
         (Checksum.mkConfig 0 1 2 "missing" "." "sha1" false) Data.store)
  = Data.store.
Proof.
  assert (fst (@Checksum.CalculateDockerfileChecksum
                 (Fixture.collaborators Data.copyFile)
                 (Data.world Data.copyFileText)
                 (Checksum.mkConfig 0 1 2 "missing" "." "sha1" false) Data.store)
          = Error "read dockerfile: open: no such file or directory") as Herr
      by (vm_compute; reflexivity).
  split; [exact Herr|].
  exact (proj1 (@errors_are_read_or_parse (Fixture.collaborators Data.copyFile)
                  _ _ _ _ Herr)).
Defined.

Lemma failure_leaves_platforms_witness :
  isOk (fst (@Checksum.CalculateDockerfileChecksum
               (Fixture.collaborators Cases.badWord)
               (Data.world Cases.badWordText) (Data.config "sha1") Data.store))
  = false /\
  slices (snd (@Checksum.CalculateDockerfileChecksum
                 (Fixture.collaborators Cases.badWord)
               (Data.world Cases.badWordText) (Data.config "sha1") Data.store))
  = {[ 2 := ["linux/arm64"; "linux/amd64"] ]} /\
  loadMap 0 (snd (@Checksum.CalculateDockerfileChecksum
                 (Fixture.collaborators Cases.badWord)
               (Data.world Cases.badWordText) (Data.config "sha1") Data.store))
  = {["ARG1" := "b"; "X" := "1"; "E" := "v"]}.
Proof.
  assert (isOk (fst (@Checksum.CalculateDockerfileChecksum
               (Fixture.collaborators Cases.badWord)
               (Data.world Cases.badWordText) (Data.config "sha1") Data.store))
          = false) as Hfail by (vm_compute; reflexivity).
  split; [exact Hfail|].
  destruct (@failure_leaves_platforms _ _ _ _ Hfail) as (Hsl & _ & _).
  split; [exact Hsl|]. vm_compute. reflexivity.
Defined.

Lemma nil_build_args_panic_witness :
  maps (mkStore ∅ ∅) !! 0 = None /\
  ReadFile (Data.world Cases.metaArgText) "Dockerfile" = Ok Cases.metaArgText /\
  @parserParse (Fixture.collaborators Data.metaArg) Cases.metaArgText
  = Ok (Data.result Data.metaArg) /\
  Checksum.newHash "sha1" = Ok (hash.New hash.SHA1) /\
  @instructionsParse (Fixture.collaborators Data.metaArg)
    (AST (Data.result Data.metaArg))
  = Ok (fst Data.metaArg, snd Data.metaArg) /\
  mkArg "X" (Some "1") ∈ concat (snd Data.metaArg) /\
  argValue (mkArg "X" (Some "1")) <> None /\
  @Checksum.CalculateDockerfileChecksum (Fixture.collaborators Data.metaArg)
    (Data.world Cases.metaArgText) (Data.config "sha1") (mkStore ∅ ∅)
  = (Panic "assignment to entry in nil map", mkStore ∅ ∅).
Proof.
  assert (maps (mkStore ∅ ∅) !! 0 = None) as Hnil by reflexivity.
  assert (ReadFile (Data.world Cases.metaArgText) "Dockerfile"
          = Ok Cases.metaArgText) as Hread by reflexivity.
  assert (@parserParse (Fixture.collaborators Data.metaArg) Cases.metaArgText
          = Ok (Data.result Data.metaArg)) as Hparse by reflexivity.
  assert (Checksum.newHash "sha1" = Ok (hash.New hash.SHA1)) as Hhash
      by reflexivity.
  assert (@instructionsParse (Fixture.collaborators Data.metaArg)
            (AST (Data.result Data.metaArg))
          = Ok (fst Data.metaArg, snd Data.metaArg)) as Hinstr by reflexivity.
  assert (mkArg "X" (Some "1") ∈ concat (snd Data.metaArg)) as Hin.
  { simpl. apply elem_of_cons. by left. }
  assert (argValue (mkArg "X" (Some "1")) <> None) as Hv by discriminate.
  do 7 (split; [assumption|]).
  exact (@nil_build_args_panic (Fixture.collaborators Data.metaArg)
           (Data.world Cases.metaArgText) (Data.config "sha1") (mkStore ∅ ∅)
           _ _ _ _ _ _ Hnil Hread Hparse Hhash Hinstr Hin Hv).
Defined.

(** ** The shape of the checksum *)

Lemma encodeLE_length w x : length (Bits.encodeLE w x) = w.
Proof. revert x. induction w as [|w IH]; intros x; simpl; [done|]. by rewrite IH. Qed.

Lemma encodeBE_length w x : length (Bits.encodeBE w x) = w.
Proof. unfold Bits.encodeBE. by rewrite length_rev, encodeLE_length. Qed.

Lemma concat_encode_length (enc : Z -> list Z) w (l : list Z) :
  (forall x, length (enc x) = w) -> length (concat (map enc l)) = length l * w.
Proof.
  intros Henc. induction l as [|x l IH]; simpl; [done|].
  rewrite length_app, Henc, IH. lia.
Qed.

Lemma fold_block_length (block : list Z -> list Z -> list Z) n blocks h :
  (forall h blk, length h = n -> length (block h blk) = n) ->
  length h = n -> length (fold_left block blocks h) = n.
Proof.
  intros Hblock. revert h. induction blocks as [|blk blocks IH]; intros h Hh;
    simpl; [done|]. by apply IH, Hblock.
Qed.

Lemma Sha1_round_length st wt :
  length (fst st) = 5 -> length (fst (Sha1.round st wt)) = 5.
Proof. destruct st as [s t]. unfold Sha1.round. by repeat case_match. Qed.

Lemma Sha1_rounds_length w st :
  length (fst st) = 5 -> length (fst (fold_left Sha1.round w st)) = 5.
Proof.
  revert st. induction w as [|wt w IH]; intros st Hst; simpl; [done|].
  by apply IH, Sha1_round_length.
Qed.

Lemma Sha1_block_length h blk :
  length h = 5 -> length (Sha1.block h blk) = 5.
Proof.
  intros Hh. unfold Sha1.block.
  rewrite length_map, length_zip_with, Sha1_rounds_length by done. lia.
Qed.

Lemma Sha1_Sum_length msg : length (Sha1.Sum msg) = 20.
Proof.
  unfold Sha1.Sum, Sha1.sumZ.
  rewrite length_map, (concat_encode_length _ 4) by apply encodeBE_length.
  by rewrite (fold_block_length _ 5) by (apply Sha1_block_length || done).
Qed.

Lemma Md5_round_length m st ks :
  length (fst st) = 4 -> length (fst (Md5.round m st ks)) = 4.
Proof.
  destruct st as [s t], ks as [k sh]. unfold Md5.round. by repeat case_match.
Qed.

Lemma Md5_rounds_length m l st :
  length (fst st) = 4 -> length (fst (fold_left (Md5.round m) l st)) = 4.
Proof.
  revert st. induction l as [|ks l IH]; intros st Hst; simpl; [done|].
  by apply IH, Md5_round_length.
Qed.

Lemma Md5_block_length h blk :
  length h = 4 -> length (Md5.block h blk) = 4.
Proof.
  intros Hh. unfold Md5.block.
  rewrite length_map, length_zip_with, Md5_rounds_length by done. lia.
Qed.

Lemma Md5_Sum_length msg : length (Md5.Sum msg) = 16.
Proof.
  unfold Md5.Sum, Md5.sumZ.
  rewrite length_map, (concat_encode_length _ 4) by apply encodeLE_length.
  by rewrite (fold_block_length _ 4) by (apply Md5_block_length || done).
Qed.

Lemma Sha256_rounds_length l s :
  length s = 8 -> length (fold_left Sha256.round l s) = 8.
Proof.
  revert s. induction l as [|[k wt] l IH]; intros s Hs; simpl; [done|].
  by apply IH.
Qed.

Lemma Sha256_block_length h blk :
  length h = 8 -> length (Sha256.block h blk) = 8.
Proof.
  intros Hh. unfold Sha256.block.
  rewrite length_map, length_zip_with, Sha256_rounds_length by done. lia.
Qed.

Lemma Sha256_Sum_length msg : length (Sha256.Sum msg) = 32.
Proof.
  unfold Sha256.Sum, Sha256.sumZ.
  rewrite length_map, (concat_encode_length _ 4) by apply encodeBE_length.
  rewrite (fold_block_length _ 8); [done|apply Sha256_block_length|].
  vm_compute. reflexivity.
Qed.

Lemma Sum_Size h : length (hash.Sum h) = Size (hash.algorithm h).
Proof.
  unfold hash.Sum. destruct (hash.algorithm h); simpl.
  - apply Sha1_Sum_length.
  - apply Md5_Sum_length.
  - apply Sha256_Sum_length.
Qed.

Lemma hexEncode_length bs : String.length (Bits.hexEncode bs) = 2 * length bs.
Proof. induction bs as [|b bs IH]; simpl; [done|]. rewrite IH. lia. Qed.

Lemma hexDigits_lower b :
  isLowerHex (Bits.hexDigit (Z.shiftr (Bits.byteZ b) 4)) = true /\
  isLowerHex (Bits.hexDigit (Z.land (Bits.byteZ b) 15)) = true.
Proof. destruct b; vm_compute; done. Qed.

Lemma hexEncode_lower bs :
  forallb isLowerHex (list_ascii_of_string (Bits.hexEncode bs)) = true.
Proof.
  induction bs as [|b bs IH]; [done|].
  destruct (hexDigits_lower b) as [Hhi Hlo].
  cbn [Bits.hexEncode list_ascii_of_string forallb].
  by rewrite Hhi, Hlo, IH.
Qed.

Section shape.
Context `{Collaborators}.
Import Checksum.

(** X14.  A checksum that [CalculateDockerfileChecksum] returns is written
    in the digits [0-9a-f], two for every byte of the digest: 40
    characters with [sha1], 32 with [md5], 64 with [sha256]. *)
Theorem checksum_is_lower_hex w c s out s' :
  CalculateDockerfileChecksum w c s = (Ok out, s') ->
  exists a,
    newHash (Hash c) = Ok (hash.New a) /\
    String.length out = 2 * Size a /\
    forallb isLowerHex (list_ascii_of_string out) = true.
Proof.
  intros Hcalc.
  destruct (Calculate_inv w c s out s' Hcalc)
    as (content & res & a & paths & t' & ps & Hread & Hparse & Hhash
        & Hpaths & Hnil & Hps).
  rewrite (Calculate_run w c s content res a paths t' ps) in Hcalc by done.
  injection Hcalc as <- <-.
  exists a. split; [done|].
  rewrite hexEncode_length, Sum_Size. split; [done|]. apply hexEncode_lower.
Qed.
End shape.

Lemma checksum_is_lower_hex_witness :
  @Checksum.CalculateDockerfileChecksum (Fixture.collaborators Data.copyFile)
    (Data.world Data.copyFileText) (Data.config "md5") Data.store
  = (Ok "f9fe780e4b8b0785a396fd972e1f4c40",
     mkStore {[ 0 := {["ARG1" := "b"]}; 1 := {["label1" := "value1"]} ]}
             {[ 2 := ["linux/amd64"; "linux/arm64"] ]}) /\
  String.length "f9fe780e4b8b0785a396fd972e1f4c40" = 32.
Proof.
  assert (@Checksum.CalculateDockerfileChecksum
            (Fixture.collaborators Data.copyFile)
            (Data.world Data.copyFileText) (Data.config "md5") Data.store
          = (Ok "f9fe780e4b8b0785a396fd972e1f4c40",
             mkStore {[ 0 := {["ARG1" := "b"]}; 1 := {["label1" := "value1"]} ]}
                     {[ 2 := ["linux/amd64"; "linux/arm64"] ]})) as Hcalc
      by (vm_compute; reflexivity).
  split; [exact Hcalc|].
  destruct (@checksum_is_lower_hex (Fixture.collaborators Data.copyFile)
              _ _ _ _ _ Hcalc) as (a & Hhash & Hlen & _).
  injection Hhash as <-. exact Hlen.
Defined.

(** ** Calling again on a configuration already used *)

Lemma sliceStream_sorted l : sliceStream (sortStrings l) = sliceStream l.
Proof. unfold sliceStream. by rewrite sortStrings_idemp. Qed.

Lemma storeAfter_idemp c t' s :
  storeAfter c t' (storeAfter c t' s) = storeAfter c t' s.
Proof.
  unfold storeAfter. simpl. f_equal.
  - destruct (maps s !! Checksum.BuildArgs c) eqn:Hm.
    + by rewrite lookup_insert_eq, insert_insert_eq.
    + by rewrite Hm.
  - destruct (slices s !! Checksum.Platforms c) eqn:Hs.
    + by rewrite lookup_insert_eq, insert_insert_eq, sortStrings_idemp.
    + by rewrite Hs.
Qed.

Section again.
Context `{Collaborators}.
Import Checksum.

Lemma forEach_argDefault_idemp args t t1 :
  forEach args argDefault t = (Ok tt, t1) ->
  forEach args argDefault t1 = (Ok tt, t1).
Proof.
  intros Hrun.
  destruct (forEach_argDefault args t) as (t1' & Hrun' & Ht1).
  rewrite Hrun in Hrun'. injection Hrun' as <-.
  destruct (forEach_argDefault args t1) as (t2 & Hrun2 & Ht2).
  rewrite Hrun2. f_equal. apply map_eq. intros key.
  rewrite Ht2. destruct (t1 !! key) eqn:Hk; [done|].
  rewrite Ht1 in Hk. by destruct (t !! key).
Qed.

Lemma PathsFromDockerfile_again res stages argCommands t paths t' :
  instructionsParse (AST res) = Ok (stages, argCommands) ->
  noEnv stages = true ->
  PathsFromDockerfile res t = (Ok paths, t') ->
  PathsFromDockerfile res t' = (Ok paths, t').
Proof.
  intros Hparse Hnoenv.
  destruct (forEach_argDefault (concat argCommands) t) as (t1 & Hrun & _).
  rewrite (PathsFromDockerfile_unfold _ _ _ _ _ Hparse Hrun). cbv zeta.
  pose proof (foldM_stages_no_env res stages [] t1 Hnoenv) as Hst.
  destruct (foldM _ [] stages t1) as [r t2] eqn:Hwalk. simpl in *. subst t2.
  destruct r as [paths0|e|p]; try done. simpl. intros [= <- <-].
  rewrite (PathsFromDockerfile_unfold _ _ _ _ _ Hparse
             (forEach_argDefault_idemp _ _ _ Hrun)).
  cbv zeta. by rewrite Hwalk.
Qed.

(** X15.  For a recipe without ENV instructions, a second call of
    [CalculateDockerfileChecksum] with the same configuration, on the
    build-argument map and the platform slice as the first call left
    them, returns the same checksum and changes nothing more. *)
Theorem second_call_same_checksum w c s out s' content res stages argCommands :
  ReadFile w (Dockerfile c) = Ok content ->
  parserParse content = Ok res ->
  instructionsParse (AST res) = Ok (stages, argCommands) ->
  noEnv stages = true ->
  CalculateDockerfileChecksum w c s = (Ok out, s') ->
  CalculateDockerfileChecksum w c s' = (Ok out, s').
Proof.
  intros Hread Hparse Hinstr Hnoenv Hcalc.
  destruct (Calculate_inv w c s out s' Hcalc)
    as (content' & res' & a & paths & t' & ps & Hread' & Hparse' & Hhash
        & Hpaths & Hnil & Hps).
  rewrite Hread in Hread'. injection Hread' as <-.
  rewrite Hparse in Hparse'. injection Hparse' as <-.
  rewrite (Calculate_run w c s content res a paths t' ps) in Hcalc by done.
  injection Hcalc as <- <-.
  pose proof (PathsFromDockerfile_again _ _ _ _ _ _ Hinstr Hnoenv Hpaths)
    as Hagain.
  assert (loadMap (BuildArgs c) (storeAfter c t' s) = t') as Hload.
  { unfold loadMap, storeAfter. simpl.
    destruct (maps s !! BuildArgs c) eqn:Hm.
    - by rewrite lookup_insert_eq.
    - rewrite Hm. simpl. symmetry. by apply Hnil. }
  assert (maps (storeAfter c t' s) !! BuildArgs c = None -> t' = ∅) as Hnil'.
  { unfold storeAfter. simpl. destruct (maps s !! BuildArgs c) eqn:Hm.
    - by rewrite lookup_insert_eq.
    - intros _. by apply Hnil. }
  rewrite (Calculate_run w c (storeAfter c t' s) content res a paths t' ps);
    try done; [|by rewrite Hload].
  rewrite storeAfter_idemp. f_equal. do 4 f_equal.
  assert (loadSlice (Platforms c) (storeAfter c t' s)
          = sortStrings (loadSlice (Platforms c) s)) as ->.
  { unfold loadSlice, storeAfter. simpl.
    destruct (slices s !! Platforms c) eqn:Hsl.
    - by rewrite lookup_insert_eq.
    - by rewrite Hsl. }
  rewrite sliceStream_sorted. do 3 f_equal.
  destruct (decide (Labels c = BuildArgs c)) as [Heq|Hne]; [done|].
  unfold loadMap, storeAfter. simpl.
  destruct (maps s !! BuildArgs c); [|done].
  by rewrite lookup_insert_ne.
Qed.
End again.

Lemma second_call_same_checksum_witness :
  ReadFile (Data.world Cases.metaArgText) "Dockerfile" = Ok Cases.metaArgText /\
  @parserParse (Fixture.collaborators Data.metaArg) Cases.metaArgText
  = Ok (Data.result Data.metaArg) /\
  @instructionsParse (Fixture.collaborators Data.metaArg)
    (AST (Data.result Data.metaArg)) = Ok (fst Data.metaArg, snd Data.metaArg) /\
  noEnv (fst Data.metaArg) = true /\
  @Checksum.CalculateDockerfileChecksum (Fixture.collaborators Data.metaArg)
    (Data.world Cases.metaArgText) (Data.config "sha1") Data.store
  = (Ok "a45a201981af9088b5199371d24fb3daad849421", Cases.storeMetaArg) /\
  @Checksum.CalculateDockerfileChecksum (Fixture.collaborators Data.metaArg)
    (Data.world Cases.metaArgText) (Data.config "sha1")
    Cases.storeMetaArg
  = (Ok "a45a201981af9088b5199371d24fb3daad849421", Cases.storeMetaArg).
Proof.
  assert (@Checksum.CalculateDockerfileChecksum
            (Fixture.collaborators Data.metaArg)
            (Data.world Cases.metaArgText) (Data.config "sha1") Data.store
          = (Ok "a45a201981af9088b5199371d24fb3daad849421", Cases.storeMetaArg))
    as Hcalc
      by (vm_compute; reflexivity).
  split; [reflexivity|]. split; [reflexivity|]. split; [reflexivity|].
  split; [reflexivity|]. split; [exact Hcalc|].
  exact (@second_call_same_checksum (Fixture.collaborators Data.metaArg)
           (Data.world Cases.metaArgText) (Data.config "sha1") Data.store _ _
           Cases.metaArgText (Data.result Data.metaArg)
           (fst Data.metaArg) (snd Data.metaArg)
           eq_refl eq_refl eq_refl eq_refl Hcalc).
Defined.

(** The hypothesis on ENV is needed: with [COPY ./${E} /app] before
    [ENV E=b], the first call expands the source with [E] unset and leaves
    [E=b] in the caller's map, and the second call expands it to [./b]. *)
Example second_call_after_env :
  exists out1 s1 out2 s2,
    @Checksum.CalculateDockerfileChecksum (Fixture.collaborators Cases.envLate)
      (Data.world Cases.envLateText) (Data.config "sha1") Data.store
    = (Ok out1, s1) /\
    @Checksum.CalculateDockerfileChecksum (Fixture.collaborators Cases.envLate)
      (Data.world Cases.envLateText) (Data.config "sha1") s1
    = (Ok out2, s2) /\
    out1 = "ef32ba47c02ec64bddb02bc60deaa91efc6513f7" /\
    out2 = "f8016bb44daf5e1187e73478bae9d7f9213e7dd3".
Proof.
  eexists _, _, _, _.
  split; [vm_compute; reflexivity|].
  split; [vm_compute; reflexivity|].
  split; reflexivity.
Qed.

(** ** The command with the library inlined *)

Section inline.
Context `{Collaborators}.
Import Checksum.

(** X16.  The command with the library's functions inlined (third
    revision) and the command over the library (second revision) print the
    same: given the same recipe, working directory, hash name, build
    arguments, platforms and labels, both print the same checksum, or both
    fail and print nothing. *)
Theorem inline_command_prints_library_checksum w flags c s args :
  maps s !! BuildArgs c = Some (Inline.buildArg flags) ->
  Labels c <> BuildArgs c ->
  loadMap (Labels c) s = Inline.label flags ->
  loadSlice (Platforms c) s = Inline.platform flags ->
  Dockerfile c = Inline.file flags ->
  Hash c = Inline.hash flags ->
  snd (Inline.handlerRoot w flags args) = snd (Cli.handlerRoot w c s args) /\
  isOk (fst (Inline.handlerRoot w flags args))
  = isOk (fst (Cli.handlerRoot w c s args)).
Proof.
  intros Hargs Hne Hlabels Hplat Hfile Hhash.
  unfold Inline.handlerRoot, Cli.handlerRoot.
  destruct args as [|arg0 args].
  { destruct (ReadFile w (Inline.file flags)) as [content|e|p]; simpl;
      try done.
    by destruct (parserParse content). }
  set (c' := mkConfig _ _ _ _ arg0 _ _).
  destruct (ReadFile w (Inline.file flags)) as [content|e|p] eqn:Hread.
  2,3: unfold CalculateDockerfileChecksum; simpl;
       rewrite Hfile, Hread; done.
  destruct (parserParse content) as [res|e|p] eqn:Hparse.
  2,3: unfold CalculateDockerfileChecksum; simpl;
       rewrite Hfile, Hread, Hparse; done.
  destruct (newHash (Inline.hash flags)) as [h0|e|p] eqn:Hnew.
  2,3: unfold CalculateDockerfileChecksum; simpl;
       rewrite Hfile, Hread, Hparse, SE_bind_unfold; unfold lift at 1;
       simpl; rewrite Hhash, Hnew; done.
  rewrite (Calculate_unfold w c' s content res h0);
    [|by simpl; rewrite Hfile|done|by simpl; rewrite Hhash].
  subst c'. simpl. rewrite Hparse. simpl.
  rewrite (debug_hash (mkConfig 0 0 0 "" "" "" (Inline.debug flags))).
  unfold withMap, Inline.pathsFromDockerfile. rewrite Hargs.
  destruct (PathsFromDockerfile res (Inline.buildArg flags))
    as [[paths|e|p] t']; simpl; try done.
  destruct (addPaths (DirFS w arg0) paths (hash.Write h0 content))
    as [h1|e|p]; simpl; try done.
  rewrite withSlice_addSliceToHash. simpl.
  unfold Inline.addSliceToHash, Inline.addMapToHash, addSliceToHash.
  simpl.
  assert (loadMap (BuildArgs c)
            {| maps := <[BuildArgs c := t']> (maps s); slices := slices s |}
          = t') as ->.
  { unfold loadMap. simpl. by rewrite lookup_insert_eq. }
  assert (loadSlice (Platforms c)
            {| maps := <[BuildArgs c := t']> (maps s); slices := slices s |}
          = Inline.platform flags) as ->.
  { by rewrite <- Hplat. }
  match goal with
  | |- context [loadMap (Labels c) ?s'] =>
      assert (loadMap (Labels c) s' = Inline.label flags) as ->
  end.
  { rewrite <- Hlabels. unfold loadMap. simpl. by rewrite lookup_insert_ne. }
  done.
Qed.
End inline.

Lemma inline_command_prints_library_checksum_witness :
  maps Data.store !! 0 = Some (Inline.buildArg (Cases.flags "sha256")) /\
  1 <> 0 /\
  loadMap 1 Data.store = Inline.label (Cases.flags "sha256") /\
  loadSlice 2 Data.store = Inline.platform (Cases.flags "sha256") /\
  "Dockerfile" = Inline.file (Cases.flags "sha256") /\
  "sha256" = Inline.hash (Cases.flags "sha256") /\
  snd (@Inline.handlerRoot (Fixture.collaborators Data.argEnv)
         (Data.world Data.argEnvText) (Cases.flags "sha256") ["."])
  = "ea517ce8f8baa532c6e18c805033c8c862910cdd1417d781743ab29e86474e1c" /\
  snd (@Cli.handlerRoot (Fixture.collaborators Data.argEnv)
         (Data.world Data.argEnvText) (Data.config "sha256") Data.store ["."])
  = "ea517ce8f8baa532c6e18c805033c8c862910cdd1417d781743ab29e86474e1c".
Proof.
  assert (maps Data.store !! 0 = Some (Inline.buildArg (Cases.flags "sha256")))
    as Hargs by (vm_compute; reflexivity).
  assert (1 <> 0) as Hne by lia.
  assert (loadMap 1 Data.store = Inline.label (Cases.flags "sha256"))
    as Hlabels by (vm_compute; reflexivity).
  assert (loadSlice 2 Data.store = Inline.platform (Cases.flags "sha256"))
    as Hplat by (vm_compute; reflexivity).
  assert ("Dockerfile" = Inline.file (Cases.flags "sha256")) as Hfile
      by reflexivity.
  assert ("sha256" = Inline.hash (Cases.flags "sha256")) as Hhash
      by reflexivity.
  assert (snd (@Inline.handlerRoot (Fixture.collaborators Data.argEnv)
                 (Data.world Data.argEnvText) (Cases.flags "sha256") ["."])
          = "ea517ce8f8baa532c6e18c805033c8c862910cdd1417d781743ab29e86474e1c")
    as Hout by (vm_compute; reflexivity).
  do 6 (split; [assumption|]). split; [exact Hout|].
  destruct (@inline_command_prints_library_checksum
              (Fixture.collaborators Data.argEnv)
              (Data.world Data.argEnvText) (Cases.flags "sha256")
              (Data.config "sha256") Data.store ["."]
              Hargs Hne Hlabels Hplat Hfile Hhash) as [Hsame _].
  etransitivity; [symmetry; exact Hsame|exact Hout].
Defined.

(** ** The logging side *)

Lemma LoggingHash_writes chunks :
  forall l,
    Logging.Hash (fold_left Logging.Write chunks l)
    = hash.Write (Logging.Hash l) (concat chunks) /\
    Logging.logger (fold_left Logging.Write chunks l)
    = Logging.logger l ++
      map (fun p => Logging.mkEntry "add to hash"
                      [Logging.mkAttr "md5" (Bits.hexEncode (Md5.Sum p))])
          chunks.
Proof.
  induction chunks as [|p chunks IH]; intros l; simpl.
  - by rewrite Write_nil, app_nil_r.
  - destruct (IH (Logging.Write l p)) as [-> ->]. simpl.
    by rewrite Write_Write, <- app_assoc.
Qed.

(** X17.  The logging wrapper of the debug mode changes nothing of the
    digest: whatever the chunks the bytes arrive in, the wrapped hash holds
    the bytes written and returns the digest of the plain hash, and the
    logger has received one call per [Write], with the MD5 of the chunk in
    hexadecimal. *)
Theorem logging_hash_transparent h log chunks :
  Logging.Hash (fold_left Logging.Write chunks (Logging.newHashWithLog h log))
  = fold_left hash.Write chunks h /\
  Logging.Sum (fold_left Logging.Write chunks (Logging.newHashWithLog h log))
  = hash.Sum (hash.Write h (concat chunks)) /\
  Logging.logger (fold_left Logging.Write chunks (Logging.newHashWithLog h log))
  = log ++ map (fun p => Logging.mkEntry "add to hash"
                           [Logging.mkAttr "md5" (Bits.hexEncode (Md5.Sum p))])
               chunks.
Proof.
  destruct (LoggingHash_writes chunks (Logging.newHashWithLog h log))
    as [Hh Hl].
  unfold Logging.Sum. rewrite Hh, Hl. simpl. repeat split.
  clear. revert h. induction chunks as [|p chunks IH]; intros h; simpl.
  - by rewrite Write_nil.
  - by rewrite <- IH, Write_Write.
Qed.

Lemma StronglySorted_map_key {A} (key : A -> string) (g : string -> A) l :
  (forall k, key (g k) = k) ->
  StronglySorted strle l -> StronglySorted (keyle key) (map g l).
Proof.
  intros Hk. induction 1 as [|x l Hl IH Hx]; simpl; constructor; [done|].
  apply Forall_forall. intros y Hy. apply list_elem_of_In in Hy.
  apply in_map_iff in Hy as (k & <- & Hin).
  unfold keyle. rewrite !Hk. rewrite Forall_forall in Hx.
  by apply Hx, list_elem_of_In.
Qed.

(** X18.  [mapToAttr] lists every entry of the map once, as the attribute
    of its key and value, in increasing order of the keys. *)
Theorem mapToAttr_lists_entries (m : gmap string string) :
  Logging.mapToAttr m
  ≡ₚ map (fun kv => Logging.mkAttr (fst kv) (snd kv)) (map_to_list m) /\
  StronglySorted (keyle Logging.Key) (Logging.mapToAttr m) /\
  length (Logging.mapToAttr m) = size m.
Proof.
  unfold Logging.mapToAttr, Checksum.sortedKeys.
  split; [|split].
  - rewrite sortStrings_permutation, map_map.
    erewrite map_ext_in; [done|].
    intros [k v] Hin. simpl. apply list_elem_of_In in Hin.
    apply elem_of_map_to_list in Hin. by rewrite Hin.
  - apply StronglySorted_map_key; [done|apply sortStrings_sorted].
  - rewrite length_map, sortStrings_permutation, length_map.
    by rewrite length_map_to_list.
Qed.

(** ** The pattern handed to the glob matcher *)

Lemma globPattern_relative p :
  forallb proper (splitSlash p) = true -> globPattern ("./" ++ p) = p.
Proof.
  intros Hp. destruct (proper_not_rooted p Hp) as [_ Hne].
  unfold globPattern.
  assert (HasPrefix ("./" ++ p) "./" = true) as -> by (by destruct p).
  unfold Clean. change (isRooted ("./" ++ p)) with false. cbv iota.
  assert (splitSlash ("./" ++ p) = "." :: splitSlash p) as ->.
  { change ("./" ++ p)%string with (String "." (String "/" p)).
    cbn [splitSlash].
    change (Ascii.eqb "." "/") with false.
    change (Ascii.eqb "/" "/") with true. done. }
  cbn [cleanElems].
  change (String.eqb "." "" || String.eqb "." ".") with true. cbv iota.
  rewrite cleanElems_proper by done. simpl.
  rewrite concat_splitSlash. apply String.eqb_neq in Hne. by rewrite Hne.
Qed.

Section pattern.
Context `{Collaborators}.
Import Checksum.

(** X19.  A pattern [./p] whose elements are plain names is handed to
    [fs.Glob] as [p]; a pattern that does not start with [./] is handed
    over as it is. *)
Theorem relative_pattern_stripped workdir p q h :
  forallb proper (splitSlash p) = true ->
  HasPrefix q "./" = false ->
  addPaths workdir ["./" ++ p]%string h
  = (files ← must (Glob workdir p); addFiles workdir files h) /\
  addPaths workdir [q] h
  = (files ← must (Glob workdir q); addFiles workdir files h).
Proof.
  intros Hp Hq. cbn [addPaths]. rewrite !relative_pattern.
  rewrite (globPattern_relative p Hp).
  unfold globPattern. rewrite Hq. simpl. split.
  - destruct (Glob workdir p) as [files|e|m]; simpl; try done.
    by destruct (addFiles workdir files h).
  - destruct (Glob workdir q) as [files|e|m]; simpl; try done.
    by destruct (addFiles workdir files h).
Qed.
End pattern.

Lemma relative_pattern_stripped_witness :
  forallb proper (splitSlash "a/1") = true /\
  HasPrefix "b" "./" = false /\
  @Checksum.addPaths (Fixture.collaborators Data.copyFile) Data.workdir
    ["./a/1"] (hash.New hash.SHA1)
  = Ok (hash.mkHash hash.SHA1 (bytesOf "a/1" ++ bytesOf "uno")).
Proof.
  assert (forallb proper (splitSlash "a/1") = true) as Hp by reflexivity.
  assert (HasPrefix "b" "./" = false) as Hq by reflexivity.
  do 2 (split; [assumption|]).
  destruct (@relative_pattern_stripped (Fixture.collaborators Data.copyFile)
              Data.workdir "a/1" "b" (hash.New hash.SHA1) Hp Hq) as [Hrel _].
  etransitivity; [exact Hrel|]. vm_compute. reflexivity.
Defined.

(** ** The first revision of the command *)

Lemma Main_dirShaLoop_size path children h d :
  Main.dirShaLoop path children h = Ok d ->
  length d = Size (hash.algorithm h).
Proof.
  revert h. induction children as [|[name childSha] children IH]; intros h;
    simpl.
  - intros [= <-]. apply Sum_Size.
  - destruct (childSha (Join path name)) as [childHash|e|p]; try done.
    intros Hrest. by apply IH in Hrest.
Qed.

(** X20.  What the first revision's tree hasher returns for a path is
    always a SHA-1 digest, 20 bytes, for a file and for a directory of any
    size alike. *)
Theorem first_revision_digest_size fsys path d :
  Main.pathSha fsys path = Ok d -> length d = 20.
Proof.
  unfold Main.pathSha. destruct (Stat fsys path) as [n|e|p]; try done.
  destruct n as [content|entries|[] err|err]; simpl; try done.
  - intros [= <-]. apply (Sum_Size (hash.Write (hash.New hash.SHA1) content)).
  - unfold Main.dirSha. intros Hd. by apply Main_dirShaLoop_size in Hd.
Qed.

Lemma first_revision_digest_size_witness :
  Main.pathSha Data.workdir "c"
  = Ok (Sha1.Sum (bytesOf "c/1" ++
                  Sha1.Sum (bytesOf "c/1/1" ++ Sha1.Sum (bytesOf "one")))) /\
  length (Sha1.Sum (bytesOf "c/1" ++
                    Sha1.Sum (bytesOf "c/1/1" ++ Sha1.Sum (bytesOf "one")))) = 20.
Proof.
  assert (Main.pathSha Data.workdir "c"
          = Ok (Sha1.Sum (bytesOf "c/1" ++
                  Sha1.Sum (bytesOf "c/1/1" ++ Sha1.Sum (bytesOf "one")))))
    as Hd by (vm_compute; reflexivity).
  split; [exact Hd|].
  exact (first_revision_digest_size Data.workdir "c" _ Hd).
Defined.

Section first_revision.
Context `{Collaborators}.

Lemma Main_addFiles_digests workdir files h :
  Main.addFiles workdir files h = hash.Write h <$> filesDigests workdir files.
Proof.
  revert h. induction files as [|file files IH]; intros h; simpl.
  - by rewrite Write_nil.
  - destruct (Main.pathSha workdir file) as [d|e|p]; simpl; try done.
    rewrite IH. destruct (filesDigests workdir files); simpl; try done.
    by rewrite WriteString_Write, !Write_Write.
Qed.

Lemma Main_addPaths_digests workdir paths h :
  Main.addPaths workdir paths h = hash.Write h <$> pathsDigests workdir paths.
Proof.
  revert h. induction paths as [|path paths IH]; intros h; simpl.
  - by rewrite Write_nil.
  - rewrite relative_pattern. simpl.
    destruct (Glob workdir (globPattern path)) as [files|e|p]; simpl;
      try done.
    rewrite Main_addFiles_digests.
    destruct (filesDigests workdir files); simpl; try done.
    rewrite IH. destruct (pathsDigests workdir paths); simpl; try done.
    by rewrite Write_Write.
Qed.

(** X21.  The first revision of the command prints the SHA-1, in
    hexadecimal, of: the recipe's bytes; for every pattern in sorted order
    and every match of it, the match's path and then the 20-byte digest
    its tree hasher returns for the match; the pairs of the table the walk
    left, by sorted key; the sorted platforms; the label pairs by sorted
    key. *)
Theorem first_revision_composition w flags arg0 args content res paths t' ds :
  ReadFile w (Main.file flags) = Ok content ->
  parserParse content = Ok res ->
  Checksum.PathsFromDockerfile res (Main.buildArg flags) = (Ok paths, t') ->
  pathsDigests (DirFS w arg0) paths = Ok ds ->
  Main.handlerRoot w flags (arg0 :: args)
  = (Ok tt,
     Bits.hexEncode
       (Sha1.Sum (content ++ ds ++ mapStream t' ++
                  sliceStream (Main.platform flags) ++
                  mapStream (Main.label flags)))).
Proof.
  intros Hread Hparse Hpaths Hds. unfold Main.handlerRoot.
  rewrite Hread. simpl. rewrite Hparse. simpl.
  unfold Main.pathsFromDockerfile. rewrite Hpaths. simpl.
  rewrite Main_addPaths_digests, Hds. simpl.
  rewrite !addMapToHash_stream, fold_WriteString, !Write_Write.
  unfold hash.Sum, hash.Write, hash.New, sliceStream. simpl.
  by rewrite <- ?app_assoc.
Qed.
End first_revision.

Lemma first_revision_composition_witness :
  ReadFile (Data.world Data.copyFileText) (Main.file Data.flags)
  = Ok Data.copyFileText /\
  @parserParse (Fixture.collaborators Data.copyFile) Data.copyFileText
  = Ok (Data.result Data.copyFile) /\
  @Checksum.PathsFromDockerfile (Fixture.collaborators Data.copyFile)
    (Data.result Data.copyFile) (Main.buildArg Data.flags)
  = (Ok ["./b"], {["ARG1" := "b"]}) /\
  @pathsDigests (Fixture.collaborators Data.copyFile) Data.workdir ["./b"]
  = Ok (bytesOf "b" ++ Sha1.Sum (bytesOf "bee")) /\
  @Main.handlerRoot (Fixture.collaborators Data.copyFile)
    (Data.world Data.copyFileText) Data.flags ["."]
  = (Ok tt, "4e199136ab375aeac94780c4d13a14b875b50e4a").
Proof.
  assert (ReadFile (Data.world Data.copyFileText) (Main.file Data.flags)
          = Ok Data.copyFileText) as Hread by reflexivity.
  assert (@parserParse (Fixture.collaborators Data.copyFile) Data.copyFileText
          = Ok (Data.result Data.copyFile)) as Hparse by reflexivity.
  assert (@Checksum.PathsFromDockerfile (Fixture.collaborators Data.copyFile)
            (Data.result Data.copyFile) (Main.buildArg Data.flags)
          = (Ok ["./b"], {["ARG1" := "b"]})) as Hpaths
      by (vm_compute; reflexivity).
  assert (@pathsDigests (Fixture.collaborators Data.copyFile) Data.workdir ["./b"]
          = Ok (bytesOf "b" ++ Sha1.Sum (bytesOf "bee"))) as Hds
      by (vm_compute; reflexivity).
  do 4 (split; [assumption|]).
  etransitivity;
    [exact (@first_revision_composition (Fixture.collaborators Data.copyFile)
              (Data.world Data.copyFileText) Data.flags "." [] _ _ _ _ _
              Hread Hparse Hpaths Hds)|].
  vm_compute. reflexivity.
Defined.

(** ** The order of the instructions *)

Lemma foldM_app {S A B} (body : B -> A -> SE S B) b l1 l2 s :
  foldM body b (l1 ++ l2) s = (foldM body b l1 ≫= fun b' => foldM body b' l2) s.
Proof.
  revert b s. induction l1 as [|x l1 IH]; intros b s; simpl.
  - by rewrite SE_bind_unfold.
  - rewrite !SE_bind_unfold.
    destruct (body b x s) as [[b'|e|p] s'];
      first [done | by rewrite IH, SE_bind_unfold].
Qed.

Lemma fold_mounts_app (mounts : list Mount) paths acc :
  fold_left
    (fun paths mount =>
       if String.eqb (mountFrom mount) "" &&
          bool_decide (mountType mount = MountTypeBind)
       then paths ++ [mountSource mount] else paths)
    mounts (paths ++ acc)
  = paths ++
    fold_left
      (fun paths mount =>
         if String.eqb (mountFrom mount) "" &&
            bool_decide (mountType mount = MountTypeBind)
         then paths ++ [mountSource mount] else paths)
      mounts acc.
Proof.
  revert acc. induction mounts as [|m mounts IH]; intros acc; simpl; [done|].
  destruct (String.eqb (mountFrom m) "" && bool_decide (mountType m = MountTypeBind)).
  - by rewrite <- IH, <- app_assoc.
  - apply IH.
Qed.

Section order_of_instructions.
Context `{Collaborators}.
Import Checksum.

Lemma walkCommand_from_nil res paths cmd t :
  walkCommand res paths cmd t
  = ((fun ps => paths ++ ps) <$> fst (walkCommand res [] cmd t),
     snd (walkCommand res [] cmd t)).
Proof.
  unfold walkCommand. rewrite !SE_bind_unfold. unfold mustSE.
  destruct (Expand _ _ t) as [[cmd'|e|p] t0]; simpl; try done.
  destruct cmd'; simpl.
  - by rewrite app_nil_r.
  - rewrite !SE_bind_unfold, forEach_setEnv. simpl. by rewrite app_nil_r.
  - destruct (String.eqb from ""); simpl; [done|]. by rewrite app_nil_r.
  - done.
  - rewrite <- (app_nil_r paths) at 1. by rewrite fold_mounts_app.
  - by rewrite app_nil_r.
Qed.

Lemma foldM_stages_instructions res stages paths t :
  foldM (fun paths stage => foldM (walkCommand res) paths (Commands stage))
        paths stages t
  = foldM (walkCommand res) paths (instructionsOf stages) t.
Proof.
  unfold instructionsOf.
  revert paths t. induction stages as [|stage stages IH]; intros paths t;
    simpl; [done|].
  rewrite foldM_app, !SE_bind_unfold.
  destruct (foldM (walkCommand res) paths (Commands stage) t)
    as [[paths'|e|p] t']; try done.
Qed.

Lemma walk_succeeds res cmds paths t paths' t' :
  forallb (fun cmd => negb (isEnv cmd)) cmds = true ->
  foldM (walkCommand res) paths cmds t = (Ok paths', t') ->
  Forall (fun cmd => isOk (fst (walkCommand res [] cmd t)) = true) cmds.
Proof.
  revert paths. induction cmds as [|cmd cmds IH]; intros paths Hne;
    [constructor|].
  simpl in Hne. apply andb_prop in Hne as [Hcmd Hne].
  simpl. rewrite SE_bind_unfold, walkCommand_from_nil.
  pose proof (walkCommand_not_env res [] cmd t) as Hst.
  destruct (walkCommand res [] cmd t) as [[ps|e|p] t0] eqn:Hw; simpl;
    try done.
  assert (t0 = t) as -> by (destruct cmd; simpl in *; congruence).
  intros Hrest. constructor; [by rewrite Hw|]. by eapply IH.
Qed.

Lemma walk_contributions res cmds paths t :
  forallb (fun cmd => negb (isEnv cmd)) cmds = true ->
  Forall (fun cmd => isOk (fst (walkCommand res [] cmd t)) = true) cmds ->
  foldM (walkCommand res) paths cmds t
  = (Ok (paths ++ concat (map (contribution res t) cmds)), t).
Proof.
  intros Hne Hall. revert paths Hne.
  induction Hall as [|cmd cmds Hcmd _ IH]; intros paths Hne; simpl.
  - by rewrite app_nil_r.
  - simpl in Hne. apply andb_prop in Hne as [Hnecmd Hne].
    rewrite SE_bind_unfold, walkCommand_from_nil.
    pose proof (walkCommand_not_env res [] cmd t) as Hst.
    unfold contribution at 1.
    destruct (walkCommand res [] cmd t) as [[ps|e|p] t0]; simpl in *;
      try done.
    assert (t0 = t) as -> by (destruct cmd; simpl in *; congruence).
    rewrite IH by done. by rewrite <- app_assoc.
Qed.

(** X22.  Without ENV instructions the order of the instructions of a
    recipe does not matter to the patterns extracted from it: two recipes
    with the same ARGs before the first stage and the same instructions,
    in any order and in any division into stages, give the same patterns
    and leave the same table. *)
Theorem instruction_order_irrelevant_without_env res1 res2 stages1 stages2
    argCommands t paths t' :
  instructionsParse (AST res1) = Ok (stages1, argCommands) ->
  instructionsParse (AST res2) = Ok (stages2, argCommands) ->
  EscapeToken res2 = EscapeToken res1 ->
  noEnv stages1 = true ->
  instructionsOf stages1 ≡ₚ instructionsOf stages2 ->
  PathsFromDockerfile res1 t = (Ok paths, t') ->
  PathsFromDockerfile res2 t = (Ok paths, t').
Proof.
  intros Hparse1 Hparse2 Hesc Hnoenv Hperm.
  destruct (forEach_argDefault (concat argCommands) t) as (t1 & Hrun & _).
  rewrite (PathsFromDockerfile_unfold _ _ _ _ _ Hparse1 Hrun).
  rewrite (PathsFromDockerfile_unfold _ _ _ _ _ Hparse2 Hrun).
  rewrite (walkCommand_escape res1 res2 Hesc). cbv zeta.
  rewrite !foldM_stages_instructions.
  assert (forallb (fun cmd => negb (isEnv cmd)) (instructionsOf stages1) = true)
    as Hne1.
  { unfold noEnv in Hnoenv. unfold instructionsOf.
    clear -Hnoenv. induction stages1 as [|stage stages IH]; [done|].
    simpl in *. apply andb_prop in Hnoenv as [Hst Hrest].
    rewrite forallb_app, Hst. by apply IH. }
  assert (forallb (fun cmd => negb (isEnv cmd)) (instructionsOf stages2) = true)
    as Hne2.
  { rewrite forallb_forall in Hne1. apply forallb_forall. intros cmd Hin.
    apply Hne1. apply list_elem_of_In. rewrite Hperm.
    by apply list_elem_of_In. }
  destruct (foldM (walkCommand res1) [] (instructionsOf stages1) t1)
    as [[paths0|e|p] t2] eqn:Hwalk; try done.
  simpl. intros [= <- <-].
  pose proof (walk_succeeds _ _ _ _ _ _ Hne1 Hwalk) as Hall1.
  assert (Forall (fun cmd => isOk (fst (walkCommand res1 [] cmd t1)) = true)
                 (instructionsOf stages2)) as Hall2 by (by rewrite <- Hperm).
  rewrite (walk_contributions _ _ _ _ Hne1 Hall1) in Hwalk.
  injection Hwalk as <- <-.
  rewrite (walk_contributions _ _ _ _ Hne2 Hall2). simpl.
  f_equal. f_equal. apply sortStrings_perm.
  rewrite <- !flat_map_concat_map. by apply Permutation_flat_map.
Qed.

(** X23.  The walk keeps one table for the whole recipe and does not
    reset it at a stage: two recipes with the same ARGs before the first
    stage and the same sequence of instructions, divided into stages in
    any way, give the same result and leave the same table.  A value set
    by ENV in one stage is seen by the expansions of every later stage. *)
Theorem stage_boundaries_irrelevant res1 res2 stages1 stages2 argCommands t :
  instructionsParse (AST res1) = Ok (stages1, argCommands) ->
  instructionsParse (AST res2) = Ok (stages2, argCommands) ->
  EscapeToken res2 = EscapeToken res1 ->
  instructionsOf stages1 = instructionsOf stages2 ->
  PathsFromDockerfile res1 t = PathsFromDockerfile res2 t.
Proof.
  intros Hparse1 Hparse2 Hesc Hsame.
  destruct (forEach_argDefault (concat argCommands) t) as (t1 & Hrun & _).
  rewrite (PathsFromDockerfile_unfold _ _ _ _ _ Hparse1 Hrun).
  rewrite (PathsFromDockerfile_unfold _ _ _ _ _ Hparse2 Hrun).
  rewrite (walkCommand_escape res1 res2 Hesc).
  by rewrite !foldM_stages_instructions, Hsame.
Qed.
End order_of_instructions.

Lemma instruction_order_irrelevant_without_env_witness :
  @instructionsParse (Fixture.collaborators Data.scenario)
    (AST (Data.result Data.scenario))
  = Ok (fst Data.scenario, snd Data.scenario) /\
  @instructionsParse (Fixture.collaborators Data.scenario)
    (AST (Data.result Cases.shuffled))
  = Ok (fst Cases.shuffled, snd Data.scenario) /\
  EscapeToken (Data.result Cases.shuffled)
  = EscapeToken (Data.result Data.scenario) /\
  noEnv (fst Data.scenario) = true /\
  instructionsOf (fst Data.scenario) ≡ₚ instructionsOf (fst Cases.shuffled) /\
  @Checksum.PathsFromDockerfile (Fixture.collaborators Data.scenario)
    (Data.result Data.scenario) {["ARG1" := "b"]}
  = (Ok ["./a/*"; "./b"; "./c"], {["ARG1" := "b"]}) /\
  @Checksum.PathsFromDockerfile (Fixture.collaborators Data.scenario)
    (Data.result Cases.shuffled) {["ARG1" := "b"]}
  = (Ok ["./a/*"; "./b"; "./c"], {["ARG1" := "b"]}).
Proof.
  assert (instructionsOf (fst Data.scenario) ≡ₚ instructionsOf (fst Cases.shuffled))
    as Hperm.
  { unfold instructionsOf. simpl.
    etransitivity; [apply Permutation_skip, Permutation_swap|].
    etransitivity; [apply Permutation_swap|].
    apply Permutation_skip, Permutation_swap. }
  assert (@Checksum.PathsFromDockerfile (Fixture.collaborators Data.scenario)
            (Data.result Data.scenario) {["ARG1" := "b"]}
          = (Ok ["./a/*"; "./b"; "./c"], {["ARG1" := "b"]})) as Hrun
      by (vm_compute; reflexivity).
  split; [reflexivity|]. split; [reflexivity|]. split; [reflexivity|].
  split; [reflexivity|]. split; [exact Hperm|]. split; [exact Hrun|].
  exact (@instruction_order_irrelevant_without_env
           (Fixture.collaborators Data.scenario)
           (Data.result Data.scenario) (Data.result Cases.shuffled)
           (fst Data.scenario) (fst Cases.shuffled) (snd Data.scenario) _ _ _
           eq_refl eq_refl eq_refl eq_refl Hperm Hrun).
Defined.

(** ** The command over the library *)

Section command.
Context `{Collaborators}.
Import Checksum.

(** X24.  The command over the library writes to its output stream
    exactly when it succeeds: on success a checksum of at least 32
    characters, and nothing when it fails. *)
Theorem command_prints_iff_success w c s args :
  (isOk (fst (Cli.handlerRoot w c s args)) = true ->
   32 <= String.length (snd (Cli.handlerRoot w c s args))) /\
  (isOk (fst (Cli.handlerRoot w c s args)) = false ->
   snd (Cli.handlerRoot w c s args) = "").
Proof.
  unfold Cli.handlerRoot. destruct args as [|arg0 args]; [done|].
  match goal with
  | |- context [CalculateDockerfileChecksum w ?c' s] =>
      destruct (CalculateDockerfileChecksum w c' s) as [[out|e|p] s'] eqn:Hcalc
  end; simpl; try done.
  split; [|done]. intros _.
  apply Calculate_inv in Hcalc as Hinv.
  destruct Hinv as (content & res & a & paths & t' & ps & Hread & Hparse
                    & Hhash & Hpaths & Hnil & Hps).
  rewrite (Calculate_run _ _ _ content res a paths t' ps) in Hcalc by done.
  injection Hcalc as <- _.
  rewrite hexEncode_length, Sum_Size. destruct a; simpl; lia.
Qed.
End command.

Lemma command_prints_iff_success_witness :
  isOk (fst (@Cli.handlerRoot (Fixture.collaborators Data.copyFile)
               (Data.world Data.copyFileText) (Data.config "md5") Data.store
               ["."])) = true /\
  snd (@Cli.handlerRoot (Fixture.collaborators Data.copyFile)
         (Data.world Data.copyFileText) (Data.config "md5") Data.store ["."])
  = "f9fe780e4b8b0785a396fd972e1f4c40" /\
  32 <= String.length
          (snd (@Cli.handlerRoot (Fixture.collaborators Data.copyFile)
                  (Data.world Data.copyFileText) (Data.config "md5")
                  Data.store ["."])).
Proof.
  assert (isOk (fst (@Cli.handlerRoot (Fixture.collaborators Data.copyFile)
                       (Data.world Data.copyFileText) (Data.config "md5")
                       Data.store ["."])) = true) as Hok
      by (vm_compute; reflexivity).
  split; [exact Hok|]. split; [vm_compute; reflexivity|].
  exact (proj1 (@command_prints_iff_success
                  (Fixture.collaborators Data.copyFile)
                  (Data.world Data.copyFileText) (Data.config "md5")
                  Data.store ["."]) Hok).
Defined.

Lemma stage_boundaries_irrelevant_witness :
  @instructionsParse (Fixture.collaborators Cases.twoStages)
    (AST (Data.result Cases.twoStages))
  = Ok (fst Cases.twoStages, snd Cases.twoStages) /\
  @instructionsParse (Fixture.collaborators Cases.twoStages)
    (AST (Data.result Cases.oneStage))
  = Ok (fst Cases.oneStage, snd Cases.twoStages) /\
  EscapeToken (Data.result Cases.oneStage)
  = EscapeToken (Data.result Cases.twoStages) /\
  instructionsOf (fst Cases.twoStages) = instructionsOf (fst Cases.oneStage) /\
  @Checksum.PathsFromDockerfile (Fixture.collaborators Cases.twoStages)
    (Data.result Cases.twoStages) ∅
  = (Ok ["./b"], {["E" := "b"]}) /\
  @Checksum.PathsFromDockerfile (Fixture.collaborators Cases.twoStages)
    (Data.result Cases.oneStage) ∅
  = (Ok ["./b"], {["E" := "b"]}).
Proof.
  assert (@Checksum.PathsFromDockerfile (Fixture.collaborators Cases.twoStages)
            (Data.result Cases.twoStages) ∅
          = (Ok ["./b"], {["E" := "b"]})) as Hrun by (vm_compute; reflexivity).
  split; [reflexivity|]. split; [reflexivity|]. split; [reflexivity|].
  split; [reflexivity|]. split; [exact Hrun|].
  etransitivity; [|exact Hrun]. symmetry.
  exact (@stage_boundaries_irrelevant (Fixture.collaborators Cases.twoStages)
           (Data.result Cases.twoStages) (Data.result Cases.oneStage)
           (fst Cases.twoStages) (fst Cases.oneStage) (snd Cases.twoStages) ∅
           eq_refl eq_refl eq_refl eq_refl).
Defined.
